(** * LogSV: the memory store, the registry and the HTTP interface of the
      server, the log parser, the file tailer, the pipeline and the
      reconnect logic of the agent, embedded from [src/server/index.js]
      and [src/agent/index.js].

    Conventions of the embedding.
    - A JavaScript string is a Rocq [string]; a character is one code unit
      below 256, read as Latin-1.  [toLowerCase], [trim] and the regular
      expression classes [\d], [\w], [\s] and [\b] are written out for that
      range.
    - A method that mutates [this] takes the object and returns the new one.
    - [Date.now()] and [crypto.randomBytes] are inputs of the call that
      reads them.
    - A [Map] iterated with [entries()] or [values()] is an association list
      in insertion order; a [Set] of which only [add] and [size] are used is
      a duplicate-free list. *)

From Stdlib Require Import String Ascii List Bool Arith ZArith Lia.
From Stdlib Require Import DecimalString DecimalNat.
Import ListNotations.

Set Implicit Arguments.

(** ** Characters and text *)

Module Text.

Definition code (c : ascii) : nat := nat_of_ascii c.

Definition between (lo hi n : nat) : bool := (lo <=? n) && (n <=? hi).

(** [\d] *)
Definition isDigit (c : ascii) : bool := between 48 57 (code c).

Definition isUpper (c : ascii) : bool := between 65 90 (code c).
Definition isLower (c : ascii) : bool := between 97 122 (code c).

(** [\w] is [[A-Za-z0-9_]]. *)
Definition isWord (c : ascii) : bool :=
  isDigit c || isUpper c || isLower c || (code c =? 95).

(** [[a-f0-9]] under the [i] flag. *)
Definition isHex (c : ascii) : bool :=
  isDigit c || between 97 102 (code c) || between 65 70 (code c).

(** White space as [trim] and [\s] see it: TAB, LF, VT, FF, CR, SP, NBSP. *)
Definition isSpace (c : ascii) : bool :=
  between 9 13 (code c) || (code c =? 32) || (code c =? 160).

Definition isChar (x : ascii) (c : ascii) : bool := Ascii.eqb x c.

(** One character of [String.prototype.toLowerCase]: A-Z and the Latin-1
    capitals U+00C0..U+00DE (U+00D7, the multiplication sign, apart). *)
Definition lowerChar (c : ascii) : ascii :=
  let n := code c in
  if isUpper c || (between 192 222 n && negb (n =? 215))
  then ascii_of_nat (n + 32) else c.

Definition lower (s : list ascii) : list ascii := map lowerChar s.

Fixpoint trimStart (s : list ascii) : list ascii :=
  match s with
  | [] => []
  | c :: t => if isSpace c then trimStart t else s
  end.

Fixpoint trimEnd (s : list ascii) : list ascii :=
  match s with
  | [] => []
  | c :: t =>
      match trimEnd t with
      | [] => if isSpace c then [] else [c]
      | t' => c :: t'
      end
  end.

Definition trimL (s : list ascii) : list ascii := trimEnd (trimStart s).

Fixpoint startsWith (p s : list ascii) : bool :=
  match p, s with
  | [], _ => true
  | _ :: _, [] => false
  | a :: p', b :: s' => Ascii.eqb a b && startsWith p' s'
  end.

(** [s.includes(p)] *)
Fixpoint includesL (p s : list ascii) : bool :=
  startsWith p s ||
  match s with
  | [] => false
  | _ :: t => includesL p t
  end.

Definition chars (s : string) : list ascii := list_ascii_of_string s.
Definition text (l : list ascii) : string := string_of_list_ascii l.

Definition toLowerCase (s : string) : string := text (lower (chars s)).
Definition trim (s : string) : string := text (trimL (chars s)).
Definition includes (s p : string) : bool := includesL (chars p) (chars s).

(** [keywords.some(k => s.includes(k))] *)
Definition includesAny (s : string) (keywords : list string) : bool :=
  existsb (includes s) keywords.

(** *** Regular expressions

    A match attempt at one position sees the character before it (for
    [\b]) and the rest of the subject, and answers with the length of the
    match. *)
Definition Matcher := option ascii -> list ascii -> option nat.

(** A sequence of single-character classes, matched at the head of [s]. *)
Fixpoint matchClasses (cs : list (ascii -> bool)) (s : list ascii) : bool :=
  match cs, s with
  | [], _ => true
  | _ :: _, [] => false
  | p :: cs', c :: s' => p c && matchClasses cs' s'
  end.

(** [subject.replace(/re/g, rep)]: scan from the left; at a match emit [rep]
    and resume after the matched characters ([skip] counts the characters
    of the current match that remain to be passed over), elsewhere copy one
    character.  None of the expressions below matches the empty string. *)
Fixpoint replaceAll (m : Matcher) (rep : list ascii)
    (prev : option ascii) (skip : nat) (s : list ascii) : list ascii :=
  match s with
  | [] => []
  | c :: t =>
      match skip with
      | S k => replaceAll m rep (Some c) k t
      | O =>
          match m prev s with
          | Some (S k) => rep ++ replaceAll m rep (Some c) k t
          | _ => c :: replaceAll m rep (Some c) 0 t
          end
      end
  end.

(** [re.test(subject)] for an expression without anchors. *)
Fixpoint anyMatch (m : Matcher) (prev : option ascii) (s : list ascii) : bool :=
  match s with
  | [] => false
  | c :: t =>
      match m prev s with
      | Some (S _) => true
      | _ => anyMatch m (Some c) t
      end
  end.

End Text.

Import Text.

(** ** Message normalisation (server, [MemoryStore.normalizeMessage]) *)

Module Normalize.

Local Open Scope char_scope.

Definition d := isDigit.
Definition h := isHex.

(** [\d{4}-\d{2}-\d{2}[T\s]\d{2}:\d{2}:\d{2}], the part every match has. *)
Definition timestampCore : list (ascii -> bool) :=
  [d; d; d; d; isChar "-"; d; d; isChar "-"; d; d;
   (fun c => isChar "T" c || isSpace c);
   d; d; isChar ":"; d; d; isChar ":"; d; d].

(** [/\d{4}-\d{2}-\d{2}[T\s]\d{2}:\d{2}:\d{2}(\.\d{3})?[Z]?/]: both
    optional parts are greedy and nothing follows them, so each is taken
    whenever it is there. *)
Definition matchTimestamp : Matcher := fun _ s =>
  if matchClasses timestampCore s then
    let r := skipn 19 s in
    let k1 := if matchClasses [isChar "."; d; d; d] r then 4 else 0 in
    let k2 := if matchClasses [isChar "Z"] (skipn k1 r) then 1 else 0 in
    Some (19 + k1 + k2)
  else None.

(** Length of the run of digits at the head of [s]. *)
Fixpoint digitRun (s : list ascii) : nat :=
  match s with
  | c :: t => if isDigit c then S (digitRun t) else 0
  | [] => 0
  end.

Definition wordAt (s : list ascii) : bool :=
  match s with
  | c :: _ => isWord c
  | [] => false
  end.

Definition wordBefore (prev : option ascii) : bool :=
  match prev with
  | Some c => isWord c
  | None => false
  end.

(** [/\b\d+\b/]: the first [\b] wants no word character before the digits;
    [\d+] takes the whole run; the second [\b] wants no word character
    after it (a shorter run ends before a digit, so backtracking never
    helps). *)
Definition matchNumber : Matcher := fun prev s =>
  if wordBefore prev then None
  else
    let n := digitRun s in
    match n with
    | O => None
    | S _ => if wordAt (skipn n s) then None else Some n
    end.

(** [/[a-f0-9]{8}-[a-f0-9]{4}-[a-f0-9]{4}-[a-f0-9]{4}-[a-f0-9]{12}/i] *)
Definition uuidClasses : list (ascii -> bool) :=
  [h; h; h; h; h; h; h; h; isChar "-"; h; h; h; h; isChar "-";
   h; h; h; h; isChar "-"; h; h; h; h; isChar "-";
   h; h; h; h; h; h; h; h; h; h; h; h].

Definition matchUUID : Matcher := fun _ s =>
  if matchClasses uuidClasses s then Some 36 else None.

Definition replaceTimestamps (s : list ascii) : list ascii :=
  replaceAll matchTimestamp (chars "TIMESTAMP") None 0 s.
Definition replaceNumbers (s : list ascii) : list ascii :=
  replaceAll matchNumber (chars "NUMBER") None 0 s.
Definition replaceUUIDs (s : list ascii) : list ascii :=
  replaceAll matchUUID (chars "UUID") None 0 s.

Definition normalizeL (s : list ascii) : list ascii :=
  trimL (lower (replaceUUIDs (replaceNumbers (replaceTimestamps s)))).

Definition normalizeMessage (message : string) : string :=
  text (normalizeL (chars message)).

(** Does the text hold a run shaped like a UUID (what the third
    replacement looks for)? *)
Definition containsUUID (s : string) : bool :=
  anyMatch matchUUID None (chars s).

End Normalize.

Import Normalize.

Open Scope string_scope.

(** ** Results of code that may throw *)

Inductive Outcome (A : Type) : Type :=
| Returns (a : A)
| Throws (typeError : string).

Arguments Returns {A} a.
Arguments Throws {A} typeError.

Definition bindO {A B} (x : Outcome A) (f : A -> Outcome B) : Outcome B :=
  match x with
  | Returns a => f a
  | Throws e => Throws e
  end.

(** [xs.filter(p)] when [p] may throw: the first throw ends the call. *)
Fixpoint filterO {A} (p : A -> Outcome bool) (xs : list A) : Outcome (list A) :=
  match xs with
  | [] => Returns []
  | x :: t =>
      bindO (p x) (fun keep =>
      bindO (filterO p t) (fun t' =>
      Returns (if keep then x :: t' else t')))
  end.

(** ** Keyed collections

    A [Map] and the properties of an object both keep insertion order:
    [member] is [get] (or reading a property), [assign] is [set] (or
    writing one); a key that is there keeps its place. *)

Fixpoint member {V} (k : string) (o : list (string * V)) : option V :=
  match o with
  | [] => None
  | (k', v) :: t => if k' =? k then Some v else member k t
  end.

Fixpoint assign {V} (k : string) (v : V) (o : list (string * V)) : list (string * V) :=
  match o with
  | [] => [(k, v)]
  | (k', v') :: t => if k' =? k then (k', v) :: t else (k', v') :: assign k v t
  end.

(** ** The memory store (server, [class MemoryStore]) *)

Module Store.

(** A value stored as a time stamp, by what [new Date(v).getTime()] makes
    of it: epoch milliseconds, or [NaN] for text that is no date. *)
Inductive Timestamp : Type :=
| At (ms : Z)
| NotADate (raw : string).

Definition getTime (t : Timestamp) : option Z :=
  match t with
  | At ms => Some ms
  | NotADate _ => None
  end.

(** [new Date(t).getTime() > bound]; a comparison with [NaN] is false. *)
Definition laterThan (t : Timestamp) (bound : Z) : bool :=
  match getTime t with
  | Some ms => (bound <? ms)%Z
  | None => false
  end.

Record Semantics : Type := {
  hasIpAddress : bool; hasUrl : bool; hasStatusCode : bool;
  hasTimestamp : bool; hasDatabase : bool; hasNetwork : bool;
  hasAuth : bool; hasMemory : bool; hasSecurity : bool
}.

(** The [data] of an [error] frame as [LogScopeAgent.sendError] builds it.
    [timestamp] is [None] when the property is missing or falsy.  [server]
    is the property of that name, which [sendError] does not set. *)
Record ErrorData : Type := {
  in_serverId : string;
  in_serverName : string;
  in_server : option string;
  in_logFile : string;
  in_lineNumber : nat;
  in_timestamp : option Timestamp;
  in_errorMessage : string;
  in_parser : string;
  in_urgency : nat;
  in_semantics : Semantics
}.

Inductive Severity : Type := critical | high | medium | low.

Inductive Trend : Type := new | stable | increasing | decreasing.

(** The same object once [addError] has filled it in. *)
Record StoredError : Type := {
  id : string;
  serverId : string;
  serverName : string;
  server : option string;
  logFile : string;
  lineNumber : nat;
  timestamp : Timestamp;
  errorMessage : string;
  parser : string;
  urgency : nat;
  semantics : Semantics;
  severity : Severity;
  category : string;
  count : nat;
  firstSeen : Timestamp;
  lastSeen : Timestamp;
  trend : Trend
}.

Record PatternEntry : Type := {
  p_count : nat;
  p_servers : list string;
  p_lastSeen : option Timestamp
}.

Inductive InsightType : Type := pattern | anomaly | recommendation.

(** The text of an insight's [description], kept as the template and the
    numbers put into it (the percentage of the second one is
    [Math.round((count / total) * 100)], computed in floating point). *)
Inductive Description : Type :=
| AcrossServers (servers : nat)
| ShareOfRecent (count total : nat)
| Advice (text : string).

Record Insight : Type := {
  i_type : InsightType;
  i_title : string;
  i_description : Description;
  i_confidence : nat;
  i_pattern : option string
}.

Record MemoryStore : Type := {
  errors : list StoredError;
  insights : list Insight;
  maxErrors : nat;
  patterns : list (string * PatternEntry)
}.

(** [constructor()] *)
Definition empty : MemoryStore :=
  {| errors := []; insights := []; maxErrors := 1000; patterns := [] |}.

Definition categories : list (string * list string) :=
  [ ("Database Connectivity",
      ["connection"; "timeout"; "database"; "db"; "mysql"; "postgres"; "mongo"]);
    ("Authentication",
      ["auth"; "login"; "password"; "token"; "permission"; "unauthorized"; "401"; "403"]);
    ("Network Issues",
      ["network"; "dns"; "host"; "unreachable"; "connection refused"; "timeout"]);
    ("File System",
      ["file"; "directory"; "permission denied"; "disk"; "space"; "io error"]);
    ("Memory Issues",
      ["memory"; "oom"; "heap"; "stack overflow"; "out of memory"]);
    ("Data Processing",
      ["json"; "parse"; "format"; "invalid"; "malformed"; "corrupt"]);
    ("Resource Management",
      ["queue"; "pool"; "limit"; "capacity"; "overflow"; "resource"]);
    ("Configuration",
      ["config"; "setting"; "parameter"; "missing"; "invalid config"]);
    ("API Issues",
      ["api"; "endpoint"; "route"; "404"; "500"; "service unavailable"]);
    ("Security",
      ["security"; "attack"; "breach"; "suspicious"; "blocked"; "firewall"]) ].

Definition categorizeError (message : string) : string :=
  let msg := toLowerCase message in
  match find (fun entry => includesAny msg (snd entry)) categories with
  | Some entry => fst entry
  | None => "General"
  end.

Definition calculateSeverity (message : string) : Severity :=
  let msg := toLowerCase message in
  if includesAny msg ["fatal"; "critical"; "emergency"; "panic"; "severe"]
  then critical
  else if includesAny msg ["error"; "fail"; "exception"; "timeout"; "refused"; "denied"]
  then high
  else if includesAny msg ["warn"; "warning"; "deprecated"; "retry"]
  then medium
  else low.

(** The test inside [findSimilarError], on the three properties it reads. *)
Definition similar (sid file message : string) (e : StoredError) : bool :=
  (serverId e =? sid) && (logFile e =? file) &&
  (normalizeMessage (errorMessage e) =? normalizeMessage message).

Definition findSimilarError (s : MemoryStore) (newError : ErrorData) : option StoredError :=
  find (similar (in_serverId newError) (in_logFile newError) (in_errorMessage newError))
       (errors s).

Definition hour : Z := (60 * 60 * 1000)%Z.

Definition calculateTrend (s : MemoryStore) (now : Z) (error : StoredError) : Trend :=
  let oneHourAgo := (now - hour)%Z in
  let recentCount :=
    length (filter (fun e =>
      negb (id e =? id error) &&
      (normalizeMessage (errorMessage e) =? normalizeMessage (errorMessage error)) &&
      laterThan (lastSeen e) oneHourAgo) (errors s)) in
  if (recentCount =? 0)%nat then new
  else if (5 <? recentCount)%nat then increasing
  else if (recentCount <? 2)%nat then decreasing
  else stable.

(** [Set.prototype.add] *)
Definition setAdd (x : string) (xs : list string) : list string :=
  if existsb (String.eqb x) xs then xs else xs ++ [x].

(** The [categories] object of [generateInsights]: one count per category,
    keys in the order of their first error. *)
Fixpoint tally (cats : list string) (acc : list (string * nat)) : list (string * nat) :=
  match cats with
  | [] => acc
  | c :: t =>
      tally t (assign c (match member c acc with Some n => n | None => 0 end + 1) acc)
  end.

(** [Object.entries(categories).sort(([,a], [,b]) => b - a)[0]]: the sort is
    stable, so the head is the first entry among those of largest count. *)
Fixpoint topEntry (entries : list (string * nat)) : option (string * nat) :=
  match entries with
  | [] => None
  | e :: t =>
      match topEntry t with
      | Some e' => if (snd e <? snd e')%nat then Some e' else Some e
      | None => Some e
      end
  end.

Definition patternInsights (ps : list (string * PatternEntry)) : list Insight :=
  flat_map (fun kv =>
    let data := snd kv in
    if (5 <? p_count data)%nat && (1 <? length (p_servers data))%nat then
      [ {| i_type := pattern;
           i_title := "Cross-server error pattern detected";
           i_description := AcrossServers (length (p_servers data));
           i_confidence := Nat.min 95 (60 + p_count data * 2);
           i_pattern := Some (fst kv) |} ]
    else []) ps.

Definition anomalyInsights (errs : list StoredError) (now : Z) : list Insight :=
  let oneHourAgo := (now - hour)%Z in
  let recentErrors := filter (fun e => laterThan (lastSeen e) oneHourAgo) errs in
  if (10 <? length recentErrors)%nat then
    match topEntry (tally (map category recentErrors) []) with
    | Some topCategory =>
        if (3 <? snd topCategory)%nat then
          [ {| i_type := anomaly;
               i_title := "Spike in " ++ fst topCategory ++ " errors";
               i_description := ShareOfRecent (snd topCategory) (length recentErrors);
               i_confidence := 85;
               i_pattern := None |} ]
        else []
    | None => []
    end
  else [].

Definition recommendationInsights (errs : list StoredError) : list Insight :=
  let dbErrors := length (filter (fun e => category e =? "Database Connectivity") errs) in
  if (3 <? dbErrors)%nat then
    [ {| i_type := recommendation;
         i_title := "Database connection optimization needed";
         i_description :=
           Advice "Consider implementing connection pooling and retry mechanisms";
         i_confidence := 78;
         i_pattern := None |} ]
  else [].

(** What [generateInsights] computes from the store at time [now]. *)
Definition deriveInsights (s : MemoryStore) (now : Z) : list Insight :=
  firstn 5 (patternInsights (patterns s) ++
            anomalyInsights (errors s) now ++
            recommendationInsights (errors s)).

Definition generateInsights (s : MemoryStore) (now : Z) : MemoryStore :=
  {| errors := errors s;
     insights := deriveInsights s now;
     maxErrors := maxErrors s;
     patterns := patterns s |}.

Definition updatePatterns (s : MemoryStore) (now : Z) (error : StoredError) : MemoryStore :=
  let key := normalizeMessage (errorMessage error) in
  let current :=
    match member key (patterns s) with
    | Some entry => entry
    | None => {| p_count := 0; p_servers := []; p_lastSeen := None |}
    end in
  let current' :=
    {| p_count := p_count current + 1;
       p_servers := setAdd (serverId error) (p_servers current);
       p_lastSeen := Some (timestamp error) |} in
  generateInsights
    {| errors := errors s;
       insights := insights s;
       maxErrors := maxErrors s;
       patterns := assign key current' (patterns s) |}
    now.

(** The three writes of the duplicate branch, on the object they go to. *)
Definition bump (existing : StoredError) (seen : Timestamp) : StoredError :=
  {| id := id existing; serverId := serverId existing;
     serverName := serverName existing; server := server existing;
     logFile := logFile existing; lineNumber := lineNumber existing;
     timestamp := timestamp existing; errorMessage := errorMessage existing;
     parser := parser existing; urgency := urgency existing;
     semantics := semantics existing; severity := severity existing;
     category := category existing;
     count := count existing + 1;
     firstSeen := firstSeen existing;
     lastSeen := seen;
     trend := trend existing |}.

Definition withTrend (existing : StoredError) (t : Trend) : StoredError :=
  {| id := id existing; serverId := serverId existing;
     serverName := serverName existing; server := server existing;
     logFile := logFile existing; lineNumber := lineNumber existing;
     timestamp := timestamp existing; errorMessage := errorMessage existing;
     parser := parser existing; urgency := urgency existing;
     semantics := semantics existing; severity := severity existing;
     category := category existing;
     count := count existing;
     firstSeen := firstSeen existing;
     lastSeen := lastSeen existing;
     trend := t |}.

(** The array after a write to the object [find] returned: the first
    element that passes the test is the one written to. *)
Fixpoint writeFirst {A} (test : A -> bool) (x' : A) (xs : list A) : list A :=
  match xs with
  | [] => []
  | x :: t => if test x then x' :: t else x :: writeFirst test x' t
  end.

Definition withErrors (s : MemoryStore) (errs : list StoredError) : MemoryStore :=
  {| errors := errs; insights := insights s;
     maxErrors := maxErrors s; patterns := patterns s |}.

(** One call [addError(error)].  Besides the frame's data it consumes the
    bytes [generateId] draws ([newId]), the clock read for a missing
    time stamp ([stamp]) and the clock read by [calculateTrend] or
    [generateInsights] ([now]). *)
Record Call : Type := {
  error : ErrorData;
  newId : string;
  stamp : Z;
  now : Z
}.

Definition addError (s : MemoryStore) (c : Call) : MemoryStore * StoredError :=
  let e := error c in
  let category' := categorizeError (in_errorMessage e) in
  let severity' := calculateSeverity (in_errorMessage e) in
  let timestamp' :=
    match in_timestamp e with
    | Some t => t
    | None => At (stamp c)
    end in
  let test := similar (in_serverId e) (in_logFile e) (in_errorMessage e) in
  match findSimilarError s e with
  | Some existing =>
      let seen := bump existing timestamp' in
      let s1 := withErrors s (writeFirst test seen (errors s)) in
      let merged := withTrend seen (calculateTrend s1 (now c) seen) in
      (withErrors s1 (writeFirst test merged (errors s1)), merged)
  | None =>
      let fresh :=
        {| id := newId c; serverId := in_serverId e;
           serverName := in_serverName e; server := in_server e;
           logFile := in_logFile e; lineNumber := in_lineNumber e;
           timestamp := timestamp'; errorMessage := in_errorMessage e;
           parser := in_parser e; urgency := in_urgency e;
           semantics := in_semantics e; severity := severity';
           category := category';
           count := 1;
           firstSeen := timestamp';
           lastSeen := timestamp';
           trend := new |} in
      let unshifted := fresh :: errors s in
      let trimmed :=
        if (maxErrors s <? length unshifted)%nat
        then firstn (maxErrors s) unshifted
        else unshifted in
      (updatePatterns (withErrors s trimmed) (now c) fresh, fresh)
  end.

(** [/server[- ]?(\w+)/] at the head of [s], giving group 1.  The optional
    separator is greedy; giving it back never helps, since [\w+] cannot
    start on the separator. *)
Fixpoint wordRun (s : list ascii) : list ascii :=
  match s with
  | c :: t => if isWord c then c :: wordRun t else []
  | [] => []
  end.

Definition serverCueAt (s : list ascii) : option (list ascii) :=
  if startsWith (chars "server") s then
    let r := skipn 6 s in
    let r' :=
      match r with
      | c :: t => if isChar "-" c || isChar " " c then t else r
      | [] => r
      end in
    match wordRun r' with
    | [] => None
    | w => Some w
    end
  else None.

(** [q.match(/server[- ]?(\w+)/)]: the leftmost position that matches. *)
Fixpoint serverCue (s : list ascii) : option (list ascii) :=
  match serverCueAt s with
  | Some w => Some w
  | None =>
      match s with
      | [] => None
      | _ :: t => serverCue t
      end
  end.

Definition Filter := StoredError -> Outcome bool.

(** [e.server.toLowerCase()]: a [TypeError] when [e] has no [server]. *)
Definition serverLower (e : StoredError) : Outcome string :=
  match server e with
  | Some name => Returns (toLowerCase name)
  | None => Throws "Cannot read properties of undefined (reading 'toLowerCase')"
  end.

(** [a || b] where [b] may throw and is evaluated only when [a] is false. *)
Definition orElse (a : bool) (b : Outcome bool) : Outcome bool :=
  if a then Returns true else b.

(** The filter chain [search] builds from the cue words in [q]. *)
Definition cueFilters (q : string) : list Filter :=
  (if includes q "critical" || includes q "urgent"
   then [fun e => Returns (match severity e with critical => true | _ => false end)]
   else []) ++
  (if includes q "database" || includes q "db"
   then [fun e => Returns (category e =? "Database Connectivity")]
   else []) ++
  (if includes q "timeout"
   then [fun e => Returns (includes (toLowerCase (errorMessage e)) "timeout")]
   else []) ++
  (if includes q "new" || includes q "recent"
   then [fun e => Returns (match trend e with new | increasing => true | _ => false end)]
   else []) ++
  (if includes q "server"
   then match serverCue (chars q) with
        | Some w =>
            [fun e =>
               orElse (includes (serverId e) (text w))
                 (bindO (serverLower e) (fun name => Returns (includes name (text w))))]
        | None => []
        end
   else []).

(** The fall-back test of [search]. *)
Definition textFilter (q : string) : Filter := fun e =>
  orElse (includes (toLowerCase (errorMessage e)) q)
    (bindO (serverLower e) (fun name =>
     orElse (includes name q)
       (Returns (includes (toLowerCase (category e)) q)))).

Fixpoint applyFilters (filters : list Filter) (results : list StoredError)
  : Outcome (list StoredError) :=
  match filters with
  | [] => Returns results
  | f :: rest => bindO (filterO f results) (applyFilters rest)
  end.

Definition search (s : MemoryStore) (query : string) : Outcome (list StoredError) :=
  if query =? "" then Returns (firstn 50 (errors s))
  else
    let q := toLowerCase query in
    let filters := cueFilters q in
    bindO (applyFilters filters (errors s)) (fun results =>
    bindO (if (length results =? length (errors s))%nat &&
              (length filters =? 0)%nat
           then filterO (textFilter q) (errors s)
           else Returns results) (fun results' =>
    Returns (firstn 100 results'))).

(** The store after a sequence of calls, oldest first. *)
Definition run (calls : list Call) (s : MemoryStore) : MemoryStore :=
  fold_left (fun st c => fst (addError st c)) calls s.

End Store.

(** ** The file tailer (agent, [class FileTailer]) *)

Module Tailer.

Local Open Scope nat_scope.

(** The file at [filePath] at some moment: its bytes, each read as one
    character (as UTF-8 decoding does for ASCII content), or [None] when
    [statSync] and [openSync] throw (no such file, no permission). *)
Definition File := option (list ascii).

Definition size (f : File) : nat :=
  match f with
  | Some content => length content
  | None => 0
  end.

Record FileTailer : Type := {
  position : nat;
  running : bool;
  watching : bool;     (* a [watchFile] listener is installed *)
  retryPending : bool  (* [watchTimeout] holds a timer *)
}.

(** [constructor(filePath, callback)] *)
Definition create : FileTailer :=
  {| position := 0; running := false; watching := false; retryPending := false |}.

Definition scheduleRetry (t : FileTailer) : FileTailer :=
  {| position := position t; running := running t;
     watching := watching t; retryPending := true |}.

Definition watch (t : FileTailer) : FileTailer :=
  if running t then
    {| position := position t; running := running t;
       watching := true; retryPending := retryPending t |}
  else t.

Definition start (t : FileTailer) (f : File) : FileTailer :=
  match f with
  | Some content =>
      watch {| position := length content; running := true;
               watching := watching t; retryPending := retryPending t |}
  | None =>
      scheduleRetry {| position := position t; running := true;
                       watching := watching t; retryPending := retryPending t |}
  end.

(** The timer set by [scheduleRetry], when it fires. *)
Definition onRetry (t : FileTailer) (f : File) : FileTailer :=
  if running t
  then start {| position := position t; running := running t;
                watching := watching t; retryPending := false |} f
  else t.

Definition stop (t : FileTailer) : FileTailer :=
  {| position := position t; running := false;
     watching := false; retryPending := false |}.

(** [content.split('\n')] *)
Fixpoint splitLines (s : list ascii) : list (list ascii) :=
  match s with
  | [] => [[]]
  | c :: t =>
      if isChar "010"%char c then [] :: splitLines t
      else match splitLines t with
           | l :: ls => (c :: l) :: ls
           | [] => [[c]]
           end
  end.

(** [.filter(line => line.trim())]: a line is kept when something is left
    of it after trimming. *)
Definition nonBlank (l : list ascii) : bool :=
  match trimL l with
  | [] => false
  | _ :: _ => true
  end.

Definition linesOf (chunk : list ascii) : list string :=
  map text (filter nonBlank (splitLines chunk)).

(** [readNewLines()]: the tailer afterwards and the lines handed to the
    callback, in order. *)
Definition readNewLines (t : FileTailer) (f : File) : FileTailer * list string :=
  match f with
  | None => (scheduleRetry t, [])
  | Some content =>
      if length content <=? position t then (t, [])
      else
        ({| position := length content; running := running t;
            watching := watching t; retryPending := retryPending t |},
         linesOf (skipn (position t) content))
  end.

(** The [watchFile] listener, called with the sizes of the current and the
    previous poll; [f] is the file as [readNewLines] then finds it. *)
Definition onChange (t : FileTailer) (prevSize : nat) (f : File)
  : FileTailer * list string :=
  if prevSize <? size f then readNewLines t f else (t, []).

(** Polls in sequence: each sees the size of the poll before it. *)
Fixpoint polls (t : FileTailer) (prevSize : nat) (files : list File)
  : FileTailer * list string :=
  match files with
  | [] => (t, [])
  | f :: rest =>
      let (t1, out1) := onChange t prevSize f in
      let (t2, out2) := polls t1 (size f) rest in
      (t2, (out1 ++ out2)%list)
  end.

End Tailer.

(** ** Reconnection (agent, [class LogScopeAgent]) *)

Module Agent.

Local Open Scope Z_scope.

(** The two settings of [mergeDefaults] that reconnection reads; [None] is
    a property the given configuration does not have. *)
Record Config : Type := {
  cfg_reconnectDelay : option Z;
  cfg_maxReconnectAttempts : option Z
}.

(** [{ reconnectDelay: config.reconnectDelay || 5000,
       maxReconnectAttempts: config.maxReconnectAttempts || -1, ...config }]:
    the spread comes last, so a property the configuration has wins over
    the default, whatever its value. *)
Definition reconnectDelay (c : Config) : Z :=
  match cfg_reconnectDelay c with
  | Some v => v
  | None => 5000
  end.

Definition maxReconnectAttempts (c : Config) : Z :=
  match cfg_maxReconnectAttempts c with
  | Some v => v
  | None => -1
  end.

Record LogScopeAgent : Type := {
  config : Config;
  running : bool;
  reconnectAttempts : Z
}.

(** [scheduleReconnect()]: the agent afterwards and the delay of the timer
    it sets, if it sets one. *)
Definition scheduleReconnect (a : LogScopeAgent) : LogScopeAgent * option Z :=
  if (0 <? maxReconnectAttempts (config a)) &&
     (maxReconnectAttempts (config a) <=? reconnectAttempts a)
  then (a, None)
  else
    let attempts := reconnectAttempts a + 1 in
    let delay := Z.min (reconnectDelay (config a) * 2 ^ (attempts - 1)) 60000 in
    ({| config := config a; running := running a; reconnectAttempts := attempts |},
     Some delay).

(** The [open] listener of [connect]. *)
Definition onOpen (a : LogScopeAgent) : LogScopeAgent :=
  {| config := config a; running := running a; reconnectAttempts := 0 |}.

(** The [close] listener of [connect]. *)
Definition onClose (a : LogScopeAgent) : LogScopeAgent * option Z :=
  if running a then scheduleReconnect a else (a, None).

(** The agent after [n] closes in a row, no open in between. *)
Fixpoint closes (n : nat) (a : LogScopeAgent) : LogScopeAgent :=
  match n with
  | O => a
  | S k => fst (onClose (closes k a))
  end.

End Agent.

(** ** JSON values

    What [JSON.parse] returns and [JSON.stringify] writes.  The members of
    an object are its own properties in insertion order, each key once;
    numbers are integers. *)

#[warnings="-register-all"] Inductive Json : Type :=
| JNull
| JBool (b : bool)
| JNum (n : Z)
| JStr (s : string)
| JArr (items : list Json)
| JObj (members : list (string * Json)).

(** JavaScript's truthiness, on the values JSON has. *)
Definition truthy (v : Json) : bool :=
  match v with
  | JNull => false
  | JBool b => b
  | JNum n => negb (n =? 0)%Z
  | JStr s => negb (s =? "")
  | JArr _ | JObj _ => true
  end.

(** ** The agent registry and [GET /api/servers] (server, [class LogScopeServer]) *)

Module Server.

(** A [WebSocket] of the [ws] package, by its identity and by what
    [JSON.stringify] makes of it: the tree of its enumerable properties,
    or [None] when they form a cycle and [stringify] throws. *)
Record Socket : Type := {
  socketId : nat;
  socketJson : option Json
}.

(** What a property of an agent record can hold. *)
Inductive Value : Type :=
| Undefined
| Data (j : Json)
| Handle (ws : Socket).

Definition AgentRecord := list (string * Value).

(** [this.agents]: a [Map] from [agentData.serverId] ([None] when the frame
    has none) to the record, in insertion order. *)
Definition Agents := list (option Json * AgentRecord).

(** The key comparison of [Map]: primitives by value, an array or object
    only with itself, and every frame is parsed into fresh ones. *)
Definition sameKey (a b : option Json) : bool :=
  match a, b with
  | None, None => true
  | Some JNull, Some JNull => true
  | Some (JBool x), Some (JBool y) => Bool.eqb x y
  | Some (JNum x), Some (JNum y) => (x =? y)%Z
  | Some (JStr x), Some (JStr y) => (x =? y)
  | _, _ => false
  end.

Fixpoint agentsSet (k : option Json) (r : AgentRecord) (m : Agents) : Agents :=
  match m with
  | [] => [(k, r)]
  | (k', r') :: t => if sameKey k' k then (k', r) :: t else (k', r') :: agentsSet k r t
  end.

(** [registerAgent(agentData, ws)]; [nowIso] is [new Date().toISOString()]. *)
Definition registerAgent (agents : Agents) (agentData : list (string * Json))
    (ws : Socket) (nowIso : string) : Agents :=
  let agent :=
    assign "ws" (Handle ws)
    (assign "registeredAt" (Data (JStr nowIso))
    (assign "warningCount" (Data (JNum 0))
    (assign "successCount" (Data (JNum 0))
    (assign "errorCount" (Data (JNum 0))
    (assign "status" (Data (JStr "online"))
    (map (fun kv => (fst kv, Data (snd kv))) agentData)))))) in
  agentsSet (member "serverId" agentData) agent agents.

Definition holds (ws : Socket) (r : AgentRecord) : bool :=
  match member "ws" r with
  | Some (Handle ws') => (socketId ws' =? socketId ws)%nat
  | _ => false
  end.

(** The [close] listener of an agent socket: the first record that holds
    the socket goes offline. *)
Fixpoint onSocketClose (agents : Agents) (ws : Socket) (nowIso : string) : Agents :=
  match agents with
  | [] => []
  | (k, r) :: t =>
      if holds ws r
      then (k, assign "lastSeen" (Data (JStr nowIso))
                 (assign "status" (Data (JStr "offline")) r)) :: t
      else (k, r) :: onSocketClose t ws nowIso
  end.

(** A write to the record [this.agents.get(k)] returned, if there is one:
    the record stays where it is in the map. *)
Fixpoint agentsWrite (k : option Json) (f : AgentRecord -> AgentRecord)
    (m : Agents) : Agents :=
  match m with
  | [] => []
  | (k', r) :: t =>
      if sameKey k' k then (k', f r) :: t else (k', r) :: agentsWrite k f t
  end.

(** *** Writes to a record *)

(** The decimal numeral of an index and of an integer. *)
Definition decimal (n : nat) : string := NilZero.string_of_uint (Nat.to_uint n).
Definition numeral (n : Z) : string := NilZero.string_of_int (Z.to_int n).

(** [String(v)]: an array is its elements joined by commas, [null] among
    them as the empty string; an object is [[object Object]]. *)
Fixpoint toString (v : Json) : string :=
  match v with
  | JNull => "null"
  | JBool true => "true"
  | JBool false => "false"
  | JNum n => numeral n
  | JStr s => s
  | JArr items =>
      let element x := match x with JNull => "" | _ => toString x end in
      (fix join (l : list Json) : string :=
         match l with
         | [] => ""
         | [x] => element x
         | x :: t => element x ++ "," ++ join t
         end) items
  | JObj _ => "[object Object]"
  end.

(** [(v || 0) + 1]: a missing or falsy [v] counts as 0, a number or [true]
    is added to, anything else is turned into a string and extended. *)
Definition plusOne (v : option Value) : Json :=
  match v with
  | None | Some Undefined => JNum 1
  | Some (Handle _) => JStr "[object Object]1"
  | Some (Data j) =>
      if truthy j then
        match j with
        | JNum n => JNum (n + 1)
        | JBool _ => JNum 2
        | _ => JStr (toString j ++ "1")
        end
      else JNum 1
  end.

(** What [handleError(errorData)] does to the registry:
    [agent.errorCount = (agent.errorCount || 0) + 1], and [lastSeen]. *)
Definition countError (agents : Agents) (serverId : option Json) (nowIso : string)
  : Agents :=
  agentsWrite serverId (fun agent =>
    assign "lastSeen" (Data (JStr nowIso))
      (assign "errorCount" (Data (plusOne (member "errorCount" agent))) agent))
    agents.

(** A key that is an array index: the numeral, without leading zeros, of
    an integer below 2^32 - 1. *)
Definition arrayIndex (k : string) : option N :=
  match chars k with
  | [] => None
  | c :: t =>
      if forallb isDigit (c :: t) &&
         (negb (isChar "0" c) || match t with [] => true | _ :: _ => false end)
      then
        let n := fold_left (fun acc ch => (acc * 10 + N.of_nat (code ch - 48))%N)
                           (c :: t) 0%N in
        if (n <? 4294967295)%N then Some n else None
      else None
  end.

(** A new array index goes among the array indices, which come first and
    in ascending order. *)
Fixpoint insertIndex (i : N) (k : string) (v : Value) (o : AgentRecord)
  : AgentRecord :=
  match o with
  | [] => [(k, v)]
  | (k', v') :: t =>
      match arrayIndex k' with
      | Some j => if (j <? i)%N then (k', v') :: insertIndex i k v t
                  else (k, v) :: o
      | None => (k, v) :: o
      end
  end.

(** [o[k] = v] on a record: a property the record has keeps its place; a
    new [__proto__] reaches the setter of [Object.prototype] and adds no
    property; a new array index goes among the array indices; any other
    new key goes last. *)
Definition setProperty (k : string) (v : Value) (o : AgentRecord) : AgentRecord :=
  match member k o with
  | Some _ => assign k v o
  | None =>
      if k =? "__proto__" then o
      else
        match arrayIndex k with
        | Some i => insertIndex i k v o
        | None => assign k v o
        end
  end.

Fixpoint indexed (i : nat) (items : list Json) : list (string * Json) :=
  match items with
  | [] => []
  | x :: t => (decimal i, x) :: indexed (S i) t
  end.

(** The own enumerable properties [Object.assign] copies from a source:
    the members of an object, the elements of an array and the characters
    of a string under their indices, nothing of any other value. *)
Definition ownMembers (source : option Json) : list (string * Json) :=
  match source with
  | Some (JObj members) => members
  | Some (JArr items) => indexed 0 items
  | Some (JStr s) =>
      indexed 0 (map (fun c => JStr (String c EmptyString)) (chars s))
  | _ => []
  end.

(** [Object.assign(agent, source)] *)
Definition objectAssign (agent : AgentRecord) (source : option Json) : AgentRecord :=
  fold_left (fun o kv => setProperty (fst kv) (Data (snd kv)) o)
            (ownMembers source) agent.

(** [updateStats(statsData)]: [Object.assign(agent, statsData.stats)], then
    [lastSeen]; [stats] is [None] when the frame has no such member. *)
Definition updateStats (agents : Agents) (serverId : option Json)
    (stats : option Json) (nowIso : string) : Agents :=
  agentsWrite serverId (fun agent =>
    assign "lastSeen" (Data (JStr nowIso)) (objectAssign agent stats)) agents.

(** What happens to the registry, with the time [new Date().toISOString()]
    gives when it happens. *)
Inductive Event : Type :=
| Register (agentData : list (string * Json)) (ws : Socket) (nowIso : string)
| ErrorFrame (serverId : option Json) (nowIso : string)
| StatsFrame (serverId : option Json) (stats : option Json) (nowIso : string)
| SocketClosed (ws : Socket) (nowIso : string).

Definition step (agents : Agents) (e : Event) : Agents :=
  match e with
  | Register agentData ws nowIso => registerAgent agents agentData ws nowIso
  | ErrorFrame serverId nowIso => countError agents serverId nowIso
  | StatsFrame serverId stats nowIso => updateStats agents serverId stats nowIso
  | SocketClosed ws nowIso => onSocketClose agents ws nowIso
  end.

(** The registry of a server that has seen [events], oldest first. *)
Definition after (events : list Event) : Agents := fold_left step events [].

(** [JSON.stringify] of one record: a property that is [undefined] is left
    out, every other one is written under its key. *)
Fixpoint stringifyRecord (r : AgentRecord) : Outcome (list (string * Json)) :=
  match r with
  | [] => Returns []
  | (k, v) :: t =>
      match v with
      | Undefined => stringifyRecord t
      | Data j => bindO (stringifyRecord t) (fun t' => Returns ((k, j) :: t'))
      | Handle ws =>
          match socketJson ws with
          | Some j => bindO (stringifyRecord t) (fun t' => Returns ((k, j) :: t'))
          | None => Throws "Converting circular structure to JSON"
          end
      end
  end.

Fixpoint stringifyAll (rs : list AgentRecord) : Outcome (list Json) :=
  match rs with
  | [] => Returns []
  | r :: t =>
      bindO (stringifyRecord r) (fun o =>
      bindO (stringifyAll t) (fun t' => Returns (JObj o :: t')))
  end.

(** The calls made on the response object. *)
Inductive ResOp : Type :=
| SetHeader (name value : string)
| WriteHead (status : nat)
| End (body : Json).

(** [handleAPI] for the path [/api/servers]: the calls made on the
    response and the error that leaves the handler, if any.
    [writeHead(200)] is called before [JSON.stringify] is evaluated; when
    that throws, the [catch] block calls [writeHead(500)], which throws in
    its turn, as the head was written, and [end] is not reached. *)
Definition apiServers (agents : Agents) : list ResOp * option string :=
  let servers := map snd agents in
  match stringifyAll servers with
  | Returns body =>
      ([SetHeader "Content-Type" "application/json"; WriteHead 200;
        End (JArr body)], None)
  | Throws _ =>
      ([SetHeader "Content-Type" "application/json"; WriteHead 200],
       Some "ERR_HTTP_HEADERS_SENT")
  end.

End Server.

(** ** The log parser (agent, [class SmartLogParser]) *)

Module Parser.

Import Store.

Inductive LogType : Type := nginx | apache | json | syslog | auto.

Record LogFileSpec : Type := {
  path : string;
  type : LogType
}.

(** What a parser returns.  [message] is a string on every path but the
    JSON one, which copies the value of the [message], [msg] or [text]
    member as it is. *)
Record ParsedEvent : Type := {
  ev_timestamp : Z;
  ev_level : string;
  ev_message : Json;
  ev_originalLine : string;
  ev_parser : string;
  ev_metadata : list (string * option Json);
  ev_semantics : option Semantics;
  ev_urgency : option nat
}.

(** One character of [toUpperCase]: a-z and the Latin-1 small letters whose
    capital is a Latin-1 character. *)
Definition upperChar (c : ascii) : ascii :=
  let n := code c in
  if isLower c || (between 224 254 n && negb (n =? 247)%nat)
  then ascii_of_nat (n - 32) else c.

Definition toUpperCase (s : string) : string := text (map upperChar (chars s)).

Definition levelMappings : list (string * string) :=
  [ ("E", "ERROR"); ("ERR", "ERROR"); ("FATAL", "ERROR");
    ("CRITICAL", "ERROR"); ("CRIT", "ERROR");
    ("W", "WARN"); ("WARNING", "WARN"); ("WARN", "WARN");
    ("I", "INFO"); ("NOTICE", "INFO"); ("LOG", "INFO");
    ("D", "DEBUG"); ("TRACE", "DEBUG"); ("VERBOSE", "DEBUG") ].

(** [normalizeLevel(level)] on a truthy value: [level.toUpperCase()] is a
    [TypeError] unless [level] is a string. *)
Definition normalizeLevel (level : Json) : Outcome string :=
  if negb (truthy level) then Returns "INFO"
  else
    match level with
    | JStr l =>
        let normalized := toUpperCase l in
        match member normalized levelMappings with
        | Some mapped => Returns mapped
        | None => Returns normalized
        end
    | _ => Throws "level.toUpperCase is not a function"
    end.

(** [/\b\d{1,3}\.\d{1,3}\.\d{1,3}\.\d{1,3}\b/].  Each group is followed by
    a character no digit matches, so it can only be the whole run of
    digits, of length 1 to 3. *)
Definition octet (s : list ascii) : option (nat * list ascii) :=
  let n := digitRun s in
  if ((1 <=? n) && (n <=? 3))%nat then Some (n, skipn n s) else None.

Definition dotThen (r : list ascii) : option (list ascii) :=
  match r with
  | c :: t => if isChar "." c then Some t else None
  | [] => None
  end.

Definition matchIpAddress : Matcher := fun prev s =>
  if wordBefore prev then None
  else
    match octet s with
    | Some (n1, r1) =>
    match dotThen r1 with
    | Some s2 =>
    match octet s2 with
    | Some (n2, r2) =>
    match dotThen r2 with
    | Some s3 =>
    match octet s3 with
    | Some (n3, r3) =>
    match dotThen r3 with
    | Some s4 =>
    match octet s4 with
    | Some (n4, r4) =>
        if wordAt r4 then None else Some (n1 + 1 + n2 + 1 + n3 + 1 + n4)%nat
    | None => None end
    | None => None end
    | None => None end
    | None => None end
    | None => None end
    | None => None end
    | None => None end.

(** [/https?:\/\/[^\s]+/] *)
Fixpoint nonSpaceRun (r : list ascii) : nat :=
  match r with
  | c :: t => if isSpace c then 0%nat else S (nonSpaceRun t)
  | [] => 0%nat
  end.

Definition restOfUrl (r : list ascii) : option nat :=
  match nonSpaceRun r with
  | O => None
  | S n => Some (S n)
  end.

Definition matchUrl : Matcher := fun _ s =>
  if startsWith (chars "https://") s then
    option_map (Nat.add 8) (restOfUrl (skipn 8 s))
  else if startsWith (chars "http://") s then
    option_map (Nat.add 7) (restOfUrl (skipn 7 s))
  else None.

(** [/\b[4-5]\d{2}\b/] *)
Definition matchStatusCode : Matcher := fun prev s =>
  if wordBefore prev then None
  else if matchClasses [(fun c => isChar "4" c || isChar "5" c); isDigit; isDigit] s
          && negb (wordAt (skipn 3 s))
  then Some 3%nat else None.

(** [/\d{4}-\d{2}-\d{2}/] *)
Definition matchDate : Matcher := fun _ s =>
  if matchClasses
       [isDigit; isDigit; isDigit; isDigit; isChar "-";
        isDigit; isDigit; isChar "-"; isDigit; isDigit] s
  then Some 10%nat else None.

Definition test (m : Matcher) (s : string) : bool := anyMatch m None (chars s).

(** [extractSemantics(message)]: [message.toLowerCase()] is a [TypeError]
    unless [message] is a string. *)
Definition extractSemantics (message : Json) : Outcome Semantics :=
  match message with
  | JStr m =>
      let lower := toLowerCase m in
      Returns
        {| hasIpAddress := test matchIpAddress m;
           hasUrl := test matchUrl m;
           hasStatusCode := test matchStatusCode m;
           hasTimestamp := test matchDate m;
           hasDatabase :=
             includesAny lower ["database"; "db"; "sql"; "query"; "table"; "connection"];
           hasNetwork :=
             includesAny lower ["network"; "socket"; "connection"; "host"; "port"];
           hasAuth :=
             includesAny lower ["auth"; "login"; "password"; "token"; "permission"];
           hasMemory := includesAny lower ["memory"; "heap"; "oom"; "malloc"];
           hasSecurity :=
             includesAny lower ["security"; "attack"; "breach"; "suspicious"] |}
  | _ => Throws "message.toLowerCase is not a function"
  end.

Definition levelScores : list (string * nat) :=
  [ ("ERROR", 8); ("WARN", 4); ("INFO", 1); ("DEBUG", 0) ]%nat.

Definition boost (flag : bool) (points : nat) : nat := if flag then points else 0%nat.

(** [calculateUrgency(parsed)] *)
Definition calculateUrgency (level : string) (message : Json)
    (sem : option Semantics) : Outcome nat :=
  let base := match member level levelScores with Some n => n | None => 0%nat end in
  let semantic :=
    match sem with
    | Some x =>
        (boost (hasDatabase x) 2 + boost (hasNetwork x) 1 + boost (hasAuth x) 3 +
         boost (hasSecurity x) 5 + boost (hasMemory x) 2 + boost (hasStatusCode x) 1)%nat
    | None => 0%nat
    end in
  match message with
  | JStr m =>
      let msg := toLowerCase m in
      let keywords :=
        (boost (includes msg "critical" || includes msg "fatal") 3 +
         boost (includes msg "timeout") 2 +
         boost (includes msg "failed" || includes msg "failure") 2)%nat in
      Returns (Nat.min 10 (base + semantic + keywords))
  | _ => Throws "parsed.message.toLowerCase is not a function"
  end.

(** [a || b] on optional members: the first truthy one, else the last. *)
Definition orValue (a b : option Json) : option Json :=
  match a with
  | Some v => if truthy v then a else b
  | None => b
  end.

(** What the parser takes from outside: the built-ins it calls, the clock,
    and the parsers of the line formats, which work by regular expressions
    on the line and return an event whose message is a string and whose
    level is in capitals. *)
Record Environment : Type := {
  (** [JSON.parse], [None] when it throws. *)
  JSON_parse : string -> option Json;
  (** [new Date(v).getTime()], [None] for [NaN]. *)
  dateValue : Json -> option Z;
  (** [String(v)], as [RegExp.prototype.test] converts its argument. *)
  toText : Json -> string;
  (** [Date.now()] and [new Date().getFullYear()]. *)
  clock : Z;
  currentYear : string;
  parseGeneric : string -> LogFileSpec -> ParsedEvent;
  parseNginx : string -> LogFileSpec -> ParsedEvent;
  parseApache : string -> LogFileSpec -> ParsedEvent;
  parseSyslog : string -> LogFileSpec -> ParsedEvent;
  isSyslogFormat : string -> bool
}.

(** [/^\w{3}\s+\d{1,2} \d{2}:\d{2}:\d{2}$/] *)
Definition afterDay (r : list ascii) : bool :=
  matchClasses [isChar " "; isDigit; isDigit; isChar ":"; isDigit; isDigit;
                isChar ":"; isDigit; isDigit] r
  && (length r =? 9)%nat.

Definition isSyslogStamp (s : string) : bool :=
  let cs := chars s in
  matchClasses [isWord; isWord; isWord; isSpace] cs &&
  let r := trimStart (skipn 3 cs) in
  let n := digitRun r in
  ((1 <=? n) && (n <=? 2))%nat && afterDay (skipn n r).

(** [parseTimestamp(timestampStr)] *)
Definition parseTimestamp (env : Environment) (timestampStr : option Json) : Z :=
  match timestampStr with
  | Some v =>
      if truthy v then
        let dateStr :=
          if isSyslogStamp (toText env v)
          then JStr (currentYear env ++ " " ++ toText env v)
          else v in
        match dateValue env dateStr with
        | Some ms => ms
        | None => clock env
        end
      else clock env
  | None => clock env
  end.

(** [parseJSON(line, logFile)]; whatever the [try] block throws sends the
    line to the generic parser. *)
Definition parseJSON (env : Environment) (line : string) (logFile : LogFileSpec)
  : ParsedEvent :=
  match JSON_parse env line with
  | None => parseGeneric env line logFile
  | Some JNull => parseGeneric env line logFile
  | Some parsed =>
      let get k := match parsed with JObj o => member k o | _ => None end in
      let timestamp := parseTimestamp env
        (orValue (orValue (get "timestamp") (get "time")) (get "@timestamp")) in
      let level := orValue (orValue (get "level") (get "severity")) (Some (JStr "INFO")) in
      let message := orValue (orValue (orValue (get "message") (get "msg")) (get "text"))
                             (Some (JStr line)) in
      match normalizeLevel (match level with Some v => v | None => JNull end) with
      | Throws _ => parseGeneric env line logFile
      | Returns level' =>
          {| ev_timestamp := timestamp;
             ev_level := level';
             ev_message := match message with Some v => v | None => JStr line end;
             ev_originalLine := line;
             ev_parser := "json";
             ev_metadata :=
               [("service", get "service"); ("version", get "version");
                ("trace_id", get "trace_id"); ("user_id", get "user_id")];
             ev_semantics := None;
             ev_urgency := None |}
      end
  end.

(** [parseAuto(line, logFile)] *)
Definition parseAuto (env : Environment) (line : string) (logFile : LogFileSpec)
  : ParsedEvent :=
  if startsWith (chars "{") (chars (trim line)) then parseJSON env line logFile
  else if includes line "nginx" then parseNginx env line logFile
  else if includes line "apache" then parseApache env line logFile
  else if isSyslogFormat env line then parseSyslog env line logFile
  else parseGeneric env line logFile.

(** [this.parsers], as the constructor fills it. *)
Definition parsers (env : Environment) (t : LogType)
  : string -> LogFileSpec -> ParsedEvent :=
  match t with
  | nginx => parseNginx env
  | apache => parseApache env
  | json => parseJSON env
  | syslog => parseSyslog env
  | auto => parseAuto env
  end.

(** [parse(line, logFile)] *)
Definition parse (env : Environment) (line : string) (logFile : LogFileSpec)
  : Outcome ParsedEvent :=
  let parser := parsers env (type logFile) in
  let result := parser line logFile in
  bindO (extractSemantics (ev_message result)) (fun sem =>
  bindO (calculateUrgency (ev_level result) (ev_message result) (Some sem)) (fun u =>
  Returns
    {| ev_timestamp := ev_timestamp result;
       ev_level := ev_level result;
       ev_message := ev_message result;
       ev_originalLine := ev_originalLine result;
       ev_parser := ev_parser result;
       ev_metadata := ev_metadata result;
       ev_semantics := Some sem;
       ev_urgency := Some u |})).

End Parser.

(** ** The HTTP interface (server, [setupHTTPServer] and [handleAPI]) *)

Module Api.

Import Store Server.
Local Open Scope list_scope.

(** *** [parseInt(text)] with no radix

    White space is skipped, then a sign, then [0x] or [0X] selects the
    radix 16; the value is that of the longest run of digits that follows.
    [None] is [NaN]; [null], which [searchParams.get] gives for a missing
    parameter, is read as the text [null]. *)
Definition digitValue (radix : nat) (c : ascii) : option nat :=
  let n := code c in
  let v :=
    if isDigit c then Some (n - 48)%nat
    else if isLower c then Some (n - 87)%nat
    else if isUpper c then Some (n - 55)%nat
    else None in
  match v with
  | Some d => if (d <? radix)%nat then Some d else None
  | None => None
  end.

Fixpoint digitsOf (radix : nat) (s : list ascii) : list nat :=
  match s with
  | [] => []
  | c :: t =>
      match digitValue radix c with
      | Some d => d :: digitsOf radix t
      | None => []
      end
  end.

Definition valueOf (radix : nat) (digits : list nat) : nat :=
  fold_left (fun acc d => (acc * radix + d)%nat) digits 0%nat.

Definition parseInt (input : option string) : option Z :=
  let inputString := match input with Some s => s | None => "null" end in
  let S0 := trimStart (chars inputString) in
  let '(sign, S1) :=
    match S0 with
    | c :: t =>
        if isChar "-" c then ((-1)%Z, t)
        else if isChar "+" c then (1%Z, t)
        else (1%Z, S0)
    | [] => (1%Z, S0)
    end in
  let '(R, S2) :=
    match S1 with
    | z :: x :: t =>
        if isChar "0" z && (isChar "x" x || isChar "X" x)
        then (16%nat, t) else (10%nat, S1)
    | _ => (10%nat, S1)
    end in
  match digitsOf R S2 with
  | [] => None
  | digits => Some (sign * Z.of_nat (valueOf R digits))%Z
  end.

(** [xs.slice(0, stop)] for an integer [stop]: a negative one counts from
    the end. *)
Definition slice0 {A} (xs : list A) (stop : Z) : list A :=
  if (stop <? 0)%Z
  then firstn (Z.to_nat (Z.max (Z.of_nat (length xs) + stop) 0)) xs
  else firstn (Z.to_nat stop) xs.

(** *** [/api/stats]

    [sum + (s.key || 0)]: a missing, [undefined] or falsy property adds
    nothing, a number or [true] is added, and any other value turns the
    sum into a string, which every later [+] extends; [None] is such a
    string. *)
Definition plus (sum : option Z) (v : option Value) : option Z :=
  match sum with
  | None => None
  | Some n =>
      match v with
      | None | Some Undefined => Some n
      | Some (Data j) =>
          if truthy j then
            match j with
            | JNum k => Some (n + k)%Z
            | JBool _ => Some (n + 1)%Z
            | _ => None
            end
          else Some n
      | Some (Handle _) => None
      end
  end.

(** [servers.reduce((sum, s) => sum + (s.key || 0), 0)] *)
Definition total (key : string) (servers : list AgentRecord) : option Z :=
  fold_left (fun sum s => plus sum (member key s)) servers (Some 0%Z).

Definition isOnline (s : AgentRecord) : bool :=
  match member "status" s with
  | Some (Data (JStr status)) => status =? "online"
  | _ => false
  end.

Record StatsReply : Type := {
  totalErrors : option Z;
  totalSuccess : option Z;
  totalWarnings : option Z;
  totalServers : nat;
  onlineServers : nat
}.

Definition statsOf (agents : Agents) : StatsReply :=
  let servers := map snd agents in
  {| totalErrors := total "errorCount" servers;
     totalSuccess := total "successCount" servers;
     totalWarnings := total "warningCount" servers;
     totalServers := length servers;
     onlineServers := length (filter isOnline servers) |}.

(** *** The response *)

(** What [res.end] is given, before [JSON.stringify] where that cannot
    throw. *)
Inductive Body : Type :=
| NoBody
| Dashboard
| JsonBody (j : Json)
| ErrorsBody (errors : list StoredError)
| StatsBody (stats : StatsReply)
| InsightsBody (insights : list Insight)
| HealthBody (process : Json) (servers errors : nat).

(** The calls made on the response object. *)
Inductive Op : Type :=
| OSetHeader (name value : string)
| OWriteHead (status : nat) (headers : list (string * string))
| OEnd (body : Body).

(** The parts of [new URL(req.url, ...)] the handlers read. *)
Record Url : Type := {
  pathname : string;
  limitParam : option string;
  qParam : option string
}.

Definition failure (message : string) : list Op :=
  [OWriteHead 500 []; OEnd (JsonBody (JObj [("error", JStr message)]))].

(** [handleAPI(req, res, url)]: the calls made on the response and the
    error that leaves the handler, if any; [process] stands for the
    readings [process.uptime()] and [process.memoryUsage()]. *)
Definition handleAPI (store : MemoryStore) (agents : Agents) (process : Json)
    (url : Url) : list Op * option string :=
  if pathname url =? "/api/servers" then
    (map (fun op =>
            match op with
            | SetHeader name value => OSetHeader name value
            | WriteHead status => OWriteHead status []
            | End body => OEnd (JsonBody body)
            end) (fst (apiServers agents)),
     snd (apiServers agents))
  else
  (OSetHeader "Content-Type" "application/json" ::
   if pathname url =? "/api/errors" then
     let limit :=
       match parseInt (limitParam url) with
       | Some n => if (n =? 0)%Z then 50%Z else n
       | None => 50%Z
       end in
     let query :=
       match qParam url with
       | Some q => q
       | None => ""
       end in
     match search store query with
     | Returns found => [OWriteHead 200 []; OEnd (ErrorsBody (slice0 found limit))]
     | Throws message => failure message
     end
   else if pathname url =? "/api/stats" then
     [OWriteHead 200 []; OEnd (StatsBody (statsOf agents))]
   else if pathname url =? "/api/insights" then
     [OWriteHead 200 []; OEnd (InsightsBody (insights store))]
   else if pathname url =? "/api/health" then
     [OWriteHead 200 [];
      OEnd (HealthBody process (length agents) (length (errors store)))]
   else
     [OWriteHead 404 []; OEnd (JsonBody (JObj [("error", JStr "Not found")]))],
   None).



End Api.

(** ** The agent's pipeline (agent, [class LogScopeAgent]) *)

Module Pipeline.

Import Store Server Parser.
Local Open Scope list_scope.

(** [detectLevelFromContent(content)] *)
Definition detectLevelFromContent (content : string) : string :=
  let lower := toLowerCase content in
  if includesAny lower
       ["error"; "exception"; "failed"; "failure"; "timeout"; "refused";
        "denied"; "fatal"; "critical"; "panic"; "abort"]
  then "ERROR"
  else if includesAny lower
            ["warning"; "warn"; "deprecated"; "retry"; "fallback"; "slow"]
  then "WARN"
  else "INFO".

(** [path.basename(filePath)] on a POSIX path: the slashes at the end are
    passed over, what follows the last slash before them is the name. *)
Fixpoint dropSlashes (s : list ascii) : list ascii :=
  match s with
  | c :: t => if isChar "/" c then dropSlashes t else s
  | [] => []
  end.

Fixpoint untilSlash (s : list ascii) : list ascii :=
  match s with
  | c :: t => if isChar "/" c then [] else c :: untilSlash t
  | [] => []
  end.

Definition basename (filePath : string) : string :=
  text (rev (untilSlash (dropSlashes (rev (chars filePath))))).

(** [detectLogType(filePath)] *)
Definition detectLogType (filePath : string) : LogType :=
  let fileName := toLowerCase (basename filePath) in
  if includes fileName "nginx" then nginx
  else if includes fileName "apache" then apache
  else if includes fileName "syslog" || includes fileName "messages" then syslog
  else if includes fileName ".json" then json
  else auto.

Definition commonPaths : list string :=
  [ "/var/log/syslog"; "/var/log/messages"; "/var/log/nginx/error.log";
    "/var/log/apache2/error.log"; "/var/log/auth.log" ].

(** [discoverLogFiles()]; [existsSync] is [fs.existsSync]. *)
Definition discoverLogFiles (existsSync : string -> bool) : list LogFileSpec :=
  map (fun p => {| path := p; type := detectLogType p |})
      (filter existsSync commonPaths).

(** [this.stats] *)
Record Stats : Type := {
  st_errors : Z;
  st_warnings : Z;
  st_success : Z;
  st_totalLines : Z
}.

(** [{ ...this.stats }] as a frame carries it. *)
Definition statsJson (s : Stats) : Json :=
  JObj [("errors", JNum (st_errors s)); ("warnings", JNum (st_warnings s));
        ("success", JNum (st_success s)); ("totalLines", JNum (st_totalLines s))].

(** The settings of [mergeDefaults] the pipeline reads; [None] is a
    property the given configuration does not have.  The spread comes
    last, so a property the configuration has wins over the default,
    whatever its value. *)
Record Settings : Type := {
  cfg_serverId : option string;
  cfg_serverName : option string;
  cfg_statsInterval : option nat
}.

Definition orHostname (v : option string) (hostname : string) : string :=
  match v with
  | Some s => s
  | None => hostname
  end.

Definition statsInterval (c : Settings) : nat :=
  match cfg_statsInterval c with
  | Some n => n
  | None => 10%nat
  end.

(** The [data] of an [error] frame, as [sendError] builds it. *)
Record ErrorReport : Type := {
  er_serverId : string;
  er_serverName : string;
  er_logFile : string;
  er_lineNumber : nat;
  er_timestamp : Z;
  er_errorMessage : Json;
  er_parser : string;
  er_urgency : option nat;
  er_semantics : option Semantics
}.

(** What [send] writes to the socket; [process] stands for the readings
    [process.uptime()] and [process.memoryUsage()]. *)
Inductive Frame : Type :=
| ErrorMessage (data : ErrorReport)
| StatsMessage (serverId : string) (stats : Stats) (timestamp : Z) (process : Json).

(** [send(data)]: written when the socket is open, dropped otherwise. *)
Definition send (connected : bool) (f : Frame) : list Frame :=
  if connected then [f] else [].

(** [getApproxLineNumber(filePath)]; [fileSize] is [None] when [statSync]
    throws. *)
Definition getApproxLineNumber (fileSize : option nat) : nat :=
  match fileSize with
  | Some size => (size / 100)%nat
  | None => 0%nat
  end.

(** What one call of [processLogLine] meets outside the agent. *)
Record Arrival : Type := {
  line : string;
  logFile : LogFileSpec;
  fileSize : option nat;
  connected : bool;
  process : Json
}.

Definition sendError (c : Settings) (hostname : string) (parsed : ParsedEvent)
    (a : Arrival) : list Frame :=
  if match ev_urgency parsed with
     | Some u => (u <? 5)%nat
     | None => false
     end
  then []
  else
    send (connected a)
      (ErrorMessage
         {| er_serverId := orHostname (cfg_serverId c) hostname;
            er_serverName := orHostname (cfg_serverName c) hostname;
            er_logFile := path (logFile a);
            er_lineNumber := getApproxLineNumber (fileSize a);
            er_timestamp := ev_timestamp parsed;
            er_errorMessage := ev_message parsed;
            er_parser := ev_parser parsed;
            er_urgency := ev_urgency parsed;
            er_semantics := ev_semantics parsed |}).

Definition sendStats (env : Environment) (c : Settings) (hostname : string)
    (stats : Stats) (a : Arrival) : list Frame :=
  send (connected a)
    (StatsMessage (orHostname (cfg_serverId c) hostname) stats (clock env)
       (process a)).

(** [this.stats.totalLines % this.config.statsInterval === 0]: the
    remainder by 0 is [NaN]. *)
Definition isDue (totalLines : Z) (interval : nat) : bool :=
  match interval with
  | O => false
  | S _ => (totalLines mod Z.of_nat interval =? 0)%Z
  end.

(** [processLogLine(line, logFile)]: the counters afterwards and the frames
    written.  What [parse] throws is caught after [totalLines] was
    counted. *)
Definition processLogLine (env : Environment) (c : Settings) (hostname : string)
    (stats : Stats) (a : Arrival) : Stats * list Frame :=
  let counted :=
    {| st_errors := st_errors stats; st_warnings := st_warnings stats;
       st_success := st_success stats;
       st_totalLines := (st_totalLines stats + 1)%Z |} in
  match parse env (line a) (logFile a) with
  | Throws _ => (counted, [])
  | Returns parsed =>
      let '(classed, sent) :=
        if ev_level parsed =? "ERROR" then
          ({| st_errors := (st_errors counted + 1)%Z;
              st_warnings := st_warnings counted;
              st_success := st_success counted;
              st_totalLines := st_totalLines counted |},
           sendError c hostname parsed a)
        else if ev_level parsed =? "WARN" then
          ({| st_errors := st_errors counted;
              st_warnings := (st_warnings counted + 1)%Z;
              st_success := st_success counted;
              st_totalLines := st_totalLines counted |}, [])
        else
          ({| st_errors := st_errors counted;
              st_warnings := st_warnings counted;
              st_success := (st_success counted + 1)%Z;
              st_totalLines := st_totalLines counted |}, []) in
      (classed,
       sent ++
       if isDue (st_totalLines classed) (statsInterval c)
       then sendStats env c hostname classed a else [])
  end.

(** The constructor's counters. *)
Definition noStats : Stats :=
  {| st_errors := 0; st_warnings := 0; st_success := 0; st_totalLines := 0 |}.

(** The lines the tailers hand over, oldest first. *)
Fixpoint processAll (env : Environment) (c : Settings) (hostname : string)
    (stats : Stats) (arrivals : list Arrival) : Stats * list Frame :=
  match arrivals with
  | [] => (stats, [])
  | a :: rest =>
      let (stats1, sent1) := processLogLine env c hostname stats a in
      let (stats2, sent2) := processAll env c hostname stats1 rest in
      (stats2, sent1 ++ sent2)
  end.

End Pipeline.

(** ** The parsers of the line formats (agent, [class SmartLogParser])

    Each expression is matched at the head of the line ([^]).  A greedy
    part whose shorter matches cannot be followed by what the expression
    wants next is written as the longest run; where a shorter match can
    succeed, the alternatives are tried in the order backtracking tries
    them. *)

Module Formats.

Import Store Parser Pipeline.
Local Open Scope list_scope.

Definition andThen {A B} (x : option A) (f : A -> option B) : option B :=
  match x with
  | Some a => f a
  | None => None
  end.

(** The alternatives of a backtracking choice, in order. *)
Definition otherwise {A} (x y : option A) : option A :=
  match x with
  | Some a => Some a
  | None => y
  end.

(** The literal [p] at the head of [s]: what follows it. *)
Definition expect (p : string) (s : list ascii) : option (list ascii) :=
  if startsWith (chars p) s then Some (skipn (String.length p) s) else None.

(** Length of the longest run of [p] at the head of [s]. *)
Fixpoint run (p : ascii -> bool) (s : list ascii) : nat :=
  match s with
  | c :: t => if p c then S (run p t) else 0%nat
  | [] => 0%nat
  end.

(** [p+] where what follows cannot begin with a [p]: the whole run, which
    is not empty, and what follows it. *)
Definition some (p : ascii -> bool) (s : list ascii)
  : option (list ascii * list ascii) :=
  match run p s with
  | O => None
  | n => Some (firstn n s, skipn n s)
  end.

(** [.] is any character but a line terminator. *)
Definition isLineTerminator (c : ascii) : bool :=
  (code c =? 10)%nat || (code c =? 13)%nat.

Definition notLineTerminator (c : ascii) : bool := negb (isLineTerminator c).

(** [(.+)] at the end of an expression. *)
Definition rest (s : list ascii) : option (list ascii) :=
  option_map fst (some notLineTerminator s).

(** *** [parseGeneric] *)

Definition levelWords : list string :=
  ["ERROR"; "WARN"; "INFO"; "DEBUG"; "FATAL"; "CRITICAL"].

(** [(ERROR|WARN|INFO|DEBUG|FATAL|CRITICAL)] under the [i] flag: the word
    as the line has it, and what follows. *)
Fixpoint levelWordAt (words : list string) (s : list ascii)
  : option (list ascii * list ascii) :=
  match words with
  | [] => None
  | w :: others =>
      if startsWith (lower (chars w)) (lower s)
      then Some (firstn (String.length w) s, skipn (String.length w) s)
      else levelWordAt others s
  end.

(** [[:\s]] *)
Definition isSeparator (c : ascii) : bool := isChar ":" c || isSpace c.

(** [[:\s]+(.+)] and [[:\s]*(.+)]: the separators take [k] characters,
    first all of the run, then one less each time [(.+)] finds nothing to
    match, down to [least]. *)
Fixpoint giveBack (k least : nat) (s : list ascii) : option (list ascii) :=
  if (k <? least)%nat then None
  else
    match rest (skipn k s) with
    | Some g => Some g
    | None =>
        match k with
        | O => None
        | S k' => giveBack k' least s
        end
    end.

Definition separated (least : nat) (s : list ascii) : option (list ascii) :=
  giveBack (run isSeparator s) least s.

(** [\[([^\]]+)\]]: the text between the brackets and what follows. *)
Definition bracketed (s : list ascii) : option (list ascii * list ascii) :=
  andThen (expect "[" s) (fun r =>
  andThen (some (fun c => negb (isChar "]" c)) r) (fun '(inner, r1) =>
  andThen (expect "]" r1) (fun r2 => Some (inner, r2)))).

(** [/^\[([^\]]+)\]\s*(ERROR|...)[:\s]+(.+)/i]: groups 1, 2 and 3. *)
Definition bracketedStampLine (s : list ascii)
  : option (list ascii * list ascii * list ascii) :=
  andThen (bracketed s) (fun '(stamp, r) =>
  andThen (levelWordAt levelWords (trimStart r)) (fun '(word, r1) =>
  andThen (separated 1 r1) (fun message => Some (stamp, word, message)))).

(** [\d{4}-\d{2}-\d{2}[T\s]\d{2}:\d{2}:\d{2}(?:\.\d{3})?[Z]?] under the
    [i] flag, followed by [\s+]: neither optional part can be left out
    when it is there, as no white space begins with what it matches. *)
Definition isoStamp (s : list ascii) : option (list ascii * list ascii) :=
  if matchClasses
       [isDigit; isDigit; isDigit; isDigit; isChar "-"; isDigit; isDigit;
        isChar "-"; isDigit; isDigit;
        (fun c => isChar "T" c || isChar "t" c || isSpace c);
        isDigit; isDigit; isChar ":"; isDigit; isDigit; isChar ":";
        isDigit; isDigit] s
  then
    let r := skipn 19 s in
    let k1 := if matchClasses [isChar "."; isDigit; isDigit; isDigit] r
              then 4%nat else 0%nat in
    let k2 := if matchClasses [fun c => isChar "Z" c || isChar "z" c] (skipn k1 r)
              then 1%nat else 0%nat in
    Some (firstn (19 + k1 + k2) s, skipn (19 + k1 + k2) s)
  else None.

(** [/^(\d{4}-...[Z]?)\s+(ERROR|...)[:\s]*(.+)/i]: groups 1, 2 and 3. *)
Definition isoStampLine (s : list ascii)
  : option (list ascii * list ascii * list ascii) :=
  andThen (isoStamp s) (fun '(stamp, r) =>
  andThen (some isSpace r) (fun '(_, r1) =>
  andThen (levelWordAt levelWords r1) (fun '(word, r2) =>
  andThen (separated 0 r2) (fun message => Some (stamp, word, message))))).

(** [/^(ERROR|...)[:\s]+(.+)/i]: groups 1 and 2. *)
Definition levelLine (s : list ascii) : option (list ascii * list ascii) :=
  andThen (levelWordAt levelWords s) (fun '(word, r) =>
  andThen (separated 1 r) (fun message => Some (word, message))).

(** [this.normalizeLevel(word)] on a word an expression matched. *)
Definition levelOf (word : list ascii) : string :=
  match normalizeLevel (JStr (text word)) with
  | Returns level => level
  | Throws _ => text word
  end.

Definition event (timestamp : Z) (level : string) (message : string)
    (line parser : string) (metadata : list (string * option Json)) : ParsedEvent :=
  {| ev_timestamp := timestamp; ev_level := level; ev_message := JStr message;
     ev_originalLine := line; ev_parser := parser; ev_metadata := metadata;
     ev_semantics := None; ev_urgency := None |}.

(** [parseGeneric(line, logFile)]; [env] gives the clock and the built-ins
    [parseTimestamp] calls. *)
Definition parseGeneric (env : Environment) (line : string) (logFile : LogFileSpec)
  : ParsedEvent :=
  let s := chars line in
  match bracketedStampLine s with
  | Some (stamp, word, message) =>
      event (parseTimestamp env (Some (JStr (text stamp)))) (levelOf word)
            (trim (text message)) line "generic" []
  | None =>
  match isoStampLine s with
  | Some (stamp, word, message) =>
      event (parseTimestamp env (Some (JStr (text stamp)))) (levelOf word)
            (trim (text message)) line "generic" []
  | None =>
  match levelLine s with
  | Some (word, message) =>
      event (clock env) (levelOf word) (trim (text message)) line "generic" []
  | None =>
      event (clock env) (detectLevelFromContent line) (trim line) line
            "fallback" []
  end end end.

(** *** [parseNginx] *)

(** [(?:\*\d+ )?(.+)]: with the connection number taken when [(.+)] can
    follow it, without it otherwise. *)
Definition connection (s : list ascii) : option (list ascii) :=
  andThen (expect "*" s) (fun r =>
  andThen (some isDigit r) (fun '(_, r1) => expect " " r1)).

(** [/^(\d{4}\/\d{2}\/\d{2} \d{2}:\d{2}:\d{2}) \[(\w+)\] \d+#\d+: (?:\*\d+ )?(.+)/]:
    groups 1, 2 and 3. *)
Definition nginxLine (s : list ascii)
  : option (list ascii * list ascii * list ascii) :=
  if matchClasses
       [isDigit; isDigit; isDigit; isDigit; isChar "/"; isDigit; isDigit;
        isChar "/"; isDigit; isDigit; isChar " ";
        isDigit; isDigit; isChar ":"; isDigit; isDigit; isChar ":";
        isDigit; isDigit] s
  then
    andThen (expect " [" (skipn 19 s)) (fun r =>
    andThen (some isWord r) (fun '(word, r1) =>
    andThen (expect "] " r1) (fun r2 =>
    andThen (some isDigit r2) (fun '(_, r3) =>
    andThen (expect "#" r3) (fun r4 =>
    andThen (some isDigit r4) (fun '(_, r5) =>
    andThen (expect ": " r5) (fun r6 =>
    andThen (otherwise (andThen (connection r6) rest) (rest r6)) (fun message =>
    Some (firstn 19 s, word, message)))))))))
  else None.

(** [match[1].replace(/\//g, '-')] *)
Definition dashes (s : list ascii) : list ascii :=
  map (fun c => if isChar "/" c then "-"%char else c) s.

Definition parseNginx (env : Environment) (line : string) (logFile : LogFileSpec)
  : ParsedEvent :=
  match nginxLine (chars line) with
  | Some (stamp, word, message) =>
      event (parseTimestamp env (Some (JStr (text (dashes stamp))))) (levelOf word)
            (text message) line "nginx" []
  | None => parseGeneric env line logFile
  end.

(** *** [parseApache] *)

Definition pidPart (s : list ascii) : option (list ascii) :=
  andThen (expect "[pid " s) (fun r =>
  andThen (some isDigit r) (fun '(_, r1) => expect "] " r1)).

Definition clientPart (s : list ascii) : option (list ascii) :=
  andThen (expect "[client " s) (fun r =>
  andThen (some (fun c => negb (isChar "]" c)) r) (fun '(_, r1) =>
  expect "] " r1)).

(** [(?:\[client [^\]]+\] )?(.+)] *)
Definition afterPid (s : list ascii) : option (list ascii) :=
  otherwise (andThen (clientPart s) rest) (rest s).

(** [/^\[([^\]]+)\] \[(\w+)\] (?:\[pid \d+\] )?(?:\[client [^\]]+\] )?(.+)/]:
    groups 1, 2 and 3. *)
Definition apacheLine (s : list ascii)
  : option (list ascii * list ascii * list ascii) :=
  andThen (bracketed s) (fun '(stamp, r) =>
  andThen (expect " [" r) (fun r1 =>
  andThen (some isWord r1) (fun '(word, r2) =>
  andThen (expect "] " r2) (fun r3 =>
  andThen (otherwise (andThen (pidPart r3) afterPid) (afterPid r3)) (fun message =>
  Some (stamp, word, message)))))).

Definition parseApache (env : Environment) (line : string) (logFile : LogFileSpec)
  : ParsedEvent :=
  match apacheLine (chars line) with
  | Some (stamp, word, message) =>
      event (parseTimestamp env (Some (JStr (text stamp)))) (levelOf word)
            (text message) line "apache" []
  | None => parseGeneric env line logFile
  end.

(** *** [parseSyslog] and [isSyslogFormat] *)

(** [\w{3}\s+\d{1,2} \d{2}:\d{2}:\d{2}]: the day is the whole run of
    digits, one or two of them, as a space has to follow it. *)
Definition syslogStamp (s : list ascii) : option (list ascii * list ascii) :=
  if matchClasses [isWord; isWord; isWord; isSpace] s then
    let r := trimStart (skipn 3 s) in
    let n := digitRun r in
    if ((1 <=? n) && (n <=? 2))%nat &&
       matchClasses [isChar " "; isDigit; isDigit; isChar ":"; isDigit; isDigit;
                     isChar ":"; isDigit; isDigit] (skipn n r)
    then
      let r1 := skipn (n + 9) r in
      Some (firstn (length s - length r1) s, r1)
    else None
  else None.

Definition notSpace (c : ascii) : bool := negb (isSpace c).

(** [(?:\[\d+\])?] *)
Definition processId (s : list ascii) : option (list ascii) :=
  andThen (expect "[" s) (fun r =>
  andThen (some isDigit r) (fun '(_, r1) => expect "]" r1)).

(** [/^(\w{3}\s+\d{1,2} \d{2}:\d{2}:\d{2}) (\S+) ([^:\[]+)(?:\[\d+\])?: (.+)/]:
    groups 1 to 4. *)
Definition syslogLine (s : list ascii)
  : option (list ascii * list ascii * list ascii * list ascii) :=
  andThen (syslogStamp s) (fun '(stamp, r) =>
  andThen (expect " " r) (fun r1 =>
  andThen (some notSpace r1) (fun '(hostname, r2) =>
  andThen (expect " " r2) (fun r3 =>
  andThen (some (fun c => negb (isChar ":" c || isChar "[" c)) r3)
          (fun '(service, r4) =>
  andThen (otherwise (andThen (processId r4) (expect ": ")) (expect ": " r4))
          (fun r5 =>
  andThen (rest r5) (fun message =>
  Some (stamp, hostname, service, message)))))))).

Definition parseSyslog (env : Environment) (line : string) (logFile : LogFileSpec)
  : ParsedEvent :=
  match syslogLine (chars line) with
  | Some (stamp, hostname, service, message) =>
      event (parseTimestamp env (Some (JStr (text stamp))))
            (detectLevelFromContent (text message)) (text message) line "syslog"
            [("hostname", Some (JStr (text hostname)));
             ("service", Some (JStr (text service)))]
  | None => parseGeneric env line logFile
  end.

(** [/^\w{3}\s+\d{1,2} \d{2}:\d{2}:\d{2} \S+ \S+/.test(line)] *)
Definition isSyslogFormat (line : string) : bool :=
  match
    andThen (syslogStamp (chars line)) (fun '(_, r) =>
    andThen (expect " " r) (fun r1 =>
    andThen (some notSpace r1) (fun '(_, r2) =>
    andThen (expect " " r2) (fun r3 =>
    some notSpace r3))))
  with
  | Some _ => true
  | None => false
  end.

(** The parser as the agent runs it: the built-ins and the clock of [env],
    with the parsers above for the line formats. *)
Definition withFormats (env : Environment) : Environment :=
  {| JSON_parse := JSON_parse env;
     dateValue := dateValue env;
     toText := toText env;
     clock := clock env;
     currentYear := currentYear env;
     Parser.parseGeneric := parseGeneric env;
     Parser.parseNginx := parseNginx env;
     Parser.parseApache := parseApache env;
     Parser.parseSyslog := parseSyslog env;
     Parser.isSyslogFormat := isSyslogFormat |}.

End Formats.

(** * Terms of the statements

    The vocabulary the properties below are stated in, and the concrete
    stores, files, agents and frames they are tried on. *)

Module StoreTerms.

Import Store.
Local Open Scope list_scope.

(** The key by which [findSimilarError] tells records apart. *)
Definition fingerprint (e : StoredError) : string * string * string :=
  (serverId e, logFile e, normalizeMessage (errorMessage e)).

Definition callFingerprint (c : Call) : string * string * string :=
  (in_serverId (error c), in_logFile (error c),
   normalizeMessage (in_errorMessage (error c))).

(** The insertion branch, spelled out. *)
Definition freshRecord (c : Call) : StoredError :=
  let e := error c in
  let ts := match in_timestamp e with Some t => t | None => At (stamp c) end in
  {| id := newId c; serverId := in_serverId e;
     serverName := in_serverName e; server := in_server e;
     logFile := in_logFile e; lineNumber := in_lineNumber e;
     timestamp := ts; errorMessage := in_errorMessage e;
     parser := in_parser e; urgency := in_urgency e;
     semantics := in_semantics e;
     severity := calculateSeverity (in_errorMessage e);
     category := categorizeError (in_errorMessage e);
     count := 1; firstSeen := ts; lastSeen := ts; trend := new |}.

(** The keys of the calls that inserted a record, the latest first;
    [newestFirst] holds those of the calls before [calls]. *)
Fixpoint inserted (calls : list Call) (s : MemoryStore)
    (newestFirst : list (string * string * string)) : list (string * string * string) :=
  match calls with
  | [] => newestFirst
  | c :: t =>
      inserted t (fst (addError s c))
        (match findSimilarError s (error c) with
         | None => callFingerprint c :: newestFirst
         | Some _ => newestFirst
         end)
  end.

Definition noSemantics : Semantics :=
  {| hasIpAddress := false; hasUrl := false; hasStatusCode := false;
     hasTimestamp := false; hasDatabase := false; hasNetwork := false;
     hasAuth := false; hasMemory := false; hasSecurity := false |}.

(** An [error] frame as [sendError] builds it, from the agent [web-01]. *)
Definition frame (file message : string) (at_ : Z) : ErrorData :=
  {| in_serverId := "web-01"; in_serverName := "Web 01"; in_server := None;
     in_logFile := file; in_lineNumber := 12; in_timestamp := Some (At at_);
     in_errorMessage := message; in_parser := "generic"; in_urgency := 10;
     in_semantics := noSemantics |}.

Definition callAt (clock : Z) (file message : string) (at_ : Z) : Call :=
  {| error := frame file message at_; newId := file; stamp := clock; now := clock |}.

(** Five hours after the epoch, eleven log files report a disk failure; the
    report of the first carries a time stamp four hours old, the others
    are fresh. *)
Definition fiveHours : Z := 5 * hour.

Definition elevenFiles : list Call :=
  callAt fiveHours "/var/log/a.log" "disk failure on volume 1" hour ::
  map (fun file => callAt fiveHours file "disk failure on volume 1" fiveHours)
    [ "/var/log/b.log"; "/var/log/c.log"; "/var/log/d.log"; "/var/log/e.log";
      "/var/log/f.log"; "/var/log/g.log"; "/var/log/h.log"; "/var/log/i.log";
      "/var/log/j.log"; "/var/log/k.log" ].

(** The first file reports the same failure again, now with a fresh stamp. *)
Definition again : Call :=
  callAt fiveHours "/var/log/a.log" "disk failure on volume 2" fiveHours.

(** The record the first of the eleven calls stored. *)
Definition firstReport : StoredError :=
  freshRecord (callAt fiveHours "/var/log/a.log" "disk failure on volume 1" hour).

End StoreTerms.

Module TailerTerms.

Import Tailer.
Local Open Scope nat_scope.
Local Open Scope list_scope.

(** A tailer started on a file of one line. *)
Definition oldContent : list ascii := chars "old line one" ++ ["010"%char].
Definition newContent : list ascii := chars "ERROR: x" ++ ["010"%char].

Definition tailing : FileTailer := start create (Some oldContent).

End TailerTerms.

Module AgentTerms.

Import Agent.
Local Open Scope Z_scope.

(** An agent configured with [maxReconnectAttempts: 3], and one with
    [maxReconnectAttempts: 0]. *)
Definition upToThree : LogScopeAgent :=
  {| config := {| cfg_reconnectDelay := None; cfg_maxReconnectAttempts := Some 3 |};
     running := true; reconnectAttempts := 0 |}.

Definition zeroMax : LogScopeAgent :=
  {| config := {| cfg_reconnectDelay := None; cfg_maxReconnectAttempts := Some 0 |};
     running := true; reconnectAttempts := 0 |}.

End AgentTerms.

Module ServerTerms.

Import Server.
Local Open Scope list_scope.

(** The [register] frame of the agent [web-01]. *)
Definition registerFrame : list (string * Json) :=
  [ ("serverId", JStr "web-01"); ("serverName", JStr "Web 01");
    ("logFiles", JArr [JStr "/var/log/syslog"]);
    ("timestamp", JStr "2025-08-01T10:30:15.000Z");
    ("version", JStr "2.0.0-ultra") ].

(** A socket whose properties serialise to some tree, and one whose
    properties form a cycle. *)
Definition plainSocket : Socket :=
  {| socketId := 1; socketJson := Some (JObj [("readyState", JNum 1)]) |}.
Definition cyclicSocket : Socket :=
  {| socketId := 2; socketJson := None |}.

Definition registration (ws : Socket) : Event :=
  Register registerFrame ws "2025-08-01T10:30:16.000Z".

(** The agent registers, reports an error and its counters, and loses its
    connection. *)
Definition session : list Event :=
  [ registration plainSocket;
    ErrorFrame (Some (JStr "web-01")) "2025-08-01T10:30:20.000Z";
    StatsFrame (Some (JStr "web-01"))
      (Some (JObj [("errors", JNum 1); ("warnings", JNum 0); ("success", JNum 9);
                   ("totalLines", JNum 10)]))
      "2025-08-01T10:30:30.000Z";
    SocketClosed plainSocket "2025-08-01T10:31:00.000Z" ].

(** The body of the answer after that session. *)
Definition sessionRecords : list Json :=
  [ JObj [ ("serverId", JStr "web-01"); ("serverName", JStr "Web 01");
           ("logFiles", JArr [JStr "/var/log/syslog"]);
           ("timestamp", JStr "2025-08-01T10:30:15.000Z");
           ("version", JStr "2.0.0-ultra");
           ("status", JStr "offline");
           ("errorCount", JNum 1); ("successCount", JNum 0);
           ("warningCount", JNum 0);
           ("registeredAt", JStr "2025-08-01T10:30:16.000Z");
           ("ws", JObj [("readyState", JNum 1)]);
           ("lastSeen", JStr "2025-08-01T10:31:00.000Z");
           ("errors", JNum 1); ("warnings", JNum 0); ("success", JNum 9);
           ("totalLines", JNum 10) ] ].

(** The event is a stats frame whose [stats] has a member [k], which
    [Object.assign] then writes into the record. *)
Definition carries (k : string) (e : Event) : bool :=
  match e with
  | StatsFrame _ stats _ => existsb (String.eqb k) (map fst (ownMembers stats))
  | _ => false
  end.

(** The record holds a socket under [ws]. *)
Definition holdsSocket (r : AgentRecord) : Prop :=
  exists ws, member "ws" r = Some (Handle ws).

(** The record [rec] of the answer is the serialisation of [r], socket
    included. *)
Definition serialisedWithSocket (r : AgentRecord) (rec : Json) : Prop :=
  exists ws image o,
    member "ws" r = Some (Handle ws) /\
    socketJson ws = Some image /\
    stringifyRecord r = Returns o /\
    rec = JObj o /\
    member "ws" o = Some image.

(** A response free of transport handles: status 200, an array, and no
    record with a member [ws]. *)
Definition withoutHandle (response : list ResOp * option string) : Prop :=
  exists records,
    response = ([SetHeader "Content-Type" "application/json"; WriteHead 200;
                 End (JArr records)], None) /\
    Forall (fun r => match r with
                     | JObj o => member "ws" o = None
                     | _ => False
                     end) records.

End ServerTerms.

Module ParserTerms.

Import Parser.

(** The character U+0022. *)
Definition quote : string := String (ascii_of_nat 34) EmptyString.

(** The line [{"message":42}] and what [JSON.parse] makes of it. *)
Definition numericMessageLine : string :=
  "{" ++ quote ++ "message" ++ quote ++ ":42}".
Definition numericMessage : Json := JObj [("message", JNum 42)].

Definition jsonFile : LogFileSpec := {| path := "/var/log/app.json"; type := json |}.
Definition autoFile : LogFileSpec := {| path := "/var/log/app.log"; type := auto |}.

(** An environment in which [JSON.parse] knows that one line. *)
Definition stubEvent (line : string) (_ : LogFileSpec) : ParsedEvent :=
  {| ev_timestamp := 0; ev_level := "INFO"; ev_message := JStr line;
     ev_originalLine := line; ev_parser := "fallback"; ev_metadata := [];
     ev_semantics := None; ev_urgency := None |}.

Definition stubParse (line : string) : option Json :=
  if line =? numericMessageLine then Some numericMessage else None.

Definition stubEnvironment : Environment :=
  {| JSON_parse := stubParse;
     dateValue := fun _ => None;
     toText := fun _ => "";
     clock := 0;
     currentYear := "2025";
     parseGeneric := stubEvent; parseNginx := stubEvent;
     parseApache := stubEvent; parseSyslog := stubEvent;
     isSyslogFormat := fun _ => false |}.

End ParserTerms.

Module NormalizeTerms.

Local Open Scope list_scope.
Local Open Scope nat_scope.

Ltac each_char c :=
  destruct c as [[|] [|] [|] [|] [|] [|] [|] [|]]; vm_compute;
  try reflexivity; try (intros; first [reflexivity | discriminate]).

(** What follows the run of digits at the head of [s]. *)
Definition afterDigits (s : list ascii) : list ascii := skipn (digitRun s) s.

(** [matchNumber] succeeds at the head of [s], [pw] telling whether a word
    character stands before it. *)
Definition numberAt (pw : bool) (s : list ascii) : bool :=
  negb pw && (0 <? digitRun s) && negb (wordAt (afterDigits s)).

(** No position of [s] starts a match. *)
Fixpoint numberFree (pw : bool) (s : list ascii) : bool :=
  match s with
  | [] => true
  | c :: t => negb (numberAt pw s) && numberFree (isWord c) t
  end.

End NormalizeTerms.

Module StoreMoreTerms.

Import Store.
Import StoreTerms.
Local Open Scope list_scope.

(** The time stamp a call stores: the frame's, or the clock's. *)
Definition stampOf (c : Call) : Timestamp :=
  match in_timestamp (error c) with Some t => t | None => At (stamp c) end.

(** The order of the severities, [low] the least. *)
Definition rank (s : Severity) : nat :=
  match s with
  | low => 0
  | medium => 1
  | high => 2
  | critical => 3
  end.

(** [xs] is [ys] with some elements left out, the others in their order. *)
Inductive Subsequence {A : Type} : list A -> list A -> Prop :=
| sub_nil : Subsequence [] []
| sub_skip x xs ys : Subsequence xs ys -> Subsequence xs (x :: ys)
| sub_keep x xs ys : Subsequence xs ys -> Subsequence (x :: xs) (x :: ys).

(** The occurrences the stored records stand for. *)
Definition totalCount (errs : list StoredError) : nat :=
  fold_right (fun e n => count e + n) 0 errs.

(** The category names [categorizeError] can return. *)
Definition categoryNames : list string := map fst categories ++ ["General"].

(** The cue tests of [search] that need no [server] property. *)
Definition isCritical (e : StoredError) : bool :=
  match severity e with critical => true | _ => false end.
Definition isDatabase (e : StoredError) : bool :=
  category e =? "Database Connectivity".
Definition mentionsTimeout (e : StoredError) : bool :=
  includes (toLowerCase (errorMessage e)) "timeout".
Definition isRising (e : StoredError) : bool :=
  match trend e with new | increasing => true | _ => false end.

(** The conjunction of the cue tests the query [q] selects. *)
Definition cueTest (q : string) (e : StoredError) : bool :=
  (if includes q "critical" || includes q "urgent" then isCritical e else true) &&
  (if includes q "database" || includes q "db" then isDatabase e else true) &&
  (if includes q "timeout" then mentionsTimeout e else true) &&
  (if includes q "new" || includes q "recent" then isRising e else true).

Definition hasPlainCue (q : string) : bool :=
  (includes q "critical" || includes q "urgent") ||
  (includes q "database" || includes q "db") ||
  includes q "timeout" ||
  (includes q "new" || includes q "recent").

(** What [updatePatterns] keeps true of an entry of the pattern table. *)
Definition soundEntry (entry : PatternEntry) : Prop :=
  NoDup (p_servers entry) /\
  1 <= length (p_servers entry) /\
  length (p_servers entry) <= p_count entry /\
  p_lastSeen entry <> None.

(** How many of the calls inserted a record under the pattern key [key]. *)
Definition insertionsOf (key : string) (calls : list Call) : nat :=
  length (filter (fun fp => snd fp =? key) (inserted calls empty [])).

(** Two reports of one failure from one log file, then a third. *)
Definition oneSource : list Call :=
  [ callAt fiveHours "/var/log/a.log" "disk failure on volume 1" hour;
    callAt fiveHours "/var/log/a.log" "disk failure on volume 2" fiveHours;
    callAt fiveHours "/var/log/a.log" "Database timeout after 30 s" fiveHours ].

End StoreMoreTerms.

Module ApiTerms.

Import Store Server Api.
Local Open Scope list_scope.

(** The error frames among [events]. *)
Definition errorFrames (events : list Event) : nat :=
  length (filter (fun e => match e with ErrorFrame _ _ => true | _ => false end)
                 events).


Definition isWriteHead (op : Op) : bool :=
  match op with OWriteHead _ _ => true | _ => false end.


(** [this.agents.get(k)] *)
Fixpoint agentsGet (k : option Json) (m : Agents) : option AgentRecord :=
  match m with
  | [] => None
  | (k', r) :: t => if sameKey k' k then Some r else agentsGet k t
  end.

(** The counters [registerAgent] starts at 0, as a record of the registry
    holds them. *)
Definition counted (r : AgentRecord) : Z :=
  match member "errorCount" r with
  | Some (Data (JNum c)) => c
  | _ => 0%Z
  end.

Definition wellCounted (r : AgentRecord) : Prop :=
  (exists c, member "errorCount" r = Some (Data (JNum c)) /\ (0 <= c)%Z) /\
  member "successCount" r = Some (Data (JNum 0)) /\
  member "warningCount" r = Some (Data (JNum 0)).

(** The event is no stats frame that writes one of those counters. *)
Definition sparesCounters (e : Event) : Prop :=
  ServerTerms.carries "errorCount" e = false /\
  ServerTerms.carries "successCount" e = false /\
  ServerTerms.carries "warningCount" e = false.

Definition countedAll (agents : Agents) : Z :=
  fold_right (fun kr acc => (counted (snd kr) + acc)%Z) 0%Z agents.

(** The frames of [events] that [handleError] counts for the agent [id],
    and whether one of them registers [id] again. *)
Definition isErrorOf (id : string) (e : Event) : bool :=
  match e with
  | ErrorFrame k _ => sameKey k (Some (JStr id))
  | _ => false
  end.

Definition registers (id : string) (e : Event) : bool :=
  match e with
  | Register agentData _ _ => sameKey (member "serverId" agentData) (Some (JStr id))
  | _ => false
  end.

Definition webAgent : list (string * Json) :=
  [("serverId", JStr "web-01"); ("serverName", JStr "Web 01")].

(** A registered agent that sends an error, its statistics and an error
    of another server, and then loses its connection. *)
Definition traffic : list Event :=
  [ErrorFrame (Some (JStr "web-01")) "2024-01-15T10:30:46.000Z";
   StatsFrame (Some (JStr "web-01"))
     (Some (JObj [("errors", JNum 1); ("warnings", JNum 0); ("success", JNum 99);
                  ("totalLines", JNum 100)]))
     "2024-01-15T10:31:00.000Z";
   ErrorFrame (Some (JStr "db-01")) "2024-01-15T10:31:05.000Z";
   SocketClosed ServerTerms.plainSocket "2024-01-15T10:32:00.000Z"].



End ApiTerms.

Module TailerMoreTerms.

Import Tailer.
Local Open Scope nat_scope.
Local Open Scope list_scope.

Definition newline : ascii := "010"%char.

(** The file as successive polls find it while [chunks] are appended to
    [content], one per poll. *)
Fixpoint growth (content : list ascii) (chunks : list (list ascii)) : list File :=
  match chunks with
  | [] => []
  | c :: rest => Some (content ++ c) :: growth (content ++ c) rest
  end.

(** A chunk that ends with the end of a line. *)
Definition wholeLines (chunk : list ascii) : Prop :=
  exists body, chunk = body ++ [newline].

(** Bytes that are characters of their own: ASCII. *)
Definition plainBytes (l : list ascii) : Prop :=
  forallb (fun c => (code c <? 128)%nat) l = true.

Definition oneLine (l : list ascii) : Prop :=
  Forall (fun c => isChar newline c = false) l.

End TailerMoreTerms.

Module PipelineTerms.

Import Store Server Parser Pipeline.
Local Open Scope list_scope.

(** Whether [parse] throws on the line of an arrival. *)
Definition throws (env : Environment) (a : Arrival) : bool :=
  match parse env (line a) (logFile a) with
  | Throws _ => true
  | Returns _ => false
  end.

Definition isStatsMessage (f : Frame) : bool :=
  match f with
  | StatsMessage _ _ _ _ => true
  | ErrorMessage _ => false
  end.

(** The same arrival while the socket is open. *)
Definition whileOpen (a : Arrival) : Arrival :=
  {| line := line a; logFile := logFile a; fileSize := fileSize a;
     connected := true; process := process a |}.

(** A file name: not empty, no slash. *)
Definition plainName (name : string) : Prop :=
  name <> "" /\ Forall (fun ch => isChar "/" ch = false) (chars name).

(** The paths [discoverLogFiles] gives the type [syslog]. *)
Definition isSyslogPath (p : string) : bool :=
  (p =? "/var/log/syslog") || (p =? "/var/log/messages").

(** An environment whose line parsers all take the fall-back path of
    [parseGeneric]: the level is read off the content. *)
Definition fallbackEvent (l : string) (_ : LogFileSpec) : ParsedEvent :=
  {| ev_timestamp := 0; ev_level := detectLevelFromContent l;
     ev_message := JStr (trim l); ev_originalLine := l;
     ev_parser := "fallback"; ev_metadata := [];
     ev_semantics := None; ev_urgency := None |}.

Definition fallbackEnvironment : Environment :=
  {| JSON_parse := ParserTerms.stubParse;
     dateValue := fun _ => None;
     toText := fun _ => "";
     clock := 0;
     currentYear := "2025";
     parseGeneric := fallbackEvent; parseNginx := fallbackEvent;
     parseApache := fallbackEvent; parseSyslog := fallbackEvent;
     isSyslogFormat := fun _ => false |}.

Definition arrive (l : string) : Arrival :=
  {| line := l; logFile := ParserTerms.autoFile; fileSize := Some 4096%nat;
     connected := true; process := JNull |}.

Definition fiveLines : list Arrival :=
  [arrive "disk failure"; arrive "started"; arrive "retry in 5 s";
   arrive "connection refused"; arrive "done"].

(** The same arrival while the socket is closed. *)
Definition whileClosed (a : Arrival) : Arrival :=
  {| line := line a; logFile := logFile a; fileSize := fileSize a;
     connected := false; process := process a |}.

Definition countStats (frames : list Frame) : nat :=
  length (filter isStatsMessage frames).

(** What [parse] makes of the first of them. *)
Definition failureEvent : ParsedEvent :=
  match parse fallbackEnvironment "disk failure" ParserTerms.autoFile with
  | Returns parsed => parsed
  | Throws _ => fallbackEvent "" ParserTerms.autoFile
  end.

Definition everySecond : Settings :=
  {| cfg_serverId := Some "web-01"; cfg_serverName := None;
     cfg_statsInterval := Some 2%nat |}.

End PipelineTerms.

Module FormatsTerms.

Import Store Parser Pipeline Formats.
Local Open Scope list_scope.

(** [parse] hands the line to [parseJSON]. *)
Definition usesJSON (line : string) (f : LogFileSpec) : bool :=
  match type f with
  | json => true
  | auto => startsWith (chars "{") (chars (trim line))
  | _ => false
  end.

(** A message that [(.+)] takes whole and [trim] leaves as it is, after a
    separator that ends before it. *)
Definition plainMessage (m : string) : Prop :=
  (exists c t, chars m = c :: t /\ isSeparator c = false) /\
  Forall (fun c => notLineTerminator c = true) (chars m) /\
  trim m = m.

(** Text made of characters of one class, at least one. *)
Definition madeOf (p : ascii -> bool) (s : string) : Prop :=
  s <> "" /\ Forall (fun c => p c = true) (chars s).

(** A time stamp as nginx writes it: [2025/08/01 10:30:15]. *)
Definition nginxStamp (stamp : string) : Prop :=
  matchClasses
    [isDigit; isDigit; isDigit; isDigit; isChar "/"; isDigit; isDigit;
     isChar "/"; isDigit; isDigit; isChar " ";
     isDigit; isDigit; isChar ":"; isDigit; isDigit; isChar ":";
     isDigit; isDigit] (chars stamp) = true /\
  length (chars stamp) = 19%nat.

(** The line nginx writes for an error on a connection. *)
Definition nginxErrorLine (stamp word pid tid cid m : string) : string :=
  stamp ++ " [" ++ word ++ "] " ++ pid ++ "#" ++ tid ++ ": *" ++ cid ++ " " ++ m.

Definition nginxFile : LogFileSpec :=
  {| path := "/var/log/nginx/error.log"; type := nginx |}.

End FormatsTerms.

(** * Properties *)

(** ** The memory store *)

Module StoreFacts.

Import Store.
Local Open Scope list_scope.
Import StoreTerms.

Lemma similar_fingerprint sid file msg e :
  similar sid file msg e = true <->
  fingerprint e = (sid, file, normalizeMessage msg).
Proof.
  unfold similar, fingerprint.
  rewrite !andb_true_iff, !String.eqb_eq.
  split.
  - intros [[-> ->] ->]. reflexivity.
  - intros H. inversion H. auto.
Qed.

Lemma fingerprint_bump e t : fingerprint (bump e t) = fingerprint e.
Proof. reflexivity. Qed.

Lemma fingerprint_withTrend e t : fingerprint (withTrend e t) = fingerprint e.
Proof. reflexivity. Qed.

Lemma similar_bump sid file msg e t :
  similar sid file msg (bump e t) = similar sid file msg e.
Proof. reflexivity. Qed.

Lemma similar_withTrend sid file msg e t :
  similar sid file msg (withTrend e t) = similar sid file msg e.
Proof. reflexivity. Qed.

(** [find] splits the array at the element it returns. *)
Lemma find_split {A} (test : A -> bool) xs x :
  find test xs = Some x ->
  exists before after,
    xs = before ++ x :: after /\
    test x = true /\
    Forall (fun y => test y = false) before.
Proof.
  induction xs as [|y t IH]; simpl; [discriminate|].
  destruct (test y) eqn:Hy.
  - intros [= ->]. exists [], t. auto.
  - intros H. destruct (IH H) as (b & a & -> & Hx & Hb).
    exists (y :: b), a. auto.
Qed.

Lemma writeFirst_split {A} (test : A -> bool) before x after x' :
  Forall (fun y => test y = false) before ->
  test x = true ->
  writeFirst test x' (before ++ x :: after) = before ++ x' :: after.
Proof.
  intros Hb Hx. induction Hb as [|y b Hy _ IH]; simpl.
  - now rewrite Hx.
  - now rewrite Hy, IH.
Qed.

Lemma find_none_forall {A} (test : A -> bool) xs :
  find test xs = None -> Forall (fun y => test y = false) xs.
Proof.
  induction xs as [|y t IH]; simpl; [constructor|].
  destruct (test y) eqn:Hy; [discriminate|]. auto.
Qed.

(** The duplicate branch, spelled out: the record found is rewritten where
    it stands and nothing else of the store changes. *)
Lemma addError_merge s c existing :
  findSimilarError s (error c) = Some existing ->
  exists before after merged,
    errors s = before ++ existing :: after /\
    Forall (fun y => similar (in_serverId (error c)) (in_logFile (error c))
                             (in_errorMessage (error c)) y = false) before /\
    addError s c =
      ({| errors := before ++ merged :: after; insights := insights s;
          maxErrors := maxErrors s; patterns := patterns s |}, merged) /\
    merged = withTrend
      (bump existing (match in_timestamp (error c) with
                      | Some t => t | None => At (stamp c) end))
      (trend merged).
Proof.
  intros Hfind. unfold addError. rewrite Hfind.
  unfold findSimilarError in Hfind.
  destruct (find_split _ _ Hfind) as (before & after & Herr & Hx & Hb).
  set (ts := match in_timestamp (error c) with Some t => t | None => At (stamp c) end).
  set (test := similar _ _ _) in *.
  exists before, after.
  eexists. split; [exact Herr|]. split; [exact Hb|].
  unfold withErrors; simpl. rewrite Herr.
  rewrite writeFirst_split by assumption.
  rewrite writeFirst_split by (assumption || exact Hx).
  split; reflexivity.
Qed.

Lemma addError_insert s c :
  findSimilarError s (error c) = None ->
  addError s c =
    (updatePatterns
       (withErrors s (firstn (maxErrors s) (freshRecord c :: errors s)))
       (now c) (freshRecord c),
     freshRecord c).
Proof.
  intros Hfind. unfold addError. rewrite Hfind.
  fold (freshRecord c).
  destruct (maxErrors s <? length (freshRecord c :: errors s))%nat eqn:Hlt.
  - reflexivity.
  - apply Nat.ltb_ge in Hlt. now rewrite firstn_all2.
Qed.

Lemma errors_updatePatterns s t e : errors (updatePatterns s t e) = errors s.
Proof. reflexivity. Qed.

Lemma maxErrors_addError s c : maxErrors (fst (addError s c)) = maxErrors s.
Proof.
  destruct (findSimilarError s (error c)) as [existing|] eqn:Hfind.
  - destruct (addError_merge s c Hfind) as (b & a & m & _ & _ & -> & _). reflexivity.
  - rewrite (addError_insert s c Hfind). reflexivity.
Qed.

Lemma maxErrors_run calls s : maxErrors (run calls s) = maxErrors s.
Proof.
  revert s. induction calls as [|c t IH]; intros s; simpl; [reflexivity|].
  unfold run in *. simpl. rewrite IH. apply maxErrors_addError.
Qed.

Lemma NoDup_firstn {A} n (l : list A) : NoDup l -> NoDup (firstn n l).
Proof.
  intros H. revert n. induction H as [|x l Hx _ IH]; intros [|n]; simpl;
    try constructor; auto.
  intros Hin. apply Hx. rewrite <- (firstn_skipn n l). apply in_or_app. now left.
Qed.

Lemma addError_keeps_unique s c :
  NoDup (map fingerprint (errors s)) ->
  NoDup (map fingerprint (errors (fst (addError s c)))).
Proof.
  intros Hnd.
  destruct (findSimilarError s (error c)) as [existing|] eqn:Hfind.
  - destruct (addError_merge s c Hfind) as (b & a & m & Herr & _ & -> & Hm).
    simpl. rewrite Herr in Hnd.
    replace (map fingerprint (b ++ m :: a))
      with (map fingerprint (b ++ existing :: a)); [exact Hnd|].
    rewrite !map_app. simpl. now rewrite Hm, fingerprint_withTrend, fingerprint_bump.
  - rewrite (addError_insert s c Hfind). cbn [fst snd].
    rewrite errors_updatePatterns. simpl errors.
    rewrite <- firstn_map. apply NoDup_firstn. simpl. constructor; [|exact Hnd].
    intros Hin. apply in_map_iff in Hin. destruct Hin as (y & Hy & Hin).
    apply find_none_forall in Hfind. rewrite Forall_forall in Hfind.
    specialize (Hfind y Hin).
    assert (similar (in_serverId (error c)) (in_logFile (error c))
                    (in_errorMessage (error c)) y = true) as Ht
      by (apply similar_fingerprint; exact Hy).
    congruence.
Qed.

Lemma firstn_cons_firstn {A} n (x : A) l :
  firstn n (x :: firstn n l) = firstn n (x :: l).
Proof.
  destruct n as [|n]; [reflexivity|].
  rewrite !firstn_cons, firstn_firstn. f_equal. f_equal. lia.
Qed.

Lemma addError_keeps_newest s c acc :
  map fingerprint (errors s) = firstn (maxErrors s) acc ->
  map fingerprint (errors (fst (addError s c))) =
  firstn (maxErrors s)
    (match findSimilarError s (error c) with
     | None => callFingerprint c :: acc
     | Some _ => acc
     end).
Proof.
  intros Hacc.
  destruct (findSimilarError s (error c)) as [existing|] eqn:Hfind.
  - destruct (addError_merge s c Hfind) as (b & a & m & Herr & _ & -> & Hm).
    simpl. rewrite <- Hacc, Herr, !map_app. simpl.
    now rewrite Hm, fingerprint_withTrend, fingerprint_bump.
  - rewrite (addError_insert s c Hfind). cbn [fst snd].
    rewrite errors_updatePatterns. simpl errors.
    rewrite <- firstn_map. simpl map. rewrite Hacc.
    fold (callFingerprint c). apply firstn_cons_firstn.
Qed.

Lemma run_keeps_newest calls s acc :
  map fingerprint (errors s) = firstn (maxErrors s) acc ->
  map fingerprint (errors (run calls s)) =
  firstn (maxErrors s) (inserted calls s acc).
Proof.
  revert s acc. induction calls as [|c t IH]; intros s acc Hacc; simpl.
  - exact Hacc.
  - unfold run in *. simpl.
    rewrite <- (maxErrors_addError s c).
    apply IH. rewrite maxErrors_addError. now apply addError_keeps_newest.
Qed.

Lemma run_snoc calls c s : run (calls ++ [c]) s = fst (addError (run calls s) c).
Proof. unfold run. now rewrite fold_left_app. Qed.

(** *** Uniqueness of fingerprints *)

(** C3. After any finite sequence of [addError] calls on an empty store, no
    two stored records have the same fingerprint
    (serverId, logFile, normalizeMessage(errorMessage)). *)
Theorem fingerprint_uniqueness (calls : list Call) :
  NoDup (map fingerprint (errors (run calls empty))).
Proof.
  induction calls as [|c t IH] using rev_ind.
  - constructor.
  - rewrite run_snoc. now apply addError_keeps_unique.
Qed.

(** *** Bounded storage *)

(** C4. After every [addError] call on a store grown from the empty one
    the list holds at most [maxErrors] = 1000 records; an insertion puts
    the new record in front and keeps the first 1000, so what it drops is
    the tail of the list; and the list is always the 1000 most recently
    inserted keys, newest first: the records dropped are the oldest by
    insertion order. *)
Theorem bounded_storage (calls : list Call) (c : Call) :
  let s := run calls empty in
  let s' := fst (addError s c) in
  maxErrors s' = 1000 /\
  length (errors s') <= maxErrors s' /\
  (findSimilarError s (error c) = None ->
   exists dropped,
     snd (addError s c) :: errors s = errors s' ++ dropped /\
     length dropped = S (length (errors s)) - 1000) /\
  (forall existing, findSimilarError s (error c) = Some existing ->
     length (errors s') = length (errors s)) /\
  map fingerprint (errors s') = firstn 1000 (inserted (calls ++ [c]) empty []).
Proof.
  intros s s'.
  assert (Hmax : maxErrors s = 1000) by (unfold s; now rewrite maxErrors_run).
  assert (Hmax' : maxErrors s' = 1000) by (unfold s'; now rewrite maxErrors_addError).
  assert (Hkeys : map fingerprint (errors s') =
                  firstn 1000 (inserted (calls ++ [c]) empty [])).
  { unfold s', s. rewrite <- run_snoc.
    apply (run_keeps_newest (calls ++ [c]) empty []). reflexivity. }
  split; [exact Hmax'|]. split; [|split; [|split]].
  - rewrite <- (length_map fingerprint), Hkeys, Hmax'. apply firstn_le_length.
  - intros Hfind. unfold s'. rewrite (addError_insert s c Hfind).
    cbn [fst snd]. rewrite errors_updatePatterns. simpl errors. rewrite Hmax.
    exists (skipn 1000 (freshRecord c :: errors s)). split.
    + now rewrite firstn_skipn.
    + rewrite length_skipn. reflexivity.
  - intros existing Hfind. unfold s'.
    destruct (addError_merge s c Hfind) as (b & a & m & Herr & _ & -> & _).
    simpl. rewrite Herr, !length_app. reflexivity.
  - exact Hkeys.
Qed.

(** *** The duplicate branch *)

(** C10. When the incoming error matches a stored record, [addError]
    rewrites that record where it stands: the list keeps its members and
    their order, and the record keeps every property other than [count],
    [lastSeen] and [trend]. *)
Theorem merge_frame (s : MemoryStore) (c : Call) (existing : StoredError)
    (Hfind : findSimilarError s (error c) = Some existing) :
  exists before after merged,
    errors s = before ++ existing :: after /\
    Forall (fun y => similar (in_serverId (error c)) (in_logFile (error c))
                             (in_errorMessage (error c)) y = false) before /\
    errors (fst (addError s c)) = before ++ merged :: after /\
    snd (addError s c) = merged /\
    id merged = id existing /\
    firstSeen merged = firstSeen existing /\
    timestamp merged = timestamp existing /\
    errorMessage merged = errorMessage existing /\
    category merged = category existing /\
    severity merged = severity existing /\
    serverId merged = serverId existing /\
    serverName merged = serverName existing /\
    server merged = server existing /\
    logFile merged = logFile existing /\
    lineNumber merged = lineNumber existing /\
    parser merged = parser existing /\
    urgency merged = urgency existing /\
    semantics merged = semantics existing /\
    count merged = count existing + 1.
Proof.
  destruct (addError_merge s c Hfind) as (b & a & m & Herr & Hb & Hadd & Hm).
  exists b, a, m. rewrite Hadd. simpl.
  split; [exact Herr|]. split; [exact Hb|].
  rewrite Hm. simpl. repeat split; reflexivity.
Qed.

(** *** Insights *)

(** C1, as the code has it.  [addError] derives the insight list again only
    when it inserts a record (through [updatePatterns]); when it merges
    into a stored record the insight list is left as it was. *)
Theorem insights_rederived_on_insert (s : MemoryStore) (c : Call) :
  let s' := fst (addError s c) in
  match findSimilarError s (error c) with
  | None => insights s' = deriveInsights s' (now c)
  | Some _ => insights s' = insights s
  end.
Proof.
  intros s'. unfold s'.
  destruct (findSimilarError s (error c)) as [existing|] eqn:Hfind.
  - destruct (addError_merge s c Hfind) as (b & a & m & _ & _ & -> & _). reflexivity.
  - rewrite (addError_insert s c Hfind). reflexivity.
Qed.

Lemma merge_frame_witness :
  findSimilarError (run elevenFiles empty) (error again) = Some firstReport /\
  exists before after merged,
    errors (run elevenFiles empty) = before ++ firstReport :: after /\
    errors (fst (addError (run elevenFiles empty) again)) = before ++ merged :: after /\
    id merged = id firstReport /\
    errorMessage merged = "disk failure on volume 1" /\
    count merged = 2.
Proof.
  assert (Hfind : findSimilarError (run elevenFiles empty) (error again) = Some firstReport)
    by (vm_compute; reflexivity).
  split; [exact Hfind|].
  destruct (merge_frame (run elevenFiles empty) again Hfind)
    as (b & a & m & H1 & _ & H2 & _ & H3 & _ & _ & H4 & _ & _ & _ & _ & _ & _ & _ & _ & _ & _ & H5).
  exists b, a, m. repeat split; assumption.
Defined.

(** C1 fails on the duplicate branch: the merge moves the record's
    [lastSeen] into the last hour, which makes eleven recent errors and
    would yield a spike insight, but the insight list stays empty. *)
Example insights_stale_after_merge :
  let s := run elevenFiles empty in
  let s' := fst (addError s again) in
  findSimilarError s (error again) <> None /\
  insights s' = [] /\
  deriveInsights s' (now again) =
    [ {| i_type := anomaly;
         i_title := "Spike in File System errors";
         i_description := ShareOfRecent 11 11;
         i_confidence := 85;
         i_pattern := None |} ] /\
  insights s' <> deriveInsights s' (now again).
Proof.
  vm_compute. repeat split; discriminate.
Qed.

(** *** Search *)

(** C7, the part that holds: an empty query returns the first fifty
    records. *)
Lemma search_empty_query (s : MemoryStore) :
  search s "" = Returns (firstn 50 (errors s)).
Proof. reflexivity. Qed.

(** C7 at a failing input.  The store holds one record, sent by the agent
    [web-01] whose [serverName] is [Web 01]; the query [web] has no cue
    word and is part of that name, yet [search] ends in a [TypeError]: the
    fall-back reads the property [server], which the frame does not
    have. *)
Example search_by_server_name_throws :
  let s := run [callAt fiveHours "/var/log/a.log" "disk failure on volume 1" fiveHours] empty in
  cueFilters (toLowerCase "web") = [] /\
  map serverName (errors s) = ["Web 01"] /\
  includes (toLowerCase "Web 01") (toLowerCase "web") = true /\
  search s "web" =
    Throws "Cannot read properties of undefined (reading 'toLowerCase')".
Proof.
  vm_compute. repeat split.
Qed.

(** More generally, a query without cue word throws as soon as it is not
    part of the message of some record sent without [server]. *)
Lemma search_fallback_throws (s : MemoryStore) (q : string) before e after :
  q <> "" ->
  cueFilters (toLowerCase q) = [] ->
  errors s = before ++ e :: after ->
  Forall (fun x => includes (toLowerCase (errorMessage x)) (toLowerCase q) = true) before ->
  includes (toLowerCase (errorMessage e)) (toLowerCase q) = false ->
  server e = None ->
  search s q =
    Throws "Cannot read properties of undefined (reading 'toLowerCase')".
Proof.
  intros Hq Hcue Herr Hb He Hs. unfold search.
  apply String.eqb_neq in Hq. rewrite Hq, Hcue. simpl.
  rewrite Nat.eqb_refl. simpl.
  rewrite Herr. clear Herr.
  induction Hb as [|x b Hx _ IH]; simpl.
  - unfold textFilter at 1. rewrite He. unfold serverLower. rewrite Hs. reflexivity.
  - unfold textFilter at 1. rewrite Hx. simpl.
    destruct (filterO _ (b ++ e :: after)); [discriminate IH|].
    simpl in *. exact IH.
Qed.

End StoreFacts.

(** ** The file tailer *)

Module TailerFacts.

Import Tailer.
Local Open Scope nat_scope.
Local Open Scope list_scope.
Import TailerTerms.

(** Once the file is longer than the cursor, what lies between the cursor
    and the end is delivered. *)
Lemma grown_file_is_read (t : FileTailer) (content : list ascii) :
  position t < length content ->
  readNewLines t (Some content) =
    ({| position := length content; running := running t;
        watching := watching t; retryPending := retryPending t |},
     linesOf (skipn (position t) content)).
Proof.
  intros H. unfold readNewLines. apply Nat.leb_gt in H. now rewrite H.
Qed.

(** C5, as the code has it.  A file that is not longer than the stored
    cursor, as after a truncation, yields no line and leaves the cursor
    where it was: there is no reset to 0.  The next lines are delivered
    when the file has grown past that cursor, and they are read from the
    cursor on, not from the beginning of the file. *)
Theorem shrunk_file_is_ignored (t : FileTailer) (content : list ascii) (prevSize : nat)
    (Hshrunk : length content <= position t) :
  readNewLines t (Some content) = (t, []) /\
  onChange t prevSize (Some content) = (t, []) /\
  forall grown,
    position t < length grown ->
    polls t prevSize [Some content; Some grown] =
      ({| position := length grown; running := running t;
          watching := watching t; retryPending := retryPending t |},
       linesOf (skipn (position t) grown)).
Proof.
  assert (H : readNewLines t (Some content) = (t, [])).
  { unfold readNewLines. apply Nat.leb_le in Hshrunk. now rewrite Hshrunk. }
  assert (H' : onChange t prevSize (Some content) = (t, [])).
  { unfold onChange. destruct (prevSize <? size (Some content)); [exact H|reflexivity]. }
  split; [exact H|]. split; [exact H'|].
  intros grown Hgrown. cbn [polls]. rewrite H'.
  unfold onChange. cbn [size].
  assert (Hlt : (length content <? length grown) = true) by (apply Nat.ltb_lt; lia).
  rewrite Hlt, (grown_file_is_read t grown Hgrown). cbn. now rewrite app_nil_r.
Qed.

Lemma shrunk_file_is_ignored_witness :
  length newContent <= position tailing /\
  readNewLines tailing (Some newContent) = (tailing, []) /\
  onChange tailing 0 (Some newContent) = (tailing, []) /\
  polls tailing 0 [Some newContent; Some (oldContent ++ newContent)] =
    ({| position := 22; running := true; watching := true; retryPending := false |},
     ["ERROR: x"%string]).
Proof.
  assert (H : length newContent <= position tailing) by (vm_compute; lia).
  split; [exact H|].
  destruct (shrunk_file_is_ignored tailing newContent 0 H) as (H1 & H2 & H3).
  split; [exact H1|]. split; [exact H2|].
  rewrite (H3 (oldContent ++ newContent)); [reflexivity|vm_compute; lia].
Defined.

(** C5 fails on its own scenario: the file is truncated to size 0 (first
    poll), then the line is appended (second poll).  Nothing is delivered
    and the cursor stays at 13. *)
Example rotation_delivers_nothing :
  let result := polls tailing (length oldContent) [Some []; Some newContent] in
  running tailing = true /\
  linesOf newContent = ["ERROR: x"%string] /\
  snd result = [] /\
  snd result <> ["ERROR: x"%string] /\
  position (fst result) = 13 /\
  position (fst result) <> 0.
Proof.
  vm_compute. repeat split; discriminate.
Qed.

End TailerFacts.

(** ** Reconnection *)

Module AgentFacts.

Import Agent.
Local Open Scope Z_scope.
Import AgentTerms.

Lemma onClose_keeps a :
  config (fst (onClose a)) = config a /\ running (fst (onClose a)) = running a.
Proof.
  unfold onClose, scheduleReconnect.
  destruct (running a) eqn:E; [|split; [reflexivity|exact E]].
  destruct (_ && _); split; simpl; auto.
Qed.

Lemma config_closes n a : config (closes n a) = config a.
Proof.
  induction n as [|n IH]; simpl; [reflexivity|].
  now rewrite (proj1 (onClose_keeps _)).
Qed.

Lemma running_closes n a : running (closes n a) = running a.
Proof.
  induction n as [|n IH]; simpl; [reflexivity|].
  now rewrite (proj2 (onClose_keeps _)).
Qed.

(** The counter after [n] closes: it counts them until it reaches a
    positive maximum. *)
Lemma attempts_closes n a :
  running a = true ->
  reconnectAttempts a = 0 ->
  reconnectAttempts (closes n a) =
    if 0 <? maxReconnectAttempts (config a)
    then Z.min (Z.of_nat n) (maxReconnectAttempts (config a))
    else Z.of_nat n.
Proof.
  intros Hrun H0. induction n as [|n IH].
  - simpl. rewrite H0. destruct (0 <? _) eqn:E; [|reflexivity].
    apply Z.ltb_lt in E. lia.
  - cbn [closes]. unfold onClose, scheduleReconnect.
    rewrite running_closes, Hrun, config_closes, IH.
    destruct (0 <? maxReconnectAttempts (config a)) eqn:E; cbn [andb].
    + apply Z.ltb_lt in E.
      destruct (_ <=? _) eqn:E2; cbn [fst reconnectAttempts].
      * apply Z.leb_le in E2. lia.
      * apply Z.leb_gt in E2. lia.
    + cbn [fst reconnectAttempts]. lia.
Qed.

(** C6, as the code has it.  On a running agent whose delay setting is a
    positive number of milliseconds: the counter is 0 after an open; the
    close number [k + 1] after it schedules a reconnect after
    [min(reconnectDelay * 2^k, 60000)] ms, as long as the maximum is not
    positive or not yet reached; and once [k] has reached a positive
    maximum no reconnect is scheduled.  A maximum of 0, like a negative
    one, never stops the reconnects. *)
Theorem reconnect_backoff (a : LogScopeAgent) (k : nat)
    (Hrun : running a = true)
    (Hdelay : 0 < reconnectDelay (config a)) :
  let maxAttempts := maxReconnectAttempts (config a) in
  reconnectAttempts (onOpen a) = 0 /\
  (maxAttempts <= 0 \/ Z.of_nat k < maxAttempts ->
   snd (onClose (closes k (onOpen a))) =
     Some (Z.min (reconnectDelay (config a) * 2 ^ Z.of_nat k) 60000)) /\
  (0 < maxAttempts /\ maxAttempts <= Z.of_nat k ->
   onClose (closes k (onOpen a)) = (closes k (onOpen a), None)).
Proof.
  intros maxAttempts.
  assert (Hatt := attempts_closes k (onOpen a) Hrun eq_refl).
  change (config (onOpen a)) with (config a) in Hatt. fold maxAttempts in Hatt.
  split; [reflexivity|]. split.
  - intros Hmax. unfold onClose, scheduleReconnect.
    rewrite running_closes, config_closes. cbn [running onOpen config].
    rewrite Hrun, Hatt. fold maxAttempts.
    destruct (0 <? maxAttempts) eqn:E; cbn [andb].
    + apply Z.ltb_lt in E.
      destruct (_ <=? _) eqn:E2; [apply Z.leb_le in E2; lia|].
      apply Z.leb_gt in E2. cbn [snd].
      replace (Z.min (Z.of_nat k) maxAttempts + 1 - 1) with (Z.of_nat k) by lia.
      reflexivity.
    + cbn [snd].
      replace (Z.of_nat k + 1 - 1) with (Z.of_nat k) by lia.
      reflexivity.
  - intros [Hpos Hreached]. unfold onClose, scheduleReconnect.
    rewrite running_closes, config_closes. cbn [running onOpen config].
    rewrite Hrun, Hatt. fold maxAttempts.
    apply Z.ltb_lt in Hpos. rewrite Hpos. cbn [andb].
    apply Z.ltb_lt in Hpos.
    destruct (_ <=? _) eqn:E2; [reflexivity|apply Z.leb_gt in E2; lia].
Qed.

Lemma reconnect_backoff_witness :
  running upToThree = true /\
  0 < reconnectDelay (config upToThree) /\
  snd (onClose (closes 2 (onOpen upToThree))) = Some 20000 /\
  snd (onClose (closes 2 (onOpen zeroMax))) = Some 20000 /\
  snd (onClose (closes 3 (onOpen upToThree))) = None.
Proof.
  split; [reflexivity|]. split; [reflexivity|].
  destruct (reconnect_backoff upToThree 2 eq_refl eq_refl) as (_ & H2 & _).
  destruct (reconnect_backoff zeroMax 2 eq_refl eq_refl) as (_ & Hz & _).
  destruct (reconnect_backoff upToThree 3 eq_refl eq_refl) as (_ & _ & H3).
  split; [apply H2; right; reflexivity|].
  split; [apply Hz; left; cbv; discriminate|].
  rewrite H3; [reflexivity|]. split; [reflexivity|cbv; discriminate].
Defined.

(** C6 fails for a maximum of 0: the counter has reached it from the
    start, and still every close schedules a reconnect. *)
Example zero_maximum_never_stops :
  maxReconnectAttempts (config zeroMax) = 0 /\
  reconnectAttempts (onOpen zeroMax) = 0 /\
  snd (onClose (onOpen zeroMax)) = Some 5000 /\
  snd (onClose (onOpen zeroMax)) <> None /\
  snd (onClose (closes 7 (onOpen zeroMax))) = Some 60000.
Proof.
  vm_compute. repeat split; discriminate.
Qed.

End AgentFacts.

(** ** The agent registry *)

Module ServerFacts.

Import Server.
Local Open Scope list_scope.
Import ServerTerms.

Lemma member_assign {V} k (v : V) o : member k (assign k v o) = Some v.
Proof.
  induction o as [|[k' v'] t IH]; simpl.
  - now rewrite String.eqb_refl.
  - destruct (k' =? k) eqn:E; simpl; now rewrite E.
Qed.

Lemma member_assign_other {V} k k' (v : V) o :
  k' <> k -> member k (assign k' v o) = member k o.
Proof.
  intros Hne. induction o as [|[k0 v0] t IH]; simpl.
  - destruct (k' =? k) eqn:E; [apply String.eqb_eq in E; congruence|reflexivity].
  - destruct (k0 =? k') eqn:E0; simpl.
    + apply String.eqb_eq in E0. subst k0.
      destruct (k' =? k) eqn:E; [apply String.eqb_eq in E; congruence|reflexivity].
    + destruct (k0 =? k); [reflexivity|exact IH].
Qed.

(** Every record of the registry holds a socket under [ws]: registration
    puts it there and no later write touches that key. *)
Lemma agentsSet_holds k r m :
  Forall holdsSocket (map snd m) -> holdsSocket r ->
  Forall holdsSocket (map snd (agentsSet k r m)).
Proof.
  intros Hm Hr. induction m as [|[k' r'] t IH]; simpl.
  - constructor; [exact Hr|constructor].
  - inversion Hm as [|x l Hx Hl]; subst.
    destruct (sameKey k' k); simpl; constructor; auto.
Qed.

Lemma agentsWrite_holds k f m :
  (forall r, holdsSocket r -> holdsSocket (f r)) ->
  Forall holdsSocket (map snd m) ->
  Forall holdsSocket (map snd (agentsWrite k f m)).
Proof.
  intros Hf Hm. induction m as [|[k' r'] t IH]; simpl; [constructor|].
  inversion Hm as [|x l Hx Hl]; subst.
  destruct (sameKey k' k); simpl; constructor; auto.
Qed.

Lemma assign_holds k (v : Value) r :
  k <> "ws" -> holdsSocket r -> holdsSocket (assign k v r).
Proof.
  intros Hk (ws & Hws). exists ws. now rewrite member_assign_other.
Qed.

Lemma onSocketClose_holds m ws nowIso :
  Forall holdsSocket (map snd m) ->
  Forall holdsSocket (map snd (onSocketClose m ws nowIso)).
Proof.
  intros Hm. induction m as [|[k' r'] t IH]; simpl; [constructor|].
  inversion Hm as [|x l Hx Hl]; subst.
  destruct (holds ws r'); simpl; constructor; auto. repeat apply assign_holds; (discriminate || assumption).
Qed.

Lemma member_insertIndex_other i k k' (v : Value) o :
  k' <> k -> member k (insertIndex i k' v o) = member k o.
Proof.
  intros Hne.
  assert (Hk : (k' =? k) = false) by now apply String.eqb_neq.
  induction o as [|[k0 v0] t IH]; cbn [insertIndex member].
  - now rewrite Hk.
  - destruct (arrayIndex k0) as [j|].
    + destruct (j <? i)%N; cbn [member]; [now rewrite IH|now rewrite Hk].
    + cbn [member]. now rewrite Hk.
Qed.

Lemma member_setProperty_other k k' (v : Value) o :
  k' <> k -> member k (setProperty k' v o) = member k o.
Proof.
  intros Hne. unfold setProperty.
  destruct (member k' o); [now apply member_assign_other|].
  destruct (k' =? "__proto__"); [reflexivity|].
  destruct (arrayIndex k');
    [now apply member_insertIndex_other|now apply member_assign_other].
Qed.

(** [Object.assign] leaves alone the properties its source does not have. *)
Lemma member_objectAssign_other k source : forall agent,
  existsb (String.eqb k) (map fst (ownMembers source)) = false ->
  member k (objectAssign agent source) = member k agent.
Proof.
  unfold objectAssign. induction (ownMembers source) as [|[k' j] t IH];
    intros agent Hk; cbn [fold_left]; [reflexivity|].
  cbn [map fst existsb] in Hk. apply orb_false_iff in Hk as [Hne Hk].
  rewrite IH by exact Hk. apply member_setProperty_other.
  apply String.eqb_neq in Hne. cbn [fst]. intros E. apply Hne. now symmetry.
Qed.

Lemma step_holds m e :
  carries "ws" e = false ->
  Forall holdsSocket (map snd m) -> Forall holdsSocket (map snd (step m e)).
Proof.
  intros He Hm.
  destruct e as [agentData ws nowIso|k nowIso|k stats nowIso|ws nowIso]; simpl.
  - apply agentsSet_holds; [exact Hm|]. exists ws. apply member_assign.
  - apply agentsWrite_holds; [|exact Hm]. intros r Hr. repeat apply assign_holds; (discriminate || assumption).
  - apply agentsWrite_holds; [|exact Hm]. intros r (ws & Hws).
    apply assign_holds; [discriminate|]. exists ws.
    now rewrite member_objectAssign_other.
  - now apply onSocketClose_holds.
Qed.

Lemma after_holds events :
  Forall (fun e => carries "ws" e = false) events ->
  Forall holdsSocket (map snd (after events)).
Proof.
  unfold after. induction events as [|e t IH] using rev_ind; intros Hall;
    [constructor|].
  apply Forall_app in Hall as [Ht He]. inversion He as [|x l Hx _]; subst.
  rewrite fold_left_app. simpl. apply step_holds; [exact Hx|now apply IH].
Qed.

(** The socket of a record is serialised under the record's key [ws]. *)
Lemma stringifyRecord_socket r o ws :
  stringifyRecord r = Returns o ->
  member "ws" r = Some (Handle ws) ->
  exists image, socketJson ws = Some image /\ member "ws" o = Some image.
Proof.
  revert o. induction r as [|[k v] t IH]; intros o Hs Hm; [discriminate|].
  simpl in Hs, Hm.
  destruct (k =? "ws") eqn:Ek.
  - injection Hm as ->.
    destruct (socketJson ws) as [image|]; [|discriminate].
    destruct (stringifyRecord t) as [t'|]; [|discriminate].
    simpl in Hs. injection Hs as <-. exists image. simpl. now rewrite Ek.
  - destruct v as [|j|ws'].
    + now apply IH.
    + destruct (stringifyRecord t) as [t'|]; [|discriminate].
      simpl in Hs. injection Hs as <-. simpl. rewrite Ek. now apply IH.
    + destruct (socketJson ws') as [image'|]; [|discriminate].
      destruct (stringifyRecord t) as [t'|]; [|discriminate].
      simpl in Hs. injection Hs as <-. simpl. rewrite Ek. now apply IH.
Qed.

Lemma stringifyAll_sockets rs :
  forall records,
  Forall holdsSocket rs ->
  stringifyAll rs = Returns records ->
  Forall2 serialisedWithSocket rs records.
Proof.
  induction rs as [|r t IH]; intros records Hrs Hall; simpl in Hall.
  - injection Hall as <-. constructor.
  - inversion Hrs as [|x l (ws & Hws) Hl]; subst.
    destruct (stringifyRecord r) as [o|] eqn:Ho; [|discriminate].
    destruct (stringifyAll t) as [t'|] eqn:Ht; [|discriminate].
    simpl in Hall. injection Hall as <-.
    constructor; [|now apply IH].
    destruct (stringifyRecord_socket r Ho Hws) as (image & Hi & Hm).
    exists ws, image, o. auto.
Qed.

(** C8, as the code has it.  Whatever register and error frames and
    closes the server has seen, and whatever stats frames whose [stats]
    has no member [ws]: whenever every record serialises,
    [GET /api/servers] answers 200 with the array of all records of the
    agent map, in order, and each of them carries the transport handle its
    record holds, serialised under the key [ws]. *)
Theorem servers_response_holds_sockets (events : list Event) (records : list Json)
    (Hkept : Forall (fun e => carries "ws" e = false) events)
    (Hserialises : stringifyAll (map snd (after events)) = Returns records) :
  apiServers (after events) =
    ([SetHeader "Content-Type" "application/json"; WriteHead 200;
      End (JArr records)], None) /\
  Forall2 serialisedWithSocket (map snd (after events)) records.
Proof.
  split.
  - unfold apiServers. now rewrite Hserialises.
  - apply stringifyAll_sockets; [now apply after_holds|exact Hserialises].
Qed.

(** With no agent registered the answer is the empty array. *)
Lemma servers_response_empty :
  apiServers [] =
    ([SetHeader "Content-Type" "application/json"; WriteHead 200; End (JArr [])],
     None).
Proof. reflexivity. Qed.

(** A stats frame whose [stats] has a member [ws] takes the handle out of
    the record: the answer then has what the frame put there. *)
Lemma stats_frame_overwrites_socket :
  apiServers (after [registration plainSocket;
                     StatsFrame (Some (JStr "web-01"))
                       (Some (JObj [("ws", JNull)])) "2025-08-01T10:30:30.000Z"])
  = ([SetHeader "Content-Type" "application/json"; WriteHead 200;
      End (JArr [JObj [ ("serverId", JStr "web-01"); ("serverName", JStr "Web 01");
                        ("logFiles", JArr [JStr "/var/log/syslog"]);
                        ("timestamp", JStr "2025-08-01T10:30:15.000Z");
                        ("version", JStr "2.0.0-ultra");
                        ("status", JStr "online");
                        ("errorCount", JNum 0); ("successCount", JNum 0);
                        ("warningCount", JNum 0);
                        ("registeredAt", JStr "2025-08-01T10:30:16.000Z");
                        ("ws", JNull);
                        ("lastSeen", JStr "2025-08-01T10:30:30.000Z") ]])],
     None).
Proof. vm_compute. reflexivity. Qed.

(** When a socket does not serialise, the head 200 is written and the
    response is never ended. *)
Lemma servers_response_unfinished :
  apiServers (after [registration cyclicSocket])
  = ([SetHeader "Content-Type" "application/json"; WriteHead 200],
     Some "ERR_HTTP_HEADERS_SENT").
Proof. vm_compute. reflexivity. Qed.

Lemma servers_response_holds_sockets_witness :
  Forall (fun e => carries "ws" e = false) session /\
  stringifyAll (map snd (after session)) = Returns sessionRecords /\
  apiServers (after session) =
    ([SetHeader "Content-Type" "application/json"; WriteHead 200;
      End (JArr sessionRecords)], None) /\
  Forall2 serialisedWithSocket (map snd (after session)) sessionRecords.
Proof.
  assert (Hkept : Forall (fun e => carries "ws" e = false) session)
    by (repeat constructor).
  assert (H : stringifyAll (map snd (after session)) = Returns sessionRecords)
    by (vm_compute; reflexivity).
  split; [exact Hkept|]. split; [exact H|].
  exact (servers_response_holds_sockets Hkept H).
Defined.

(** C8 fails once an agent has registered: its record is serialised with
    the socket under [ws], and when the socket does not serialise the
    response is not ended at all.  Closing the socket does not take it out
    of the record. *)
Example servers_response_has_handle :
  ~ withoutHandle (apiServers (after [registration plainSocket])) /\
  ~ withoutHandle (apiServers (after [registration cyclicSocket])) /\
  ~ withoutHandle (apiServers (after session)).
Proof.
  repeat split; intros (records & Hops & Hall); vm_compute in Hops;
    try discriminate Hops;
    injection Hops as <-; inversion Hall as [|r rs Hr _]; subst;
    vm_compute in Hr; discriminate Hr.
Qed.

End ServerFacts.

(** ** The log parser *)

Module ParserFacts.

Import Parser.
Import ParserTerms.

(** [parse] throws exactly when the parser it picked returns a message
    that is not a string. *)
Lemma parse_returns_on_string_message (env : Environment) line logFile m :
  ev_message (parsers env (type logFile) line logFile) = JStr m ->
  exists event, parse env line logFile = Returns event /\ ev_message event = JStr m.
Proof.
  intros Hm. unfold parse. rewrite Hm. simpl. eexists. split; reflexivity.
Qed.

Lemma parse_throws_on_other_message (env : Environment) line logFile :
  (forall m, ev_message (parsers env (type logFile) line logFile) <> JStr m) ->
  parse env line logFile = Throws "message.toLowerCase is not a function".
Proof.
  intros Hm. unfold parse.
  destruct (ev_message (parsers env (type logFile) line logFile)) as [| | |m| |];
    try reflexivity.
  now destruct (Hm m).
Qed.

(** C2 at a failing input.  On the JSON path a message that is a number is
    copied into the event, and [extractSemantics] then calls
    [toLowerCase] on it: [parse] throws, for a file of type [json] and for
    one of type [auto]. *)
Theorem parse_throws_on_numeric_message (env : Environment)
    (Hparse : JSON_parse env numericMessageLine = Some numericMessage) :
  parse env numericMessageLine jsonFile =
    Throws "message.toLowerCase is not a function" /\
  parse env numericMessageLine autoFile =
    Throws "message.toLowerCase is not a function".
Proof.
  assert (Hthrows : forall f,
            extractSemantics (ev_message (parseJSON env numericMessageLine f)) =
            Throws "message.toLowerCase is not a function").
  { intros f. unfold parseJSON. rewrite Hparse. reflexivity. }
  split.
  - unfold parse. cbn [type jsonFile parsers]. now rewrite Hthrows.
  - unfold parse. cbn [type autoFile parsers]. unfold parseAuto.
    replace (startsWith (chars "{") (chars (trim numericMessageLine))) with true
      by (vm_compute; reflexivity).
    now rewrite Hthrows.
Qed.

Lemma parse_throws_on_numeric_message_witness :
  JSON_parse stubEnvironment numericMessageLine = Some numericMessage /\
  parse stubEnvironment numericMessageLine jsonFile =
    Throws "message.toLowerCase is not a function".
Proof.
  assert (H : JSON_parse stubEnvironment numericMessageLine = Some numericMessage)
    by (vm_compute; reflexivity).
  split; [exact H|].
  exact (proj1 (parse_throws_on_numeric_message stubEnvironment H)).
Defined.

End ParserFacts.

(** ** Message normalisation *)

Module NormalizeFacts.

Local Open Scope list_scope.
Local Open Scope nat_scope.
Import NormalizeTerms.

(** *** Character classes, by enumeration of the 256 characters *)

Lemma digit_is_word c : isDigit c = true -> isWord c = true.
Proof. each_char c. Qed.

Lemma hex_is_word c : isHex c = true -> isWord c = true.
Proof. each_char c. Qed.

Lemma space_not_word c : isSpace c = true -> isWord c = false.
Proof. each_char c. Qed.

Lemma space_not_digit c : isSpace c = true -> isDigit c = false.
Proof. each_char c. Qed.

Lemma isDigit_lowerChar c : isDigit (lowerChar c) = isDigit c.
Proof. each_char c. Qed.

Lemma isWord_lowerChar c : isWord (lowerChar c) = isWord c.
Proof. each_char c. Qed.

Lemma isSpace_lowerChar c : isSpace (lowerChar c) = isSpace c.
Proof. each_char c. Qed.

Lemma lowerChar_idempotent c : lowerChar (lowerChar c) = lowerChar c.
Proof. each_char c. Qed.

Lemma isChar_eq x c : isChar x c = true -> c = x.
Proof. unfold isChar. intros H. apply Ascii.eqb_eq in H. now subst. Qed.

(** *** A replacement that finds nothing changes nothing *)

Lemma replaceAll_without_match (m : Matcher) rep s :
  forall prev, anyMatch m prev s = false -> replaceAll m rep prev 0 s = s.
Proof.
  induction s as [|c t IH]; intros prev H; simpl in *; [reflexivity|].
  destruct (m prev (c :: t)) as [[|k]|]; try discriminate; now rewrite IH.
Qed.

(** *** Where [/\b\d+\b/] matches *)

Lemma afterDigits_digit c t : isDigit c = true -> afterDigits (c :: t) = afterDigits t.
Proof. intros H. unfold afterDigits. simpl. now rewrite H. Qed.

Lemma afterDigits_other c t : isDigit c = false -> afterDigits (c :: t) = c :: t.
Proof. intros H. unfold afterDigits. simpl. now rewrite H. Qed.

Lemma numberAt_word s : numberAt true s = false.
Proof. reflexivity. Qed.

Lemma numberAt_other pw c t : isDigit c = false -> numberAt pw (c :: t) = false.
Proof.
  intros H. unfold numberAt. simpl. rewrite H. simpl. now rewrite andb_false_r.
Qed.

Lemma numberAt_digit c t :
  isDigit c = true -> numberAt false (c :: t) = negb (wordAt (afterDigits t)).
Proof.
  intros H. unfold numberAt. rewrite afterDigits_digit by exact H. simpl. now rewrite H.
Qed.

Lemma matchNumber_numberAt prev s :
  match matchNumber prev s with Some (S _) => true | _ => false end
  = numberAt (wordBefore prev) s.
Proof.
  unfold matchNumber, numberAt, afterDigits.
  destruct (wordBefore prev); [reflexivity|].
  destruct (digitRun s) as [|n]; [reflexivity|].
  simpl. destruct (wordAt _); reflexivity.
Qed.

Lemma matchNumber_length prev s k :
  matchNumber prev s = Some k -> k = digitRun s /\ wordBefore prev = false.
Proof.
  unfold matchNumber. destruct (wordBefore prev); [discriminate|].
  destruct (digitRun s) as [|n]; [discriminate|].
  destruct (wordAt _); [discriminate|]. intros [= <-]. auto.
Qed.

Lemma anyMatch_number prev s :
  anyMatch matchNumber prev s = negb (numberFree (wordBefore prev) s).
Proof.
  revert prev. induction s as [|c t IH]; intros prev; [reflexivity|].
  cbn [anyMatch numberFree].
  rewrite <- matchNumber_numberAt.
  destruct (matchNumber prev (c :: t)) as [[|k]|]; simpl; try apply IH. reflexivity.
Qed.

(** A replacement text made of letters starts no match and leaves a word
    character before what follows. *)
Lemma numberFree_letter pw c X :
  isDigit c = false -> numberFree pw (c :: X) = numberFree (isWord c) X.
Proof. intros H. cbn [numberFree]. now rewrite numberAt_other. Qed.

Lemma numberFree_NUMBER pw X :
  numberFree pw (chars "NUMBER" ++ X) = numberFree true X.
Proof.
  change (chars "NUMBER" ++ X)
    with ("N" :: "U" :: "M" :: "B" :: "E" :: "R" :: X)%char.
  now rewrite !numberFree_letter by reflexivity.
Qed.

Lemma numberFree_UUID pw X :
  numberFree pw (chars "UUID" ++ X) = numberFree true X.
Proof.
  change (chars "UUID" ++ X) with ("U" :: "U" :: "I" :: "D" :: X)%char.
  now rewrite !numberFree_letter by reflexivity.
Qed.

(** *** After the second replacement no number is left *)

Lemma replaceNumbers_keeps_word_after t :
  forall p, wordBefore p = true ->
  wordAt (afterDigits t) = true ->
  wordAt (afterDigits (replaceAll matchNumber (chars "NUMBER") p 0 t)) = true.
Proof.
  induction t as [|c t IH]; intros p Hp H; [discriminate|].
  cbn [replaceAll]. unfold matchNumber at 1. rewrite Hp.
  destruct (isDigit c) eqn:Hc.
  - rewrite afterDigits_digit in * by exact Hc.
    apply IH; [|exact H]. simpl. now apply digit_is_word.
  - rewrite afterDigits_other in * by exact Hc. exact H.
Qed.

Lemma digitRun_S c t k : digitRun (c :: t) = S k -> isDigit c = true /\ digitRun t = k.
Proof. simpl. destruct (isDigit c); [intros [= <-]; auto|discriminate]. Qed.

Lemma numberFree_replaceNumbers s :
  forall prev skip, skip <= digitRun s ->
  numberFree (if skip =? 0 then wordBefore prev else true)
             (replaceAll matchNumber (chars "NUMBER") prev skip s) = true.
Proof.
  induction s as [|c t IH]; intros prev skip Hskip; [reflexivity|].
  assert (IH0 : numberFree (isWord c)
                  (replaceAll matchNumber (chars "NUMBER") (Some c) 0 t) = true)
    by exact (IH (Some c) 0 (Nat.le_0_l _)).
  destruct skip as [|k].
  - cbn [replaceAll Nat.eqb].
    destruct (matchNumber prev (c :: t)) as [[|k]|] eqn:Hm.
    + apply matchNumber_length in Hm. destruct Hm as [Hk Hp].
      cbn [numberFree]. rewrite IH0.
      rewrite andb_true_r. apply negb_true_iff.
      rewrite Hp. unfold numberAt. simpl digitRun in *.
      destruct (isDigit c); [discriminate|]. reflexivity.
    + apply matchNumber_length in Hm. destruct Hm as [Hk Hp].
      symmetry in Hk. apply digitRun_S in Hk. destruct Hk as [Hc Hk].
      rewrite numberFree_NUMBER.
      specialize (IH (Some c) k). rewrite Hk in IH. specialize (IH (Nat.le_refl _)).
      cbn [wordBefore] in IH. rewrite (digit_is_word _ Hc) in IH.
      destruct (k =? 0); exact IH.
    + cbn [numberFree]. rewrite IH0.
      rewrite andb_true_r. apply negb_true_iff.
      assert (Hat := matchNumber_numberAt prev (c :: t)). rewrite Hm in Hat.
      destruct (wordBefore prev); [reflexivity|].
      destruct (isDigit c) eqn:Hc; [|now apply numberAt_other].
      rewrite numberAt_digit in * by exact Hc.
      symmetry in Hat. apply negb_false_iff in Hat.
      apply negb_false_iff. apply replaceNumbers_keeps_word_after; [|exact Hat].
      simpl. now apply digit_is_word.
  - cbn [replaceAll Nat.eqb].
    assert (Hc : isDigit c = true /\ k <= digitRun t).
    { simpl in Hskip. destruct (isDigit c); [split; [reflexivity|lia]|lia]. }
    destruct Hc as [Hc Hk].
    specialize (IH (Some c) k Hk). cbn [wordBefore] in IH.
    rewrite (digit_is_word _ Hc) in IH. destruct (k =? 0); exact IH.
Qed.

(** *** The third replacement brings no number back *)

Lemma matchClasses_nth cs :
  forall s i p,
  matchClasses cs s = true ->
  nth_error cs i = Some p ->
  exists c, nth_error s i = Some c /\ p c = true.
Proof.
  induction cs as [|q cs IH]; intros s i p Hm Hi; [destruct i; discriminate|].
  destruct s as [|c s]; [discriminate|].
  simpl in Hm. apply andb_true_iff in Hm. destruct Hm as [Hq Hm].
  destruct i as [|i]; simpl in *.
  - injection Hi as <-. exists c. auto.
  - now apply IH.
Qed.

Lemma replaceUUIDs_keeps_word_after t :
  forall p,
  wordAt (afterDigits t) = true ->
  wordAt (afterDigits (replaceAll matchUUID (chars "UUID") p 0 t)) = true.
Proof.
  induction t as [|c t IH]; intros p H; [discriminate|].
  cbn [replaceAll]. unfold matchUUID at 1.
  destruct (matchClasses uuidClasses (c :: t)); [reflexivity|].
  destruct (isDigit c) eqn:Hc.
  - rewrite afterDigits_digit in * by exact Hc. now apply IH.
  - rewrite afterDigits_other in * by exact Hc. exact H.
Qed.

Lemma numberFree_replaceUUIDs s :
  forall prev skip pw,
  numberFree pw s = true ->
  (skip = 0 \/ exists c, nth_error s (skip - 1) = Some c /\ isWord c = true) ->
  numberFree (if skip =? 0 then pw else true)
             (replaceAll matchUUID (chars "UUID") prev skip s) = true.
Proof.
  induction s as [|c t IH]; intros prev skip pw Hfree Hskip; [reflexivity|].
  cbn [numberFree] in Hfree. apply andb_true_iff in Hfree.
  destruct Hfree as [Hat Hfree]. apply negb_true_iff in Hat.
  assert (IH0 : numberFree (isWord c)
                  (replaceAll matchUUID (chars "UUID") (Some c) 0 t) = true)
    by exact (IH (Some c) 0 (isWord c) Hfree (or_introl eq_refl)).
  destruct skip as [|k].
  - cbn [replaceAll Nat.eqb]. unfold matchUUID at 1.
    destruct (matchClasses uuidClasses (c :: t)) eqn:Hm.
    + rewrite numberFree_UUID.
      destruct (matchClasses_nth uuidClasses (c :: t) 35 Hm eq_refl) as (w & Hw & Hhex).
      apply (IH (Some c) 35 (isWord c) Hfree).
      right. exists w. split; [exact Hw|now apply hex_is_word].
    + cbn [numberFree]. rewrite IH0, andb_true_r. apply negb_true_iff.
      destruct pw; [reflexivity|].
      destruct (isDigit c) eqn:Hc; [|now apply numberAt_other].
      rewrite numberAt_digit in * by exact Hc.
      apply negb_false_iff in Hat. apply negb_false_iff.
      now apply replaceUUIDs_keeps_word_after.
  - cbn [replaceAll Nat.eqb].
    destruct Hskip as [Hskip|(w & Hw & Hword)]; [discriminate|].
    simpl in Hw. rewrite Nat.sub_0_r in Hw.
    destruct k as [|k].
    + simpl in Hw. injection Hw as ->. rewrite Hword in IH0. exact IH0.
    + apply (IH (Some c) (S k) (isWord c) Hfree).
      right. exists w. simpl. rewrite Nat.sub_0_r. split; assumption.
Qed.

(** *** Lower-casing and trimming bring no number back *)

Lemma digitRun_lower s : digitRun (lower s) = digitRun s.
Proof.
  induction s as [|c t IH]; [reflexivity|].
  simpl. now rewrite isDigit_lowerChar, IH.
Qed.

Lemma wordAt_lower s : wordAt (lower s) = wordAt s.
Proof. destruct s; [reflexivity|]. simpl. apply isWord_lowerChar. Qed.

Lemma numberAt_lower pw s : numberAt pw (lower s) = numberAt pw s.
Proof.
  unfold numberAt, afterDigits, lower.
  rewrite skipn_map. fold (lower s). fold (lower (skipn (digitRun (lower s)) s)).
  now rewrite wordAt_lower, !digitRun_lower.
Qed.

Lemma numberFree_lower s : forall pw, numberFree pw (lower s) = numberFree pw s.
Proof.
  induction s as [|c t IH]; intros pw; [reflexivity|].
  change (lower (c :: t)) with (lowerChar c :: lower t).
  cbn [numberFree].
  change (lowerChar c :: lower t) with (lower (c :: t)).
  now rewrite numberAt_lower, isWord_lowerChar, IH.
Qed.

Lemma numberFree_trimStart s :
  numberFree false s = true -> numberFree false (trimStart s) = true.
Proof.
  induction s as [|c t IH]; intros H; [reflexivity|].
  simpl. destruct (isSpace c) eqn:Hc; [|exact H].
  apply IH. cbn [numberFree] in H. apply andb_true_iff in H.
  now rewrite (space_not_word _ Hc) in H.
Qed.

(** [trimEnd] removes the whole text or keeps its first character. *)
Lemma trimEnd_cons c t :
  trimEnd (c :: t) = [] \/ trimEnd (c :: t) = c :: trimEnd t.
Proof.
  simpl. destruct (trimEnd t); [|now right].
  destruct (isSpace c); [now left|now right].
Qed.

Lemma trimEnd_nil_space c t : trimEnd (c :: t) = [] -> isSpace c = true.
Proof.
  simpl. destruct (trimEnd t); [|discriminate].
  destruct (isSpace c); [reflexivity|discriminate].
Qed.

Lemma digitRun_trimEnd s : digitRun (trimEnd s) = digitRun s.
Proof.
  induction s as [|c t IH]; [reflexivity|].
  destruct (trimEnd_cons c t) as [H|H]; rewrite H.
  - apply trimEnd_nil_space in H. simpl. now rewrite (space_not_digit _ H).
  - simpl. now rewrite IH.
Qed.

Lemma wordAt_afterDigits_trimEnd s :
  wordAt (afterDigits (trimEnd s)) = wordAt (afterDigits s).
Proof.
  induction s as [|c t IH]; [reflexivity|].
  destruct (trimEnd_cons c t) as [H|H]; rewrite H.
  - apply trimEnd_nil_space in H.
    rewrite (afterDigits_other c t) by now apply space_not_digit.
    simpl. symmetry. now apply space_not_word.
  - destruct (isDigit c) eqn:Hc.
    + rewrite !afterDigits_digit by exact Hc. exact IH.
    + rewrite !afterDigits_other by exact Hc. reflexivity.
Qed.

Lemma numberAt_trimEnd pw s : numberAt pw (trimEnd s) = numberAt pw s.
Proof.
  unfold numberAt. now rewrite wordAt_afterDigits_trimEnd, digitRun_trimEnd.
Qed.

Lemma numberFree_trimEnd s :
  forall pw, numberFree pw s = true -> numberFree pw (trimEnd s) = true.
Proof.
  induction s as [|c t IH]; intros pw H; [reflexivity|].
  destruct (trimEnd_cons c t) as [E|E]; [now rewrite E|].
  cbn [numberFree] in H. apply andb_true_iff in H. destruct H as [Hat Hfree].
  assert (Hat' := numberAt_trimEnd pw (c :: t)). rewrite E in *.
  cbn [numberFree]. rewrite Hat', Hat. now apply IH.
Qed.

(** *** A text without number holds no time stamp *)

Lemma timestamp_needs_number s pw :
  matchClasses timestampCore s = true -> numberFree pw s = false.
Proof.
  intros H.
  destruct (matchClasses_nth timestampCore s 4 H eq_refl) as (x4 & H4 & P4).
  destruct (matchClasses_nth timestampCore s 5 H eq_refl) as (x5 & H5 & P5).
  destruct (matchClasses_nth timestampCore s 6 H eq_refl) as (x6 & H6 & P6).
  destruct (matchClasses_nth timestampCore s 7 H eq_refl) as (x7 & H7 & P7).
  destruct s as [|a1 [|a2 [|a3 [|a4 [|a5 [|a6 [|a7 [|a8 r]]]]]]]]; try discriminate.
  simpl in H4, H5, H6, H7.
  injection H4 as ->. injection H5 as ->. injection H6 as ->. injection H7 as ->.
  apply isChar_eq in P4, P7. subst x4 x7. unfold d in P5, P6.
  assert (Hat : numberAt false (x5 :: x6 :: "-" :: r)%char = true).
  { rewrite numberAt_digit by exact P5.
    rewrite afterDigits_digit by exact P6.
    rewrite afterDigits_other by reflexivity. reflexivity. }
  cbn [numberFree].
  change (isWord "-"%char) with false. rewrite Hat. simpl.
  now rewrite !andb_false_r.
Qed.

Lemma timestampFree s :
  forall prev pw, numberFree pw s = true -> anyMatch matchTimestamp prev s = false.
Proof.
  induction s as [|c t IH]; intros prev pw H; [reflexivity|].
  cbn [anyMatch]. unfold matchTimestamp at 1.
  destruct (matchClasses timestampCore (c :: t)) eqn:Hm.
  - rewrite (@timestamp_needs_number _ pw Hm) in H. discriminate.
  - cbn [numberFree] in H. apply andb_true_iff in H. now apply (IH (Some c) (isWord c)).
Qed.

(** *** Lower-casing and trimming twice *)

Lemma lower_idempotent s : lower (lower s) = lower s.
Proof.
  unfold lower. rewrite map_map. apply map_ext. apply lowerChar_idempotent.
Qed.

Lemma trimStart_lower s : trimStart (lower s) = lower (trimStart s).
Proof.
  induction s as [|c t IH]; [reflexivity|].
  simpl. rewrite isSpace_lowerChar. destruct (isSpace c); [exact IH|reflexivity].
Qed.

Lemma trimEnd_lower s : trimEnd (lower s) = lower (trimEnd s).
Proof.
  induction s as [|c t IH]; [reflexivity|].
  change (lower (c :: t)) with (lowerChar c :: lower t).
  cbn [trimEnd]. rewrite IH, isSpace_lowerChar.
  destruct (trimEnd t); simpl; [destruct (isSpace c)|]; reflexivity.
Qed.

Lemma trimL_lower s : trimL (lower s) = lower (trimL s).
Proof. unfold trimL. now rewrite trimStart_lower, trimEnd_lower. Qed.

Lemma trimEnd_idempotent s : trimEnd (trimEnd s) = trimEnd s.
Proof.
  induction s as [|c t IH]; [reflexivity|].
  destruct (trimEnd_cons c t) as [E|E]; rewrite E; [reflexivity|].
  cbn [trimEnd]. rewrite IH. exact E.
Qed.

Lemma trimStart_head s :
  trimStart s = [] \/ exists c t, trimStart s = c :: t /\ isSpace c = false.
Proof.
  induction s as [|c t IH]; [now left|].
  simpl. destruct (isSpace c) eqn:Hc; [exact IH|].
  right. exists c, t. auto.
Qed.

Lemma trimL_idempotent s : trimL (trimL s) = trimL s.
Proof.
  unfold trimL.
  destruct (trimStart_head s) as [E|(c & t & E & Hc)]; rewrite E; [reflexivity|].
  destruct (trimEnd_cons c t) as [E'|E'].
  - apply trimEnd_nil_space in E'. congruence.
  - rewrite E'. cbn [trimStart]. rewrite Hc. rewrite <- E'. apply trimEnd_idempotent.
Qed.

(** *** The normal form *)

Lemma numberFree_normalizeL s : numberFree false (normalizeL s) = true.
Proof.
  unfold normalizeL, trimL.
  apply numberFree_trimEnd, numberFree_trimStart.
  rewrite numberFree_lower.
  apply (@numberFree_replaceUUIDs _ None 0 false); [|now left].
  apply (@numberFree_replaceNumbers _ None 0). apply Nat.le_0_l.
Qed.

Lemma lower_normalizeL s : lower (normalizeL s) = normalizeL s.
Proof. unfold normalizeL. now rewrite <- trimL_lower, lower_idempotent. Qed.

Lemma trimL_normalizeL s : trimL (normalizeL s) = normalizeL s.
Proof. unfold normalizeL. apply trimL_idempotent. Qed.

(** On a normal form the first two replacements, the lower-casing and the
    trimming change nothing: only the third replacement can. *)
Lemma normalizeL_again s :
  normalizeL (normalizeL s) =
  trimL (lower (replaceUUIDs (normalizeL s))).
Proof.
  unfold normalizeL at 1.
  assert (Hfree := numberFree_normalizeL s).
  unfold replaceTimestamps.
  rewrite replaceAll_without_match by (apply (@timestampFree _ None false); exact Hfree).
  unfold replaceNumbers.
  rewrite replaceAll_without_match
    by (rewrite anyMatch_number; simpl; now rewrite Hfree).
  reflexivity.
Qed.

Lemma chars_text l : chars (text l) = l.
Proof. apply list_ascii_of_string_of_list_ascii. Qed.

(** C9, as the code has it.  Normalising a normal form gives it back
    whenever the normal form holds no run shaped like a UUID. *)
Theorem normalize_idempotent_without_uuid (m : string)
    (Hnone : containsUUID (normalizeMessage m) = false) :
  normalizeMessage (normalizeMessage m) = normalizeMessage m.
Proof.
  unfold containsUUID, normalizeMessage in *. rewrite chars_text in *.
  f_equal. rewrite normalizeL_again.
  unfold replaceUUIDs. rewrite replaceAll_without_match by exact Hnone.
  now rewrite lower_normalizeL, trimL_normalizeL.
Qed.

Lemma normalize_idempotent_without_uuid_witness :
  containsUUID (normalizeMessage
    "Failed at 2025-08-01 10:30:15 after 30 tries, id 0a1b2c3d-0000-4e5f-8a9b-0123456789ab")
    = false /\
  normalizeMessage "Failed at 2025-08-01 10:30:15 after 30 tries, id 0a1b2c3d-0000-4e5f-8a9b-0123456789ab"
    = "failed at timestamp after number tries, id 0a1b2c3d-number-4e5f-8a9b-0123456789ab" /\
  normalizeMessage (normalizeMessage
    "Failed at 2025-08-01 10:30:15 after 30 tries, id 0a1b2c3d-0000-4e5f-8a9b-0123456789ab")
    = normalizeMessage
    "Failed at 2025-08-01 10:30:15 after 30 tries, id 0a1b2c3d-0000-4e5f-8a9b-0123456789ab".
Proof.
  assert (H : containsUUID (normalizeMessage
    "Failed at 2025-08-01 10:30:15 after 30 tries, id 0a1b2c3d-0000-4e5f-8a9b-0123456789ab")
    = false) by (vm_compute; reflexivity).
  split; [exact H|]. split; [vm_compute; reflexivity|].
  exact (normalize_idempotent_without_uuid _ H).
Defined.

(** Conversely, a normal form that holds such a run is shortened by the
    second pass. *)
Lemma length_replaceUUIDs_le s :
  forall prev skip, skip <= length s ->
  length (replaceAll matchUUID (chars "UUID") prev skip s) + skip <= length s.
Proof.
  induction s as [|c t IH]; intros prev skip Hskip; [simpl in *; lia|].
  destruct skip as [|k]; cbn [replaceAll].
  - unfold matchUUID at 1.
    destruct (matchClasses uuidClasses (c :: t)) eqn:Hm.
    + destruct (matchClasses_nth uuidClasses (c :: t) 35 Hm eq_refl) as (w & Hw & _).
      assert (35 < length (c :: t)) by (apply nth_error_Some; congruence).
      specialize (IH (Some c) 35).
      set (rest := replaceAll matchUUID (chars "UUID") (Some c) 35 t) in *.
      rewrite length_app. change (length (chars "UUID")) with 4.
      cbn [length] in *. lia.
    + specialize (IH (Some c) 0). simpl in *. lia.
  - specialize (IH (Some c) k). simpl in *. lia.
Qed.

Lemma length_replaceUUIDs_lt s :
  forall prev, anyMatch matchUUID prev s = true ->
  length (replaceAll matchUUID (chars "UUID") prev 0 s) < length s.
Proof.
  induction s as [|c t IH]; intros prev H; [discriminate|].
  cbn [anyMatch replaceAll] in *. unfold matchUUID in H at 1. unfold matchUUID at 1.
  destruct (matchClasses uuidClasses (c :: t)) eqn:Hm.
  - destruct (matchClasses_nth uuidClasses (c :: t) 35 Hm eq_refl) as (w & Hw & _).
    assert (35 < length (c :: t)) by (apply nth_error_Some; congruence).
    assert (Hle := @length_replaceUUIDs_le t (Some c) 35).
    set (rest := replaceAll matchUUID (chars "UUID") (Some c) 35 t) in *.
    rewrite length_app. change (length (chars "UUID")) with 4.
    cbn [length] in *. lia.
  - specialize (IH (Some c) H). cbn [length]. lia.
Qed.

Lemma length_trimStart s : length (trimStart s) <= length s.
Proof.
  induction s as [|c t IH]; [reflexivity|].
  simpl. destruct (isSpace c); simpl; lia.
Qed.

Lemma length_trimEnd s : length (trimEnd s) <= length s.
Proof.
  induction s as [|c t IH]; [reflexivity|].
  destruct (trimEnd_cons c t) as [E|E]; rewrite E; simpl; lia.
Qed.

Lemma normalize_changes_with_uuid (m : string) :
  containsUUID (normalizeMessage m) = true ->
  normalizeMessage (normalizeMessage m) <> normalizeMessage m.
Proof.
  unfold containsUUID, normalizeMessage. rewrite !chars_text.
  intros H E.
  assert (E' : normalizeL (normalizeL (chars m)) = normalizeL (chars m)).
  { rewrite <- (chars_text (normalizeL (normalizeL (chars m)))), E. apply chars_text. }
  rewrite normalizeL_again in E'.
  apply length_replaceUUIDs_lt in H. fold (replaceUUIDs (normalizeL (chars m))) in H.
  assert (Hlen : length (trimL (lower (replaceUUIDs (normalizeL (chars m)))))
                 <= length (replaceUUIDs (normalizeL (chars m)))).
  { unfold trimL.
    etransitivity; [apply length_trimEnd|].
    etransitivity; [apply length_trimStart|].
    unfold lower. now rewrite length_map. }
  rewrite E' in Hlen. lia.
Qed.

(** C9 fails when the text [UUID] put in by the third replacement is
    followed by hexadecimal digits: its [D] completes a new run of eight,
    which the second pass replaces. *)
Example normalize_not_idempotent :
  normalizeMessage
    "aaaaaaaa-aaaa-aaaa-aaaa-aaaaaaaaaaaaeadbeef-aaaa-bbbb-cccc-dddddddddddd"
    = "uuideadbeef-aaaa-bbbb-cccc-dddddddddddd" /\
  normalizeMessage "uuideadbeef-aaaa-bbbb-cccc-dddddddddddd" = "uuiuuid" /\
  normalizeMessage (normalizeMessage
    "aaaaaaaa-aaaa-aaaa-aaaa-aaaaaaaaaaaaeadbeef-aaaa-bbbb-cccc-dddddddddddd")
    <> normalizeMessage
    "aaaaaaaa-aaaa-aaaa-aaaa-aaaaaaaaaaaaeadbeef-aaaa-bbbb-cccc-dddddddddddd".
Proof.
  vm_compute. repeat split. discriminate.
Qed.

End NormalizeFacts.

(** ** Text *)

Module TextFacts.

Local Open Scope list_scope.

Lemma startsWith_app p s : startsWith p (p ++ s) = true.
Proof.
  induction p as [|a p IH]; simpl; [reflexivity|].
  now rewrite Ascii.eqb_refl, IH.
Qed.

Lemma startsWith_split p s : startsWith p s = true -> exists r, s = p ++ r.
Proof.
  revert s. induction p as [|a p IH]; intros s H; simpl in *.
  - now exists s.
  - destruct s as [|b s]; [discriminate|].
    apply andb_true_iff in H. destruct H as [Hab Hp].
    apply Ascii.eqb_eq in Hab. subst b.
    destruct (IH s Hp) as (r & ->). now exists r.
Qed.

Lemma includesL_head p s : startsWith p s = true -> includesL p s = true.
Proof. intros H. destruct s; simpl; now rewrite H. Qed.

Lemma includesL_tail p c s : includesL p s = true -> includesL p (c :: s) = true.
Proof. intros H. simpl. rewrite H. apply orb_true_r. Qed.

(** [s.includes(p)] says that [p] lies somewhere in [s]. *)
Lemma includesL_iff p s :
  includesL p s = true <-> exists a b, s = a ++ p ++ b.
Proof.
  split.
  - induction s as [|c s IH]; simpl; intros H.
    + rewrite orb_false_r in H. destruct (startsWith_split _ _ H) as (r & Hr).
      exists [], r. exact Hr.
    + apply orb_true_iff in H. destruct H as [H|H].
      * destruct (startsWith_split _ _ H) as (r & Hr). exists [], r. exact Hr.
      * destruct (IH H) as (a & b & ->). exists (c :: a), b. reflexivity.
  - intros (a & b & ->). induction a as [|c a IH].
    + cbn [app]. apply includesL_head, startsWith_app.
    + cbn [app]. apply includesL_tail, IH.
Qed.

Lemma includesL_app p pre s post :
  includesL p s = true -> includesL p (pre ++ s ++ post) = true.
Proof.
  rewrite !includesL_iff. intros (a & b & ->).
  exists (pre ++ a), (b ++ post). now rewrite <- !app_assoc.
Qed.

(** A text that holds [p ++ q] holds [p]. *)
Lemma includesL_longer p q s :
  includesL (p ++ q) s = true -> includesL p s = true.
Proof.
  rewrite !includesL_iff. intros (a & b & ->).
  exists a, (q ++ b). now rewrite <- !app_assoc.
Qed.

Lemma includesL_shorter_left p q s :
  includesL (p ++ q) s = true -> includesL q s = true.
Proof.
  rewrite !includesL_iff. intros (a & b & ->).
  exists (a ++ p), b. now rewrite <- !app_assoc.
Qed.

Lemma chars_append s1 s2 : chars (s1 ++ s2)%string = chars s1 ++ chars s2.
Proof. induction s1 as [|c s1 IH]; simpl; [reflexivity|]. now rewrite IH. Qed.

Lemma chars_of_text l : chars (text l) = l.
Proof. apply list_ascii_of_string_of_list_ascii. Qed.

Lemma text_of_chars s : text (chars s) = s.
Proof. apply string_of_list_ascii_of_string. Qed.

Lemma toLowerCase_append s1 s2 :
  toLowerCase (s1 ++ s2)%string = (toLowerCase s1 ++ toLowerCase s2)%string.
Proof.
  unfold toLowerCase, lower. rewrite chars_append, map_app.
  rewrite <- (text_of_chars (text (map lowerChar (chars s1)) ++ text (map lowerChar (chars s2)))).
  now rewrite chars_append, !chars_of_text.
Qed.

(** A keyword found in a message is found in every text around it. *)
Lemma includes_around s k pre post :
  includes s k = true -> includes (pre ++ s ++ post)%string k = true.
Proof.
  unfold includes. rewrite !chars_append. apply includesL_app.
Qed.

Lemma includesAny_around s ks pre post :
  includesAny s ks = true -> includesAny (pre ++ s ++ post)%string ks = true.
Proof.
  unfold includesAny. rewrite !existsb_exists.
  intros (k & Hin & Hk). exists k. split; [exact Hin|now apply includes_around].
Qed.

End TextFacts.

(** ** The memory store, continued *)

Module StoreMoreFacts.

Import Store.
Import StoreTerms.
Import StoreMoreTerms.
Import TextFacts.
Import StoreFacts.
Local Open Scope list_scope.

(** *** Severity and category *)

(** X1. Text put before or after a message never lowers the severity
    [calculateSeverity] gives it. *)
Theorem severity_never_lowered (pre m post : string) :
  rank (calculateSeverity m) <= rank (calculateSeverity (pre ++ m ++ post)%string).
Proof.
  unfold calculateSeverity. rewrite !toLowerCase_append.
  set (lm := toLowerCase m).
  set (lpre := toLowerCase pre). set (lpost := toLowerCase post).
  assert (H := fun ks => @includesAny_around lm ks lpre lpost).
  assert (H1 := H ["fatal"; "critical"; "emergency"; "panic"; "severe"]).
  assert (H2 := H ["error"; "fail"; "exception"; "timeout"; "refused"; "denied"]).
  assert (H3 := H ["warn"; "warning"; "deprecated"; "retry"]).
  destruct (includesAny lm ["fatal"; "critical"; "emergency"; "panic"; "severe"]);
  destruct (includesAny lm ["error"; "fail"; "exception"; "timeout"; "refused"; "denied"]);
  destruct (includesAny lm ["warn"; "warning"; "deprecated"; "retry"]);
  try rewrite (H1 eq_refl); try rewrite (H2 eq_refl); try rewrite (H3 eq_refl);
  repeat match goal with
         | |- context [if includesAny ?x ?ks then _ else _] =>
             destruct (includesAny x ks)
         end; simpl; lia.
Qed.

(** The category is the name of the first entry of the table one of whose
    keywords the message holds. *)
Lemma categorize_first m before name ks after :
  categories = before ++ (name, ks) :: after ->
  Forall (fun entry => includesAny (toLowerCase m) (snd entry) = false) before ->
  includesAny (toLowerCase m) ks = true ->
  categorizeError m = name.
Proof.
  intros Hcat Hb Hk. unfold categorizeError. rewrite Hcat. clear Hcat.
  induction Hb as [|e b He _ IH]; simpl.
  - now rewrite Hk.
  - now rewrite He.
Qed.

Lemma categorize_general m :
  Forall (fun entry => includesAny (toLowerCase m) (snd entry) = false) categories ->
  categorizeError m = "General".
Proof.
  intros H. unfold categorizeError.
  induction H as [|e l He _ IH]; simpl; [reflexivity|]. now rewrite He.
Qed.

(** A message that holds a keyword of some entry falls into that entry or
    an earlier one. *)
Lemma categorize_not_later m before name ks after :
  categories = before ++ (name, ks) :: after ->
  includesAny (toLowerCase m) ks = true ->
  In (categorizeError m) (map fst before ++ [name]).
Proof.
  intros Hcat Hk. unfold categorizeError. rewrite Hcat. clear Hcat.
  induction before as [|e b IH]; simpl.
  - rewrite Hk. now left.
  - destruct (includesAny (toLowerCase m) (snd e)); [now left|]. now right.
Qed.

Lemma includesAny_one s k ks : In k ks -> includes s k = true -> includesAny s ks = true.
Proof.
  intros Hin Hk. unfold includesAny. apply existsb_exists. now exists k.
Qed.

Lemma includes_longer s p q : includes s (p ++ q)%string = true -> includes s p = true.
Proof. unfold includes. rewrite chars_append. apply includesL_longer. Qed.

Lemma includes_shorter_left s p q :
  includes s (p ++ q)%string = true -> includes s q = true.
Proof. unfold includes. rewrite chars_append. apply includesL_shorter_left. Qed.

(** X2. Four keywords of the category table never decide: a message with
    [timeout] or [connection refused] is of the first category, Database
    Connectivity, not of Network Issues, which lists them too; one with
    [permission denied] is of one of the first two categories, not of
    File System; one with [invalid config] is never of Configuration. *)
Theorem shadowed_keywords (m : string) :
  let msg := toLowerCase m in
  (includes msg "timeout" = true \/ includes msg "connection refused" = true ->
   categorizeError m = "Database Connectivity") /\
  (includes msg "permission denied" = true ->
   categorizeError m = "Database Connectivity" \/ categorizeError m = "Authentication") /\
  (includes msg "invalid config" = true ->
   categorizeError m <> "Configuration").
Proof.
  intros msg. split; [|split].
  - intros H.
    apply (@categorize_first m [] "Database Connectivity"
             ["connection"; "timeout"; "database"; "db"; "mysql"; "postgres"; "mongo"]
             (tl categories)); [reflexivity|constructor|].
    destruct H as [H|H].
    + apply (@includesAny_one _ "timeout"); [simpl; tauto|exact H].
    + apply (@includesAny_one _ "connection"); [simpl; tauto|].
      apply (@includes_longer _ "connection" " refused"). exact H.
  - intros H.
    assert (Hin := @categorize_not_later m
              (firstn 1 categories) "Authentication"
              ["auth"; "login"; "password"; "token"; "permission"; "unauthorized"; "401"; "403"]
              (skipn 2 categories) eq_refl).
    assert (Hk : includesAny (toLowerCase m)
                   ["auth"; "login"; "password"; "token"; "permission";
                    "unauthorized"; "401"; "403"] = true).
    { apply (@includesAny_one _ "permission"); [simpl; tauto|].
      apply (@includes_longer _ "permission" " denied"). exact H. }
    specialize (Hin Hk). simpl in Hin. destruct Hin as [Hin|[Hin|[]]]; auto.
  - intros H.
    assert (Hin := @categorize_not_later m
              (firstn 5 categories) "Data Processing"
              ["json"; "parse"; "format"; "invalid"; "malformed"; "corrupt"]
              (skipn 6 categories) eq_refl).
    assert (Hk : includesAny (toLowerCase m)
                   ["json"; "parse"; "format"; "invalid"; "malformed"; "corrupt"] = true).
    { apply (@includesAny_one _ "invalid"); [simpl; tauto|].
      apply (@includes_longer _ "invalid" " config"). exact H. }
    specialize (Hin Hk). simpl in Hin.
    intros E; rewrite E in Hin;
      repeat (destruct Hin as [Hin|Hin]; [discriminate Hin|]); exact Hin.
Qed.

(** *** What every stored record satisfies *)

(** The duplicate branch with the trend it computes. *)
Lemma addError_merge_exact s c existing :
  findSimilarError s (error c) = Some existing ->
  exists before after,
    errors s = before ++ existing :: after /\
    Forall (fun y => similar (in_serverId (error c)) (in_logFile (error c))
                             (in_errorMessage (error c)) y = false) before /\
    similar (in_serverId (error c)) (in_logFile (error c))
            (in_errorMessage (error c)) existing = true /\
    let seen := bump existing (stampOf c) in
    let merged :=
      withTrend seen
        (calculateTrend (withErrors s (before ++ seen :: after)) (now c) seen) in
    addError s c = (withErrors s (before ++ merged :: after), merged).
Proof.
  intros Hfind. unfold addError. rewrite Hfind.
  unfold findSimilarError in Hfind.
  destruct (find_split _ _ Hfind) as (before & after & Herr & Hx & Hb).
  fold (stampOf c).
  set (test := similar _ _ _) in *.
  exists before, after.
  split; [exact Herr|]. split; [exact Hb|]. split; [exact Hx|].
  cbn zeta. unfold withErrors at 2 4. cbn [errors]. rewrite Herr.
  rewrite writeFirst_split by assumption.
  unfold withErrors at 1. cbn [errors insights maxErrors patterns].
  rewrite writeFirst_split by (assumption || exact Hx).
  reflexivity.
Qed.

Lemma Forall_firstn {A} (P : A -> Prop) n l : Forall P l -> Forall P (firstn n l).
Proof.
  intros H. revert n. induction H as [|x l Hx _ IH]; intros [|n]; simpl; auto.
Qed.

(** A property of records that holds of a new record and survives the
    writes of a merge holds of every stored record. *)
Lemma stored_records_satisfy (P : StoredError -> Prop) :
  (forall c, P (freshRecord c)) ->
  (forall e ts t, P e -> P (withTrend (bump e ts) t)) ->
  forall calls, Forall P (errors (run calls empty)).
Proof.
  intros Hfresh Hmerge calls.
  induction calls as [|c t IH] using rev_ind; [constructor|].
  rewrite run_snoc. set (s := run t empty) in *.
  destruct (findSimilarError s (error c)) as [existing|] eqn:Hfind.
  - destruct (addError_merge s c Hfind) as (b & a & m & Herr & _ & -> & Hm).
    cbn [fst errors]. rewrite Herr in IH.
    apply Forall_app in IH. destruct IH as [Hb Ha].
    inversion Ha as [|x l Hx Hl]; subst x l.
    apply Forall_app. split; [exact Hb|]. constructor; [|exact Hl].
    rewrite Hm. now apply Hmerge.
  - rewrite (addError_insert s c Hfind). cbn [fst].
    rewrite errors_updatePatterns. cbn [errors withErrors].
    apply Forall_firstn. constructor; [apply Hfresh|exact IH].
Qed.

(** X3. In a store grown from the empty one, the category and the severity
    of every record are those of its message, its count is at least 1, and
    [firstSeen] is the time stamp it was inserted with. *)
Theorem stored_record_invariant (calls : list Call) :
  Forall (fun e =>
            category e = categorizeError (errorMessage e) /\
            severity e = calculateSeverity (errorMessage e) /\
            1 <= count e /\
            firstSeen e = timestamp e)
         (errors (run calls empty)).
Proof.
  apply stored_records_satisfy.
  - intros c. cbn. repeat split. lia.
  - intros e ts t (H1 & H2 & H3 & H4). cbn. repeat split; try assumption. lia.
Qed.

(** *** No report is lost while the store has room *)

Lemma inserted_snoc calls c :
  forall s acc,
  inserted (calls ++ [c]) s acc =
  match findSimilarError (run calls s) (error c) with
  | None => callFingerprint c :: inserted calls s acc
  | Some _ => inserted calls s acc
  end.
Proof.
  induction calls as [|c0 t IH]; intros s acc; [reflexivity|].
  cbn [app inserted]. rewrite IH. reflexivity.
Qed.

Lemma totalCount_app a b : totalCount (a ++ b) = totalCount a + totalCount b.
Proof.
  unfold totalCount. induction a as [|e a IH]; simpl; [reflexivity|].
  rewrite IH. lia.
Qed.

Lemma counted_while_room calls :
  length (inserted calls empty []) <= 1000 ->
  totalCount (errors (run calls empty)) = length calls /\
  length (errors (run calls empty)) = length (inserted calls empty []).
Proof.
  induction calls as [|c t IH] using rev_ind; [intros _; split; reflexivity|].
  rewrite inserted_snoc, run_snoc, length_app. cbn [length].
  set (s := run t empty) in *.
  assert (Hmax : maxErrors s = 1000) by (unfold s; now rewrite maxErrors_run).
  destruct (findSimilarError s (error c)) as [existing|] eqn:Hfind.
  - intros Hroom. destruct (IH Hroom) as [Hcount Hlen].
    destruct (addError_merge s c Hfind) as (b & a & m & Herr & _ & -> & Hm).
    cbn [fst errors]. rewrite Herr in Hcount, Hlen.
    rewrite totalCount_app in *. rewrite length_app in *.
    cbn [length] in *. unfold totalCount in *. cbn [fold_right] in *.
    rewrite Hm. cbn [count withTrend bump]. split; lia.
  - cbn [length]. intros Hroom.
    assert (Hroom' : length (inserted t empty []) <= 1000) by lia.
    destruct (IH Hroom') as [Hcount Hlen].
    rewrite (addError_insert s c Hfind). cbn [fst].
    rewrite errors_updatePatterns. cbn [errors withErrors].
    rewrite firstn_all2 by (cbn [length]; lia).
    cbn [length]. unfold totalCount in *. cbn [fold_right count freshRecord].
    split; lia.
Qed.

(** X4. As long as no more than 1000 records were inserted, nothing is
    trimmed and every call is counted once: the counts of the stored
    records add up to the number of [addError] calls. *)
Theorem counts_add_up (calls : list Call)
    (Hroom : length (inserted calls empty []) <= 1000) :
  totalCount (errors (run calls empty)) = length calls.
Proof. exact (proj1 (counted_while_room calls Hroom)). Qed.

Lemma counts_add_up_witness :
  length (inserted (elevenFiles ++ [again]) empty []) <= 1000 /\
  totalCount (errors (run (elevenFiles ++ [again]) empty)) = 12.
Proof.
  assert (H : length (inserted (elevenFiles ++ [again]) empty []) <= 1000)
    by (vm_compute; lia).
  split; [exact H|]. exact (counts_add_up (elevenFiles ++ [again]) H).
Defined.

(** *** Trend *)

Lemma filter_none {A} (p : A -> bool) l :
  Forall (fun x => p x = false) l -> filter p l = [].
Proof.
  intros H. induction H as [|x l Hx _ IH]; simpl; [reflexivity|]. now rewrite Hx.
Qed.

Lemma trend_new_when_alone s now_ e :
  Forall (fun x => (id x =? id e) = true \/
                   (normalizeMessage (errorMessage x) =?
                    normalizeMessage (errorMessage e)) = false) (errors s) ->
  calculateTrend s now_ e = new.
Proof.
  intros H. unfold calculateTrend. rewrite filter_none; [reflexivity|].
  eapply Forall_impl; [|exact H]. intros x [Hx|Hx]; cbv beta; rewrite Hx;
    [reflexivity|now rewrite andb_false_r].
Qed.

(** X5. While all reports come from one serverId and one log file, the
    trend of every stored record stays [new]: [calculateTrend] counts only
    other records with the same normalised message, and there is none. *)
Theorem trend_new_for_one_source (calls : list Call) (sid file : string)
    (Hsource : Forall (fun c => in_serverId (error c) = sid /\
                                in_logFile (error c) = file) calls) :
  Forall (fun e => trend e = new) (errors (run calls empty)).
Proof.
  assert (H : NoDup (map fingerprint (errors (run calls empty))) /\
              Forall (fun e => serverId e = sid /\ logFile e = file /\ trend e = new)
                     (errors (run calls empty))).
  { induction calls as [|c t IH] using rev_ind; [split; constructor|].
    apply Forall_app in Hsource. destruct Hsource as [Ht Hc].
    inversion Hc as [|x l [Hsid Hfile] _]; subst x l.
    destruct (IH Ht) as [Hnd Hall]. clear IH.
    split; [rewrite run_snoc; now apply addError_keeps_unique|].
    rewrite run_snoc. set (s := run t empty) in *.
    destruct (findSimilarError s (error c)) as [existing|] eqn:Hfind.
    - destruct (addError_merge_exact s c Hfind) as (b & a & Herr & _ & Hsim & Hadd).
      cbv zeta in Hadd. rewrite Hadd. cbn [fst errors withErrors].
      rewrite Herr in Hall, Hnd.
      apply Forall_app in Hall. destruct Hall as [Hb Ha].
      inversion Ha as [|x l (He1 & He2 & He3) Hl]; subst x l.
      apply Forall_app. split; [exact Hb|]. constructor; [|exact Hl].
      cbn [serverId logFile trend withTrend bump].
      split; [exact He1|]. split; [exact He2|].
      apply trend_new_when_alone. cbn [errors withErrors].
      rewrite map_app in Hnd. cbn [map] in Hnd.
      apply NoDup_remove_2 in Hnd.
      assert (Hother : forall x, In x (b ++ a) ->
                (normalizeMessage (errorMessage x) =?
                 normalizeMessage (errorMessage existing)) = false).
      { intros x Hx. apply String.eqb_neq. intros Heq. apply Hnd.
        rewrite <- map_app. apply in_map_iff. exists x. split; [|exact Hx].
        unfold fingerprint. rewrite Heq.
        assert (Hx' : serverId x = sid /\ logFile x = file).
        { apply in_app_or in Hx. destruct Hx as [Hx|Hx].
          - rewrite Forall_forall in Hb. destruct (Hb x Hx) as (? & ? & _). auto.
          - rewrite Forall_forall in Hl. destruct (Hl x Hx) as (? & ? & _). auto. }
        destruct Hx' as [-> ->]. now rewrite He1, He2. }
      apply Forall_app. split; [|constructor].
      + apply Forall_forall. intros x Hx. right.
        apply Hother. apply in_or_app. now left.
      + left. apply String.eqb_refl.
      + apply Forall_forall. intros x Hx. right.
        apply Hother. apply in_or_app. now right.
    - rewrite (addError_insert s c Hfind). cbn [fst].
      rewrite errors_updatePatterns. cbn [errors withErrors].
      apply Forall_firstn. constructor; [|exact Hall].
      cbn. auto. }
  eapply Forall_impl; [|exact (proj2 H)]. intros e (_ & _ & He). exact He.
Qed.

Lemma trend_new_for_one_source_witness :
  Forall (fun c => in_serverId (error c) = "web-01" /\
                   in_logFile (error c) = "/var/log/a.log") oneSource /\
  map count (errors (run oneSource empty)) = [1; 2] /\
  Forall (fun e => trend e = new) (errors (run oneSource empty)).
Proof.
  assert (H : Forall (fun c => in_serverId (error c) = "web-01" /\
                               in_logFile (error c) = "/var/log/a.log") oneSource)
    by (repeat constructor).
  split; [exact H|]. split; [vm_compute; reflexivity|].
  exact (trend_new_for_one_source H).
Defined.

(** *** The pattern table *)

Lemma assign_keys_in {V} k (v : V) o x :
  In x (map fst (assign k v o)) -> x = k \/ In x (map fst o).
Proof.
  induction o as [|[k' v'] t IH]; simpl.
  - intros [H|[]]. now left.
  - destruct (k' =? k); simpl; intros [H|H]; auto.
    destruct (IH H); auto.
Qed.

Lemma assign_keys_NoDup {V} k (v : V) o :
  NoDup (map fst o) -> NoDup (map fst (assign k v o)).
Proof.
  induction o as [|[k' v'] t IH]; simpl; intros H.
  - constructor; [intros []|constructor].
  - inversion H as [|x l Hx Hl]; subst x l.
    destruct (k' =? k) eqn:E; simpl; constructor; auto.
    intros Hin. apply assign_keys_in in Hin. destruct Hin as [->|Hin]; auto.
    now rewrite String.eqb_refl in E.
Qed.

Lemma assign_values {V} (Q : V -> Prop) k v (o : list (string * V)) :
  Forall (fun kv => Q (snd kv)) o -> Q v ->
  Forall (fun kv => Q (snd kv)) (assign k v o).
Proof.
  intros Ho Hv. induction Ho as [|[k' v'] t Hk Ht IH]; simpl.
  - constructor; [exact Hv|constructor].
  - destruct (k' =? k); constructor; auto.
Qed.

Lemma member_value {V} (Q : V -> Prop) k (o : list (string * V)) v :
  Forall (fun kv => Q (snd kv)) o -> member k o = Some v -> Q v.
Proof.
  intros Ho. induction Ho as [|[k' v'] t Hk _ IH]; simpl; [discriminate|].
  destruct (k' =? k); [intros [= <-]; exact Hk|exact IH].
Qed.

Lemma member_kept {V} k k' (v : V) o :
  member k o <> None -> member k (assign k' v o) <> None.
Proof.
  intros H. destruct (String.eqb_spec k' k) as [->|Hne].
  - now rewrite ServerFacts.member_assign.
  - now rewrite ServerFacts.member_assign_other.
Qed.

Lemma setAdd_NoDup x xs : NoDup xs -> NoDup (setAdd x xs).
Proof.
  intros H. unfold setAdd. destruct (existsb (String.eqb x) xs) eqn:E; [exact H|].
  apply NoDup_app; [exact H|constructor; [intros []|constructor]|].
  intros y Hy [Heq|[]]. subst y.
  assert (existsb (String.eqb x) xs = true)
    by (apply existsb_exists; exists x; split; [exact Hy|apply String.eqb_refl]).
  congruence.
Qed.

Lemma setAdd_length x xs :
  1 <= length (setAdd x xs) /\ length (setAdd x xs) <= S (length xs).
Proof.
  unfold setAdd. destruct (existsb (String.eqb x) xs) eqn:E.
  - split; [|lia]. destruct xs; [discriminate|simpl; lia].
  - rewrite length_app. simpl. lia.
Qed.

Lemma updatePatterns_sound s now_ e :
  NoDup (map fst (patterns s)) ->
  Forall (fun kv => soundEntry (snd kv)) (patterns s) ->
  NoDup (map fst (patterns (updatePatterns s now_ e))) /\
  Forall (fun kv => soundEntry (snd kv)) (patterns (updatePatterns s now_ e)) /\
  member (normalizeMessage (errorMessage e)) (patterns (updatePatterns s now_ e)) <> None /\
  forall k, member k (patterns s) <> None ->
            member k (patterns (updatePatterns s now_ e)) <> None.
Proof.
  intros Hkeys Hsound. unfold updatePatterns, generateInsights. cbn [patterns].
  split; [now apply assign_keys_NoDup|]. split; [|split].
  - apply assign_values; [exact Hsound|].
    set (current := match member _ (patterns s) with Some entry => entry | None => _ end).
    assert (Hcur : NoDup (p_servers current) /\ length (p_servers current) <= p_count current).
    { unfold current.
      destruct (member (normalizeMessage (errorMessage e)) (patterns s)) as [entry|] eqn:E.
      - destruct (member_value soundEntry _ Hsound E) as (H1 & _ & H3 & _). auto.
      - cbn. split; [constructor|lia]. }
    destruct Hcur as [Hnd Hle].
    destruct (setAdd_length (serverId e) (p_servers current)) as [H1 H2].
    unfold soundEntry. cbn [p_servers p_count p_lastSeen].
    split; [now apply setAdd_NoDup|]. split; [exact H1|]. split; [lia|discriminate].
  - rewrite ServerFacts.member_assign. discriminate.
  - intros k Hk. now apply member_kept.
Qed.

(** X6. In a store grown from the empty one the pattern table has one
    entry for each key; the server set of an entry has no duplicate, at
    least one and at most [count] members; and the normalised message of
    every stored record is a key of the table. *)
Theorem pattern_table_invariant (calls : list Call) :
  let s := run calls empty in
  NoDup (map fst (patterns s)) /\
  Forall (fun kv => soundEntry (snd kv)) (patterns s) /\
  Forall (fun e => member (normalizeMessage (errorMessage e)) (patterns s) <> None)
         (errors s).
Proof.
  induction calls as [|c t IH] using rev_ind.
  - cbn. repeat split; constructor.
  - cbv zeta in *. rewrite run_snoc. set (s := run t empty) in *.
    destruct IH as (Hkeys & Hsound & Hrec).
    destruct (findSimilarError s (error c)) as [existing|] eqn:Hfind.
    + destruct (addError_merge s c Hfind) as (b & a & m & Herr & _ & -> & Hm).
      cbn [fst patterns errors]. split; [exact Hkeys|]. split; [exact Hsound|].
      rewrite Herr in Hrec. apply Forall_app in Hrec. destruct Hrec as [Hb Ha].
      inversion Ha as [|x l Hx Hl]; subst x l.
      apply Forall_app. split; [exact Hb|]. constructor; [|exact Hl].
      rewrite Hm. exact Hx.
    + rewrite (addError_insert s c Hfind). cbn [fst].
      set (s1 := withErrors s _).
      destruct (@updatePatterns_sound s1 (now c) (freshRecord c) Hkeys Hsound)
        as (H1 & H2 & H3 & H4).
      split; [exact H1|]. split; [exact H2|].
      rewrite errors_updatePatterns. unfold s1. cbn [errors withErrors].
      apply Forall_firstn. constructor; [exact H3|].
      eapply Forall_impl; [|exact Hrec]. intros e He. now apply H4.
Qed.

(** X7. The count of a pattern entry is the number of records ever
    inserted under its key, whether or not they are still stored (the list
    is trimmed, the table is not); a key under which nothing was inserted
    has no entry. *)
Theorem pattern_count_is_insertions (calls : list Call) (key : string) :
  match member key (patterns (run calls empty)) with
  | Some entry => p_count entry = insertionsOf key calls /\ 1 <= insertionsOf key calls
  | None => insertionsOf key calls = 0
  end.
Proof.
  unfold insertionsOf. induction calls as [|c t IH] using rev_ind; [reflexivity|].
  rewrite run_snoc, inserted_snoc. set (s := run t empty) in *.
  destruct (findSimilarError s (error c)) as [existing|] eqn:Hfind.
  - destruct (addError_merge s c Hfind) as (b & a & m & _ & _ & -> & _). exact IH.
  - rewrite (addError_insert s c Hfind). cbn [fst].
    unfold updatePatterns, generateInsights. cbn [patterns withErrors errorMessage freshRecord].
    cbn [filter snd callFingerprint].
    destruct (String.eqb_spec (normalizeMessage (in_errorMessage (error c))) key) as [->|Hne].
    + rewrite ServerFacts.member_assign. cbn [p_count length].
      destruct (member _ (patterns s)) as [entry|].
      * destruct IH as [IH _]. split; lia.
      * cbn [p_count]. split; lia.
    + rewrite ServerFacts.member_assign_other by exact Hne. exact IH.
Qed.

(** *** Insights *)

Lemma patternInsights_confidence ps :
  Forall (fun i => 72 <= i_confidence i <= 95 /\ i_type i = pattern)
         (patternInsights ps).
Proof.
  unfold patternInsights. induction ps as [|kv ps IH]; [constructor|].
  cbn [flat_map]. apply Forall_app. split; [|exact IH].
  destruct (_ && _) eqn:E; [|constructor].
  apply andb_true_iff in E. destruct E as [E _]. apply Nat.ltb_lt in E.
  constructor; [|constructor].
  cbn [i_confidence i_type]. split; [lia|reflexivity].
Qed.

Lemma deriveInsights_bounds s now_ :
  length (deriveInsights s now_) <= 5 /\
  Forall (fun i => 72 <= i_confidence i <= 95) (deriveInsights s now_).
Proof.
  unfold deriveInsights. split; [apply firstn_le_length|].
  apply Forall_firstn. apply Forall_app. split; [|apply Forall_app; split].
  - eapply Forall_impl; [|apply patternInsights_confidence]. intros i [H _]. exact H.
  - unfold anomalyInsights.
    destruct (10 <? _)%nat; [|constructor].
    destruct (topEntry _) as [top|]; [|constructor].
    destruct (3 <? snd top)%nat; constructor; [cbn; lia|constructor].
  - unfold recommendationInsights.
    destruct (3 <? _)%nat; constructor; [cbn; lia|constructor].
Qed.

(** X8. In a store grown from the empty one there are never more than five
    insights, and the confidence of each lies between 72 and 95. *)
Theorem insights_bounded (calls : list Call) :
  length (insights (run calls empty)) <= 5 /\
  Forall (fun i => 72 <= i_confidence i <= 95) (insights (run calls empty)).
Proof.
  induction calls as [|c t IH] using rev_ind.
  - cbn. split; [lia|constructor].
  - rewrite run_snoc. set (s := run t empty) in *.
    destruct (findSimilarError s (error c)) as [existing|] eqn:Hfind.
    + destruct (addError_merge s c Hfind) as (b & a & m & _ & _ & -> & _). exact IH.
    + rewrite (addError_insert s c Hfind). apply deriveInsights_bounds.
Qed.

Lemma patternInsights_need_two_servers ps :
  Forall (fun kv => length (p_servers (snd kv)) <= 1) ps -> patternInsights ps = [].
Proof.
  intros H. unfold patternInsights. induction H as [|kv l Hkv _ IH]; [reflexivity|].
  cbn [flat_map]. rewrite IH.
  assert (E : (1 <? length (p_servers (snd kv)))%nat = false) by (apply Nat.ltb_ge; lia).
  now rewrite E, andb_false_r.
Qed.

Lemma other_insights_are_no_pattern errs now_ :
  Forall (fun i => i_type i <> pattern)
         (anomalyInsights errs now_ ++ recommendationInsights errs).
Proof.
  apply Forall_app. split.
  - unfold anomalyInsights.
    destruct (10 <? _)%nat; [|constructor].
    destruct (topEntry _) as [top|]; [|constructor].
    destruct (3 <? snd top)%nat; constructor; [discriminate|constructor].
  - unfold recommendationInsights.
    destruct (3 <? _)%nat; constructor; [discriminate|constructor].
Qed.

(** X9. While all reports come from one serverId, no insight of type
    [pattern] is ever produced, however often an error is inserted: the
    server set of every pattern entry is that one serverId. *)
Theorem no_pattern_insight_for_one_server (calls : list Call) (sid : string)
    (Hsource : Forall (fun c => in_serverId (error c) = sid) calls) :
  Forall (fun kv => p_servers (snd kv) = [sid]) (patterns (run calls empty)) /\
  Forall (fun i => i_type i <> pattern) (insights (run calls empty)).
Proof.
  induction calls as [|c t IH] using rev_ind; [split; constructor|].
  apply Forall_app in Hsource. destruct Hsource as [Ht Hc].
  inversion Hc as [|x l Hsid _]; subst x l.
  destruct (IH Ht) as [Hps Hins]. clear IH.
  rewrite run_snoc. set (s := run t empty) in *.
  destruct (findSimilarError s (error c)) as [existing|] eqn:Hfind.
  - destruct (addError_merge s c Hfind) as (b & a & m & _ & _ & -> & _). split; assumption.
  - rewrite (addError_insert s c Hfind). cbn [fst].
    assert (Hps' : Forall (fun kv => p_servers (snd kv) = [sid])
                     (patterns (updatePatterns
                        (withErrors s (firstn (maxErrors s) (freshRecord c :: errors s)))
                        (now c) (freshRecord c)))).
    { unfold updatePatterns, generateInsights. cbn [patterns withErrors].
      apply (assign_values (fun entry => p_servers entry = [sid])); [exact Hps|].
      cbn [p_servers serverId freshRecord]. rewrite Hsid.
      destruct (member _ (patterns s)) as [entry|] eqn:E.
      - rewrite (member_value (fun entry => p_servers entry = [sid]) _ Hps E).
        unfold setAdd. cbn. now rewrite String.eqb_refl.
      - reflexivity. }
    split; [exact Hps'|].
    unfold updatePatterns at 1, generateInsights. cbn [insights].
    unfold deriveInsights. apply Forall_firstn.
    rewrite patternInsights_need_two_servers.
    + apply other_insights_are_no_pattern.
    + eapply Forall_impl; [|exact Hps']. intros kv ->. cbn. lia.
Qed.

Lemma no_pattern_insight_for_one_server_witness :
  Forall (fun c => in_serverId (error c) = "web-01") elevenFiles /\
  member "disk failure on volume number" (patterns (run elevenFiles empty)) =
    Some {| p_count := 11; p_servers := ["web-01"]; p_lastSeen := Some (At fiveHours) |} /\
  Forall (fun i => i_type i <> pattern) (insights (run elevenFiles empty)).
Proof.
  assert (H : Forall (fun c => in_serverId (error c) = "web-01") elevenFiles)
    by (repeat constructor).
  split; [exact H|]. split; [vm_compute; reflexivity|].
  exact (proj2 (no_pattern_insight_for_one_server H)).
Defined.

(** *** Search *)

Lemma Subsequence_refl {A} (l : list A) : Subsequence l l.
Proof. induction l; [apply sub_nil|now apply sub_keep]. Qed.

Lemma Subsequence_nil {A} (l : list A) : Subsequence [] l.
Proof. induction l; [apply sub_nil|now apply sub_skip]. Qed.

Lemma Subsequence_trans {A} (a b c : list A) :
  Subsequence a b -> Subsequence b c -> Subsequence a c.
Proof.
  intros Hab Hbc. revert a Hab.
  induction Hbc as [|x ys zs _ IH|x ys zs _ IH]; intros a Hab.
  - exact Hab.
  - apply sub_skip. now apply IH.
  - inversion Hab as [|x' xs' ys' Hs|x' xs' ys' Hs]; subst.
    + apply sub_skip. now apply IH.
    + apply sub_keep. now apply IH.
Qed.

Lemma Subsequence_length {A} (a b : list A) : Subsequence a b -> length a <= length b.
Proof. induction 1; simpl; lia. Qed.

Lemma Subsequence_firstn {A} n (l : list A) : Subsequence (firstn n l) l.
Proof.
  revert n. induction l as [|x l IH]; intros [|n]; simpl.
  - apply sub_nil.
  - apply sub_nil.
  - apply Subsequence_nil.
  - apply sub_keep, IH.
Qed.

Lemma filterO_subsequence {A} (p : A -> Outcome bool) l r :
  filterO p l = Returns r -> Subsequence r l.
Proof.
  revert r. induction l as [|x l IH]; simpl; intros r H.
  - injection H as <-. constructor.
  - destruct (p x) as [keep|]; [|discriminate]. simpl in H.
    destruct (filterO p l) as [l'|]; [|discriminate]. simpl in H.
    injection H as <-. destruct keep; [apply sub_keep|apply sub_skip]; now apply IH.
Qed.

Lemma applyFilters_subsequence fs :
  forall l r, applyFilters fs l = Returns r -> Subsequence r l.
Proof.
  induction fs as [|f fs IH]; simpl; intros l r H.
  - injection H as <-. apply Subsequence_refl.
  - destruct (filterO f l) as [l'|] eqn:E; [|discriminate]. simpl in H.
    apply (@Subsequence_trans _ r l' l); [apply IH; exact H|].
    apply (@filterO_subsequence _ f). exact E.
Qed.

Lemma Returns_inj {A} (a b : A) : Returns a = Returns b -> a = b.
Proof. congruence. Qed.

(** X10. Whenever [search] returns, it returns at most 100 stored records
    (at most 50 for the empty query), each of them from the store and in
    the store's order. *)
Theorem search_returns_stored_records (s : MemoryStore) (query : string)
    (results : list StoredError)
    (Hreturns : search s query = Returns results) :
  Subsequence results (errors s) /\
  length results <= 100 /\
  (query = "" -> length results <= 50).
Proof.
  unfold search in Hreturns.
  destruct (query =? "") eqn:Eq.
  - apply Returns_inj in Hreturns. subst results.
    split; [apply Subsequence_firstn|]. split; [|intros _; apply firstn_le_length].
    etransitivity; [apply firstn_le_length|lia].
  - apply String.eqb_neq in Eq.
    destruct (applyFilters _ (errors s)) as [r1|] eqn:E1; [|discriminate].
    simpl in Hreturns.
    assert (Hsub : exists r2, Returns (firstn 100 r2) = Returns results /\
                              Subsequence r2 (errors s)).
    { destruct (_ && _).
      - destruct (filterO _ (errors s)) as [r2|] eqn:E2; [|discriminate].
        exists r2. split; [exact Hreturns|].
        eapply filterO_subsequence. exact E2.
      - exists r1. split; [exact Hreturns|].
        eapply applyFilters_subsequence. exact E1. }
    destruct Hsub as (r2 & Hr & Hsub). apply Returns_inj in Hr. subst results.
    split; [|split; [apply firstn_le_length|congruence]].
    apply (@Subsequence_trans _ _ r2 _); [apply Subsequence_firstn|exact Hsub].
Qed.

Lemma search_returns_stored_records_witness :
  search (run elevenFiles empty) "failure" = Returns (errors (run elevenFiles empty)) /\
  Subsequence (errors (run elevenFiles empty)) (errors (run elevenFiles empty)) /\
  length (errors (run elevenFiles empty)) <= 100.
Proof.
  assert (H : search (run elevenFiles empty) "failure" =
              Returns (errors (run elevenFiles empty))) by (vm_compute; reflexivity).
  split; [exact H|].
  destruct (search_returns_stored_records _ _ H) as (H1 & H2 & _). split; assumption.
Defined.

Lemma filterO_pure {A} (p : A -> bool) l :
  filterO (fun x => Returns (p x)) l = Returns (filter p l).
Proof.
  induction l as [|x l IH]; simpl; [reflexivity|]. rewrite IH. simpl.
  destruct (p x); reflexivity.
Qed.

Lemma filter_twice {A} (p1 p2 : A -> bool) l :
  filter p2 (filter p1 l) = filter (fun x => p1 x && p2 x) l.
Proof.
  induction l as [|x l IH]; simpl; [reflexivity|].
  destruct (p1 x); simpl; [destruct (p2 x)|]; now rewrite IH.
Qed.

(** X11. A query with at least one of the cue words [critical], [urgent],
    [database], [db], [timeout], [new], [recent] and without [server] is
    answered from the cues alone: [search] returns the first 100 records
    that pass all the cue tests, whatever else the query says. *)
Theorem search_by_cues (s : MemoryStore) (query : string)
    (Hquery : query <> "")
    (Hplain : hasPlainCue (toLowerCase query) = true)
    (Hserver : includes (toLowerCase query) "server" = false) :
  search s query =
    Returns (firstn 100 (filter (cueTest (toLowerCase query)) (errors s))).
Proof.
  unfold search. apply String.eqb_neq in Hquery. rewrite Hquery.
  set (q := toLowerCase query) in *.
  unfold cueFilters, cueTest. rewrite Hserver. unfold hasPlainCue in Hplain.
  destruct (includes q "critical" || includes q "urgent");
  destruct (includes q "database" || includes q "db");
  destruct (includes q "timeout");
  destruct (includes q "new" || includes q "recent");
  try discriminate Hplain;
  repeat (cbn [applyFilters app]; rewrite ?filterO_pure; cbn [bindO]);
  cbn [length Nat.eqb]; rewrite ?andb_false_r; cbn [bindO];
  rewrite ?filter_twice; do 2 f_equal; apply filter_ext; intros e;
  unfold isCritical, isDatabase, mentionsTimeout, isRising;
  cbn [andb]; rewrite ?andb_true_r, ?andb_assoc; reflexivity.
Qed.

Lemma search_by_cues_witness :
  "database xyzzy" <> "" /\
  hasPlainCue (toLowerCase "database xyzzy") = true /\
  includes (toLowerCase "database xyzzy") "server" = false /\
  search (run oneSource empty) "database xyzzy" =
    Returns (firstn 1 (errors (run oneSource empty))).
Proof.
  assert (H1 : "database xyzzy" <> "") by discriminate.
  assert (H2 : hasPlainCue (toLowerCase "database xyzzy") = true) by (vm_compute; reflexivity).
  assert (H3 : includes (toLowerCase "database xyzzy") "server" = false)
    by (vm_compute; reflexivity).
  split; [exact H1|]. split; [exact H2|]. split; [exact H3|].
  rewrite (search_by_cues (run oneSource empty) H1 H2 H3). vm_compute. reflexivity.
Defined.

End StoreMoreFacts.

(** ** The HTTP interface and the registry *)

Module ApiFacts.

Import Store Server Api StoreTerms StoreMoreTerms ServerTerms ApiTerms ServerFacts.
Local Open Scope list_scope.

(** *** The counters of the registry *)

Lemma counted_nonneg r : wellCounted r -> (0 <= counted r)%Z.
Proof.
  intros ((c & Hc & Hpos) & _). unfold counted. now rewrite Hc.
Qed.

Lemma assign_wellCounted k v r :
  k <> "errorCount" -> k <> "successCount" -> k <> "warningCount" ->
  wellCounted r -> wellCounted (assign k v r).
Proof.
  intros He Hs Hw ((c & Hc & Hpos) & Hsucc & Hwarn).
  unfold wellCounted. rewrite !member_assign_other by assumption.
  split; [exists c; split; assumption|split; assumption].
Qed.

Lemma assign_counted k v r :
  k <> "errorCount" -> counted (assign k v r) = counted r.
Proof.
  intros He. unfold counted. now rewrite member_assign_other.
Qed.

Lemma registered_wellCounted agentData ws nowIso :
  let agent :=
    assign "ws" (Handle ws)
    (assign "registeredAt" (Data (JStr nowIso))
    (assign "warningCount" (Data (JNum 0))
    (assign "successCount" (Data (JNum 0))
    (assign "errorCount" (Data (JNum 0))
    (assign "status" (Data (JStr "online"))
    (map (fun kv => (fst kv, Data (snd kv))) agentData)))))) in
  wellCounted agent /\ counted agent = 0%Z.
Proof.
  intros agent. subst agent. unfold wellCounted, counted.
  repeat (rewrite ?member_assign; rewrite ?member_assign_other by discriminate).
  repeat split. exists 0%Z. split; [reflexivity|lia].
Qed.

Lemma countedAll_cons k r t :
  countedAll ((k, r) :: t) = (counted r + countedAll t)%Z.
Proof. reflexivity. Qed.

Lemma agentsSet_counted k r m :
  Forall wellCounted (map snd m) -> wellCounted r -> counted r = 0%Z ->
  Forall wellCounted (map snd (agentsSet k r m)) /\
  (countedAll (agentsSet k r m) <= countedAll m)%Z.
Proof.
  intros Hm Hr H0. induction m as [|[k' r'] t IH]; cbn [agentsSet].
  - split; [constructor; [exact Hr|constructor]|cbn; lia].
  - inversion Hm as [|x l Hx Hl]; subst.
    destruct (sameKey k' k).
    + split; [constructor; assumption|].
      rewrite !countedAll_cons. apply counted_nonneg in Hx. cbn [snd] in Hx. lia.
    + destruct (IH Hl) as [IH1 IH2].
      split; [constructor; assumption|]. rewrite !countedAll_cons. lia.
Qed.

Lemma agentsWrite_counted k f m d :
  (forall r, wellCounted r ->
             wellCounted (f r) /\ (counted (f r) <= counted r + d)%Z) ->
  (0 <= d)%Z ->
  Forall wellCounted (map snd m) ->
  Forall wellCounted (map snd (agentsWrite k f m)) /\
  (countedAll (agentsWrite k f m) <= countedAll m + d)%Z.
Proof.
  intros Hf Hd Hm. induction m as [|[k' r'] t IH]; cbn [agentsWrite].
  - split; [constructor|cbn; lia].
  - inversion Hm as [|x l Hx Hl]; subst.
    destruct (sameKey k' k).
    + destruct (Hf _ Hx) as [H1 H2].
      split; [constructor; assumption|]. rewrite !countedAll_cons.
      cbn [snd] in H2. lia.
    + destruct (IH Hl) as [IH1 IH2].
      split; [constructor; assumption|]. rewrite !countedAll_cons. lia.
Qed.

Lemma onSocketClose_counted m ws nowIso :
  Forall wellCounted (map snd m) ->
  Forall wellCounted (map snd (onSocketClose m ws nowIso)) /\
  countedAll (onSocketClose m ws nowIso) = countedAll m.
Proof.
  intros Hm. induction m as [|[k' r'] t IH]; cbn [onSocketClose].
  - split; [constructor|reflexivity].
  - inversion Hm as [|x l Hx Hl]; subst.
    destruct (holds ws r').
    + split.
      * constructor; [|assumption]. cbn [snd].
        repeat apply assign_wellCounted; (discriminate || assumption).
      * rewrite !countedAll_cons. now rewrite !assign_counted by discriminate.
    + destruct (IH Hl) as [IH1 IH2].
      split; [constructor; assumption|]. rewrite !countedAll_cons. lia.
Qed.

Lemma plusOne_number c : plusOne (Some (Data (JNum c))) = JNum (c + 1).
Proof.
  cbn [plusOne truthy]. destruct (Z.eqb_spec c 0) as [->|]; reflexivity.
Qed.

Lemma step_counted agents e :
  sparesCounters e ->
  Forall wellCounted (map snd agents) ->
  Forall wellCounted (map snd (step agents e)) /\
  (countedAll (step agents e) <= countedAll agents + Z.of_nat (errorFrames [e]))%Z.
Proof.
  intros (Hce & Hcs & Hcw) Hm.
  destruct e as [agentData ws nowIso|k nowIso|k stats nowIso|ws nowIso];
    cbn [step errorFrames filter length].
  - destruct (registered_wellCounted agentData ws nowIso) as [H1 H2].
    destruct (@agentsSet_counted (member "serverId" agentData) _ _ Hm H1 H2)
      as [H3 H4].
    split; [exact H3|]. unfold registerAgent. lia.
  - apply agentsWrite_counted; [|lia|exact Hm].
    intros r Hr. split.
    + destruct Hr as ((c & Hc & Hpos) & Hsucc & Hwarn). unfold wellCounted.
      rewrite Hc, plusOne_number.
      repeat (rewrite ?member_assign; rewrite ?member_assign_other by discriminate).
      repeat split; try assumption. exists (c + 1)%Z. split; [reflexivity|lia].
    + destruct Hr as ((c & Hc & Hpos) & _). unfold counted.
      rewrite ?Hc, ?plusOne_number.
      repeat (rewrite ?member_assign; rewrite ?member_assign_other by discriminate).
      rewrite ?Hc. lia.
  - cbn [carries] in Hce, Hcs, Hcw.
    apply agentsWrite_counted; [|lia|exact Hm].
    intros r Hr. split.
    + apply assign_wellCounted; try discriminate.
      destruct Hr as ((c & Hc & Hpos) & Hsucc & Hwarn). unfold wellCounted.
      rewrite !member_objectAssign_other by assumption.
      split; [exists c; split; assumption|split; assumption].
    + rewrite assign_counted by discriminate. unfold counted.
      rewrite member_objectAssign_other by assumption. lia.
  - destruct (@onSocketClose_counted _ ws nowIso Hm) as [H1 H2].
    split; [exact H1|]. lia.
Qed.

Lemma errorFrames_cons e events :
  errorFrames (e :: events) = (errorFrames [e] + errorFrames events)%nat.
Proof.
  unfold errorFrames. cbn [filter].
  destruct e; reflexivity.
Qed.

Lemma run_counted events : forall agents,
  Forall sparesCounters events ->
  Forall wellCounted (map snd agents) ->
  Forall wellCounted (map snd (fold_left step events agents)) /\
  (countedAll (fold_left step events agents)
   <= countedAll agents + Z.of_nat (errorFrames events))%Z.
Proof.
  induction events as [|e events IH]; intros agents Hall Hm; cbn [fold_left].
  - split; [exact Hm|]. cbn. lia.
  - inversion Hall as [|x l He Hrest]; subst.
    destruct (@step_counted _ e He Hm) as [H1 H2].
    destruct (IH _ Hrest H1) as [H3 H4].
    split; [exact H3|]. rewrite errorFrames_cons. lia.
Qed.

Lemma countedAll_nonneg agents :
  Forall wellCounted (map snd agents) -> (0 <= countedAll agents)%Z.
Proof.
  induction agents as [|[k r] t IH]; intros Hm; cbn; [lia|].
  inversion Hm as [|x l Hx Hl]; subst.
  apply counted_nonneg in Hx. specialize (IH Hl). cbn [snd] in Hx.
  change (0 <= counted r + countedAll t)%Z. lia.
Qed.

Lemma total_errorCount agents : forall a,
  Forall wellCounted (map snd agents) ->
  fold_left (fun sum s => plus sum (member "errorCount" s)) (map snd agents) (Some a)
  = Some (a + countedAll agents)%Z.
Proof.
  induction agents as [|[k r] t IH]; intros a Hm; cbn [map fold_left snd].
  - cbn. f_equal. lia.
  - inversion Hm as [|x l Hx Hl]; subst.
    destruct Hx as ((c & Hc & Hpos) & _). cbn [snd] in Hc.
    rewrite Hc. cbn [plus truthy].
    assert (E : (if negb (c =? 0)%Z then Some (a + c)%Z else Some a) = Some (a + c)%Z).
    { destruct (Z.eqb_spec c 0); cbn; [subst; f_equal; lia|reflexivity]. }
    rewrite E, IH by exact Hl. f_equal. rewrite countedAll_cons.
    unfold counted at 1. rewrite Hc. lia.
Qed.

Lemma total_zero key (agents : Agents) :
  Forall (fun r => member key r = Some (Data (JNum 0))) (map snd agents) ->
  total key (map snd agents) = Some 0%Z.
Proof.
  unfold total. induction agents as [|[k r] t IH]; intros Hm; cbn [map fold_left snd].
  - reflexivity.
  - inversion Hm as [|x l Hx Hl]; subst. cbn [snd] in Hx.
    rewrite Hx. cbn. exact (IH Hl).
Qed.

(** X12: as long as no stats frame writes the counters [errorCount],
    [successCount] and [warningCount] (the agent's frames carry [errors],
    [warnings], [success] and [totalLines]), [/api/stats] reports no
    success and no warning, whatever the stats frames said, and a number
    of errors that is at most the number of error frames received. *)
Theorem stats_totals events :
  Forall sparesCounters events ->
  let reply := statsOf (after events) in
  totalSuccess reply = Some 0%Z /\
  totalWarnings reply = Some 0%Z /\
  (exists n, totalErrors reply = Some n /\
             (0 <= n <= Z.of_nat (errorFrames events))%Z) /\
  totalServers reply = length (after events) /\
  (onlineServers reply <= totalServers reply)%nat.
Proof.
  intros Hspared.
  destruct (@run_counted events [] Hspared (Forall_nil _)) as [Hall Hsum].
  fold (after events) in Hall, Hsum.
  cbn [statsOf totalSuccess totalWarnings totalErrors totalServers onlineServers].
  repeat split.
  - apply total_zero. eapply Forall_impl; [|exact Hall]. now intros r (_ & H & _).
  - apply total_zero. eapply Forall_impl; [|exact Hall]. now intros r (_ & _ & H).
  - exists (countedAll (after events)). split.
    + unfold total. now rewrite total_errorCount.
    + split; [now apply countedAll_nonneg|]. cbn in Hsum. lia.
  - apply length_map.
  - apply filter_length_le.
Qed.

Lemma stats_totals_witness :
  let reply :=
    statsOf (after (Register webAgent plainSocket "2024-01-15T10:30:45.000Z"
                    :: traffic)) in
  totalSuccess reply = Some 0%Z /\
  totalWarnings reply = Some 0%Z /\
  (exists n, totalErrors reply = Some n /\ (0 <= n <= 2)%Z) /\
  totalServers reply = 1%nat /\
  (onlineServers reply <= totalServers reply)%nat.
Proof.
  apply (@stats_totals (Register webAgent plainSocket "2024-01-15T10:30:45.000Z"
                        :: traffic)).
  repeat constructor.
Defined.

(** *** [parseInt] on a decimal numeral *)

Lemma digit_code c : isDigit c = true -> (48 <= code c <= 57)%nat.
Proof.
  unfold isDigit, between. intros H. apply andb_true_iff in H as [H1 H2].
  apply Nat.leb_le in H1, H2. lia.
Qed.

Lemma digit_not_space c : isDigit c = true -> isSpace c = false.
Proof.
  intros H. apply digit_code in H. unfold isSpace, between.
  destruct (Nat.leb_spec 9 (code c)), (Nat.leb_spec (code c) 13),
    (Nat.eqb_spec (code c) 32), (Nat.eqb_spec (code c) 160);
    cbn; try reflexivity; lia.
Qed.

Lemma digit_is_not x c :
  isDigit x = false -> isDigit c = true -> isChar x c = false.
Proof.
  intros Hx Hc. unfold isChar. destruct (Ascii.eqb_spec x c); [|reflexivity].
  subst. congruence.
Qed.

Lemma digit_value c :
  isDigit c = true -> digitValue 10 c = Some (code c - 48)%nat.
Proof.
  intros H. unfold digitValue. rewrite H. apply digit_code in H.
  destruct (Nat.ltb_spec (code c - 48) 10); [reflexivity|lia].
Qed.

Lemma parseInt_digits s c t :
  chars s = c :: t -> Forall (fun x => isDigit x = true) (c :: t) ->
  parseInt (Some s) = Some (Z.of_nat (valueOf 10 (digitsOf 10 (chars s)))).
Proof.
  intros Hs Hall. inversion Hall as [|x l Hc Ht]; subst.
  unfold parseInt. rewrite Hs. cbn [trimStart].
  rewrite (@digit_not_space c Hc).
  rewrite (@digit_is_not "-" c), (@digit_is_not "+" c) by (reflexivity || exact Hc).
  assert (E : match c :: t with
              | z :: x :: t' =>
                  if isChar "0" z && (isChar "x" x || isChar "X" x)
                  then (16%nat, t') else (10%nat, c :: t)
              | _ => (10%nat, c :: t)
              end = (10%nat, c :: t)).
  { destruct t as [|x t']; [reflexivity|].
    inversion Ht as [|y l Hx Ht']; subst.
    rewrite (@digit_is_not "x" x), (@digit_is_not "X" x) by (reflexivity || exact Hx).
    now rewrite andb_false_r. }
  rewrite E. cbn [digitsOf]. rewrite (@digit_value c Hc).
  f_equal. lia.
Qed.

Lemma numeral_digits u :
  Forall (fun x => isDigit x = true) (chars (NilEmpty.string_of_uint u)).
Proof.
  induction u; cbn [NilEmpty.string_of_uint]; unfold chars;
    cbn [list_ascii_of_string]; constructor; (reflexivity || assumption).
Qed.

Lemma numeral_value u : forall acc,
  fold_left (fun a x => (a * 10 + x)%nat)
            (digitsOf 10 (chars (NilEmpty.string_of_uint u))) acc
  = Nat.of_uint_acc u acc.
Proof.
  unfold chars.
  induction u as [|u IH|u IH|u IH|u IH|u IH|u IH|u IH|u IH|u IH|u IH];
    intros acc; cbn [NilEmpty.string_of_uint list_ascii_of_string digitsOf];
    try match goal with
        | |- context [digitValue 10 ?c] =>
            let v := eval vm_compute in (digitValue 10 c) in
            change (digitValue 10 c) with v
        end;
    cbn [fold_left Nat.of_uint_acc]; [reflexivity|..];
    rewrite IH; f_equal; rewrite Nat.tail_mul_spec; lia.
Qed.

Lemma parseInt_numeral u :
  parseInt (Some (NilZero.string_of_uint u)) = Some (Z.of_nat (Nat.of_uint u)).
Proof.
  assert (Hs : u = Decimal.Nil \/
               exists c t, chars (NilEmpty.string_of_uint u) = c :: t /\
                           NilZero.string_of_uint u = NilEmpty.string_of_uint u).
  { destruct u; [left; reflexivity|..]; right; eexists; eexists;
      (split; [unfold chars; cbn [NilEmpty.string_of_uint list_ascii_of_string];
               reflexivity|reflexivity]). }
  destruct Hs as [->|(c & t & Hc & ->)]; [reflexivity|].
  pose proof (numeral_digits u) as Hd. rewrite Hc in Hd.
  rewrite (parseInt_digits _ Hc Hd).
  unfold valueOf, Nat.of_uint. now rewrite numeral_value.
Qed.

Lemma parseInt_decimal n : parseInt (Some (decimal n)) = Some (Z.of_nat n).
Proof.
  unfold decimal. now rewrite parseInt_numeral, Unsigned.of_to.
Qed.

(** X13: [GET /api/errors?limit=n&q=...], with [n] written in decimal,
    answers 200 with the first [n] records the search found when [n] is
    positive, and with the first 50 of them when [n] is 0. *)
Theorem errors_limit store agents process q n found :
  search store q = Returns found ->
  handleAPI store agents process
    {| pathname := "/api/errors"; limitParam := Some (decimal n);
       qParam := Some q |}
  = ([OSetHeader "Content-Type" "application/json"; OWriteHead 200 [];
      OEnd (ErrorsBody (firstn (if (n =? 0)%nat then 50 else n) found))], None).
Proof.
  intros Hfound. unfold handleAPI. cbn [pathname limitParam qParam].
  change ("/api/errors" =? "/api/servers") with false.
  change ("/api/errors" =? "/api/errors") with true. cbv iota.
  rewrite parseInt_decimal, Hfound. do 4 f_equal. f_equal.
  unfold slice0. destruct n as [|n].
  - reflexivity.
  - change (S n =? 0)%nat with false. cbv iota.
    destruct (Z.eqb_spec (Z.of_nat (S n)) 0) as [E|E]; [lia|].
    destruct (Z.ltb_spec (Z.of_nat (S n)) 0) as [L|L]; [lia|].
    now rewrite Nat2Z.id.
Qed.

Lemma errors_limit_witness :
  handleAPI (run oneSource empty) [] JNull
    {| pathname := "/api/errors"; limitParam := Some (decimal 1);
       qParam := Some "" |}
  = ([OSetHeader "Content-Type" "application/json"; OWriteHead 200 [];
      OEnd (ErrorsBody (firstn 1 (errors (run oneSource empty))))], None).
Proof.
  apply (@errors_limit (run oneSource empty) [] JNull "" 1).
  vm_compute. reflexivity.
Defined.


(** *** The registry as a map *)

Lemma sameKey_eq a b : sameKey a b = true -> a = b.
Proof.
  destruct a as [[| x | x | x | x | x]|], b as [[| y | y | y | y | y]|];
    cbn; try discriminate; try reflexivity; intros H.
  - apply Bool.eqb_prop in H. now subst.
  - apply Z.eqb_eq in H. now subst.
  - apply String.eqb_eq in H. now subst.
Qed.

Lemma keys_agentsWrite k f m : map fst (agentsWrite k f m) = map fst m.
Proof.
  induction m as [|[k' r] t IH]; cbn [agentsWrite]; [reflexivity|].
  destruct (sameKey k' k); cbn [map fst]; [reflexivity|now rewrite IH].
Qed.

Lemma keys_onSocketClose m ws nowIso :
  map fst (onSocketClose m ws nowIso) = map fst m.
Proof.
  induction m as [|[k' r] t IH]; cbn [onSocketClose]; [reflexivity|].
  destruct (holds ws r); cbn [map fst]; [reflexivity|now rewrite IH].
Qed.

Lemma keys_agentsSet k r m :
  map fst (agentsSet k r m) = map fst m \/
  (map fst (agentsSet k r m) = map fst m ++ [k] /\
   Forall (fun k' => sameKey k' k = false) (map fst m)).
Proof.
  induction m as [|[k' r'] t IH]; cbn [agentsSet].
  - right. split; [reflexivity|constructor].
  - destruct (sameKey k' k) eqn:E; cbn [map fst]; [left; reflexivity|].
    destruct IH as [IH|[IH1 IH2]].
    + left. now rewrite IH.
    + right. split; [now rewrite IH1|]. constructor; assumption.
Qed.

Lemma distinct_snoc (l : list (option Json)) k :
  ForallOrdPairs (fun a b => sameKey a b = false) l ->
  Forall (fun k' => sameKey k' k = false) l ->
  ForallOrdPairs (fun a b => sameKey a b = false) (l ++ [k]).
Proof.
  induction 1 as [|a l Ha Hl IH]; intros Hk; cbn [app].
  - constructor; constructor.
  - inversion Hk as [|x y Hx Hy]; subst. constructor.
    + apply Forall_app. split; [exact Ha|]. constructor; [exact Hx|constructor].
    + apply IH, Hy.
Qed.

(** X15: the registry never holds two records under the same [serverId]:
    any two of its keys differ, whatever frames and closes it has seen. *)
Theorem one_record_per_server events :
  ForallOrdPairs (fun a b => sameKey a b = false) (map fst (after events)).
Proof.
  unfold after.
  assert (H : ForallOrdPairs (fun a b => sameKey a b = false)
                (map fst (@nil (option Json * AgentRecord)))) by constructor.
  revert H. generalize (@nil (option Json * AgentRecord)).
  induction events as [|e events IH]; intros agents H; cbn [fold_left];
    [exact H|].
  apply IH.
  destruct e as [agentData ws nowIso|k nowIso|k stats nowIso|ws nowIso];
    cbn [step]; unfold registerAgent, countError, updateStats;
    rewrite ?keys_agentsWrite, ?keys_onSocketClose; try exact H.
  match goal with
  | |- context [agentsSet ?k ?r agents] =>
      destruct (keys_agentsSet k r agents) as [E|[E Hk]]; rewrite E
  end; [exact H|now apply distinct_snoc].
Qed.

Lemma agentsGet_agentsSet k r m :
  sameKey k k = true -> agentsGet k (agentsSet k r m) = Some r.
Proof.
  intros Hk. induction m as [|[k' r'] t IH]; cbn [agentsSet agentsGet].
  - now rewrite Hk.
  - destruct (sameKey k' k) eqn:E; cbn [agentsGet]; now rewrite E.
Qed.

Lemma agentsGet_agentsSet_other key k r m :
  sameKey k key = false -> agentsGet key (agentsSet k r m) = agentsGet key m.
Proof.
  intros Hk. induction m as [|[k' r'] t IH]; cbn [agentsSet agentsGet].
  - now rewrite Hk.
  - destruct (sameKey k' k) eqn:E; cbn [agentsGet].
    + apply sameKey_eq in E. subst k'. now rewrite Hk.
    + destruct (sameKey k' key); [reflexivity|exact IH].
Qed.

Lemma agentsGet_agentsWrite key k f m :
  agentsGet key (agentsWrite k f m)
  = if sameKey k key then option_map f (agentsGet key m) else agentsGet key m.
Proof.
  induction m as [|[k' r'] t IH]; cbn [agentsWrite agentsGet].
  - now destruct (sameKey k key).
  - destruct (sameKey k' k) eqn:E; cbn [agentsGet].
    + apply sameKey_eq in E. subst k'.
      destruct (sameKey k key); reflexivity.
    + destruct (sameKey k' key) eqn:E'; [|exact IH].
      destruct (sameKey k key) eqn:E''; [|reflexivity].
      pose proof (sameKey_eq _ _ E') as H1.
      pose proof (sameKey_eq _ _ E'') as H2. subst. congruence.
Qed.

Lemma agentsGet_onSocketClose key m ws nowIso r :
  agentsGet key m = Some r ->
  agentsGet key (onSocketClose m ws nowIso) = Some r \/
  agentsGet key (onSocketClose m ws nowIso)
  = Some (assign "lastSeen" (Data (JStr nowIso))
            (assign "status" (Data (JStr "offline")) r)).
Proof.
  induction m as [|[k' r'] t IH]; cbn [onSocketClose agentsGet]; [discriminate|].
  intros H. destruct (holds ws r'); cbn [agentsGet];
    destruct (sameKey k' key); auto.
  injection H as <-. auto.
Qed.

Lemma error_count_steps id rest : forall c a,
  existsb (registers id) rest = false ->
  existsb (carries "errorCount") rest = false ->
  (exists r, agentsGet (Some (JStr id)) a = Some r /\
             member "errorCount" r = Some (Data (JNum (Z.of_nat c)))) ->
  exists r,
    agentsGet (Some (JStr id)) (fold_left step rest a) = Some r /\
    member "errorCount" r
    = Some (Data (JNum (Z.of_nat (c + length (filter (isErrorOf id) rest))))).
Proof.
  induction rest as [|e rest IH]; intros c a Hrest Hkept (r & Hr & Hc);
    cbn [fold_left].
  - exists r. split; [exact Hr|]. cbn [filter length]. now rewrite Nat.add_0_r.
  - cbn [existsb] in Hrest, Hkept.
    apply orb_false_iff in Hrest as [He Hrest].
    apply orb_false_iff in Hkept as [Hke Hkept].
    cbn [filter].
    assert (Hnext : exists r',
              agentsGet (Some (JStr id)) (step a e) = Some r' /\
              member "errorCount" r'
              = Some (Data (JNum (Z.of_nat
                        (c + if isErrorOf id e then 1 else 0))))).
    { destruct e as [agentData' ws' nowIso'|k nowIso'|k stats nowIso'|ws' nowIso'];
        cbn [step isErrorOf registers] in *.
      - unfold registerAgent. rewrite agentsGet_agentsSet_other by exact He.
        exists r. now rewrite Nat.add_0_r.
      - unfold countError. rewrite agentsGet_agentsWrite, Hr.
        destruct (sameKey k (Some (JStr id))); cbn [option_map].
        + eexists. split; [reflexivity|]. rewrite Hc, plusOne_number.
          repeat (rewrite ?member_assign; rewrite ?member_assign_other by discriminate).
          do 3 f_equal. lia.
        + exists r. now rewrite Nat.add_0_r.
      - unfold updateStats. rewrite agentsGet_agentsWrite, Hr.
        destruct (sameKey k (Some (JStr id))); cbn [option_map].
        + eexists. split; [reflexivity|].
          rewrite member_assign_other by discriminate.
          rewrite member_objectAssign_other by exact Hke.
          now rewrite Nat.add_0_r.
        + exists r. now rewrite Nat.add_0_r.
      - destruct (@agentsGet_onSocketClose _ _ ws' nowIso' _ Hr) as [E|E]; rewrite E.
        + exists r. now rewrite Nat.add_0_r.
        + eexists. split; [reflexivity|].
          repeat (rewrite ?member_assign; rewrite ?member_assign_other by discriminate).
          now rewrite Nat.add_0_r. }
    destruct (IH _ _ Hrest Hkept Hnext) as (r' & Hr' & Hc').
    exists r'. split; [exact Hr'|]. rewrite Hc'. do 3 f_equal.
    destruct (isErrorOf id e); cbn [length]; lia.
Qed.

(** X16: the [errorCount] of a registered agent is the number of error
    frames with its [serverId] that [handleError] has counted (those the
    store took in) since it registered last, as long as no stats frame
    wrote a member [errorCount] of its own. *)
Theorem error_count_is_exact agents agentData id ws nowIso rest :
  member "serverId" agentData = Some (JStr id) ->
  existsb (registers id) rest = false ->
  existsb (carries "errorCount") rest = false ->
  exists r,
    agentsGet (Some (JStr id))
      (fold_left step rest (registerAgent agents agentData ws nowIso)) = Some r /\
    member "errorCount" r
    = Some (Data (JNum (Z.of_nat (length (filter (isErrorOf id) rest))))).
Proof.
  intros Hid Hrest Hkept.
  apply (@error_count_steps id rest 0); [exact Hrest|exact Hkept|].
  unfold registerAgent. rewrite Hid, agentsGet_agentsSet.
  - eexists. split; [reflexivity|].
    now repeat (rewrite ?member_assign; rewrite ?member_assign_other by discriminate).
  - cbn. apply String.eqb_refl.
Qed.

Lemma error_count_is_exact_witness :
  exists r,
    agentsGet (Some (JStr "web-01"))
      (fold_left step traffic
         (registerAgent [] webAgent ServerTerms.plainSocket "2024-01-15T10:30:45.000Z"))
    = Some r /\
    member "errorCount" r = Some (Data (JNum 1)).
Proof.
  apply (@error_count_is_exact [] webAgent "web-01" ServerTerms.plainSocket
           "2024-01-15T10:30:45.000Z" traffic); reflexivity.
Defined.

(** *** Closed connections *)









End ApiFacts.

Module TailerMoreFacts.

Import Tailer TailerTerms TailerMoreTerms.
Local Open Scope nat_scope.
Local Open Scope list_scope.

Lemma splitLines_nonempty s : splitLines s <> [].
Proof.
  destruct s as [|c t]; cbn [splitLines]; [discriminate|].
  destruct (isChar "010" c); [discriminate|].
  destruct (splitLines t); discriminate.
Qed.

Lemma splitLines_app a b :
  splitLines (a ++ newline :: b) = splitLines a ++ splitLines b.
Proof.
  induction a as [|c a IH]; cbn [app splitLines].
  - reflexivity.
  - destruct (isChar "010" c); [now rewrite IH|].
    rewrite IH. pose proof (splitLines_nonempty a) as Ha.
    destruct (splitLines a) as [|l ls]; [congruence|reflexivity].
Qed.

Lemma linesOf_app a b :
  linesOf (a ++ newline :: b) = linesOf a ++ linesOf b.
Proof.
  unfold linesOf. now rewrite splitLines_app, filter_app, map_app.
Qed.

Lemma linesOf_whole_app chunk rest :
  wholeLines chunk -> linesOf (chunk ++ rest) = linesOf chunk ++ linesOf rest.
Proof.
  intros (body & ->). rewrite <- app_assoc. cbn [app].
  rewrite !linesOf_app. change (linesOf []) with (@nil string).
  now rewrite app_nil_r.
Qed.

Lemma splitLines_oneLine l : oneLine l -> splitLines l = [l].
Proof.
  induction 1 as [|c l Hc Hl IH]; cbn [splitLines]; [reflexivity|].
  unfold newline in Hc. now rewrite Hc, IH.
Qed.

Lemma trimEnd_blank s :
  trimEnd s = [] -> existsb (fun c => negb (isSpace c)) s = false.
Proof.
  induction s as [|c s IH]; cbn [trimEnd existsb]; [reflexivity|].
  destruct (trimEnd s) as [|x l]; [|discriminate].
  destruct (isSpace c); [intros _; now apply IH|discriminate].
Qed.

Lemma trimEnd_not_blank s :
  trimEnd s <> [] -> existsb (fun c => negb (isSpace c)) s = true.
Proof.
  induction s as [|c s IH]; cbn [trimEnd existsb]; [congruence|].
  destruct (trimEnd s) as [|x l].
  - destruct (isSpace c); [congruence|reflexivity].
  - intros _. rewrite IH by discriminate. apply orb_true_r.
Qed.

Lemma trimStart_keeps s :
  existsb (fun c => negb (isSpace c)) (trimStart s)
  = existsb (fun c => negb (isSpace c)) s.
Proof.
  induction s as [|c s IH]; cbn [trimStart existsb]; [reflexivity|].
  destruct (isSpace c) eqn:E; [exact IH|]. cbn [existsb]. now rewrite E.
Qed.

Lemma nonBlank_exists l :
  nonBlank l = existsb (fun c => negb (isSpace c)) l.
Proof.
  unfold nonBlank, trimL. rewrite <- trimStart_keeps.
  destruct (trimEnd (trimStart l)) as [|x t] eqn:E.
  - symmetry. now apply trimEnd_blank.
  - symmetry. apply trimEnd_not_blank. congruence.
Qed.

Lemma poll_appended t content chunk :
  position t = length content -> chunk <> [] ->
  onChange t (length content) (Some (content ++ chunk))
  = ({| position := length (content ++ chunk); running := running t;
        watching := watching t; retryPending := retryPending t |},
     linesOf chunk).
Proof.
  intros Hpos Hne. unfold onChange, readNewLines. cbn [size].
  assert (Hlen : length content < length (content ++ chunk)).
  { rewrite length_app. destruct chunk; [congruence|cbn; lia]. }
  apply Nat.ltb_lt in Hlen as Hlt. rewrite Hlt.
  rewrite Hpos. apply Nat.leb_gt in Hlen. rewrite Hlen.
  now rewrite skipn_app, skipn_all, Nat.sub_diag.
Qed.

(** X19: lines of ASCII text appended in chunks that end with the end of a
    line are delivered exactly once and in order: after any number of
    polls the callback has received the non-blank lines of what was
    appended, and nothing of what the file held when the tailer started. *)
Theorem appended_lines_delivered_once content chunks :
  Forall wholeLines chunks ->
  plainBytes (concat chunks) ->
  polls (start create (Some content)) (length content) (growth content chunks)
  = ({| position := length (content ++ concat chunks); running := true;
        watching := true; retryPending := false |},
     linesOf (concat chunks)).
Proof.
  change (start create (Some content))
    with {| position := length content; running := true;
            watching := true; retryPending := false |}.
  intros Hall _. revert content.
  induction Hall as [|c rest Hc Hrest IH]; intros content;
    cbn [growth polls concat].
  - now rewrite app_nil_r.
  - rewrite poll_appended;
      [|reflexivity|destruct Hc as (body & ->); now destruct body].
    cbn [running watching retryPending size].
    rewrite IH. rewrite <- app_assoc. now rewrite linesOf_whole_app.
Qed.

Lemma appended_lines_delivered_once_witness :
  polls (start create (Some oldContent)) (length oldContent)
        (growth oldContent [newContent; chars "WARN: y" ++ [newline]])
  = ({| position := 30; running := true; watching := true; retryPending := false |},
     ["ERROR: x"%string; "WARN: y"%string]).
Proof.
  apply (@appended_lines_delivered_once oldContent
           [newContent; chars "WARN: y" ++ [newline]]).
  - constructor; [exists (chars "ERROR: x"); reflexivity|].
    constructor; [exists (chars "WARN: y"); reflexivity|constructor].
  - reflexivity.
Defined.

(** X20: a line of ASCII text written in two pieces, with a poll between
    them, is delivered as two lines: the tailer keeps no unfinished
    line. *)
Theorem split_write_gives_two_lines content a b :
  oneLine a -> oneLine b -> nonBlank a = true -> nonBlank b = true ->
  plainBytes (a ++ b) ->
  snd (polls (start create (Some content)) (length content)
         (growth content [a; b ++ [newline]]))
  = [text a; text b] /\
  linesOf (a ++ b ++ [newline]) = [text (a ++ b)].
Proof.
  intros Ha Hb Hna Hnb _.
  change (start create (Some content))
    with {| position := length content; running := true;
            watching := true; retryPending := false |}.
  assert (Ea : linesOf a = [text a]).
  { unfold linesOf. rewrite splitLines_oneLine by exact Ha. cbn [filter].
    now rewrite Hna. }
  assert (Eb : linesOf (b ++ [newline]) = [text b]).
  { rewrite linesOf_app. unfold linesOf at 1.
    rewrite splitLines_oneLine by exact Hb. cbn [filter]. now rewrite Hnb. }
  split.
  - cbn [growth polls].
    rewrite poll_appended; [|reflexivity|intros ->; discriminate].
    cbn [running watching retryPending size].
    rewrite poll_appended; [|reflexivity|now destruct b].
    cbn [snd]. now rewrite Ea, Eb.
  - rewrite app_assoc, linesOf_app. unfold linesOf at 1.
    rewrite splitLines_oneLine by (apply Forall_app; split; assumption).
    cbn [filter].
    assert (Hab : nonBlank (a ++ b) = true).
    { rewrite nonBlank_exists in *. rewrite existsb_app, Hna. reflexivity. }
    now rewrite Hab.
Qed.

Lemma split_write_gives_two_lines_witness :
  snd (polls (start create (Some oldContent)) (length oldContent)
         (growth oldContent [chars "ERROR: disk "; chars "failure" ++ [newline]]))
  = ["ERROR: disk "%string; "failure"%string] /\
  linesOf (chars "ERROR: disk " ++ chars "failure" ++ [newline])
  = ["ERROR: disk failure"%string].
Proof.
  apply (@split_write_gives_two_lines oldContent (chars "ERROR: disk ")
           (chars "failure")).
  - repeat constructor.
  - repeat constructor.
  - reflexivity.
  - reflexivity.
  - reflexivity.
Defined.

End TailerMoreFacts.

(** ** The agent's pipeline *)

Module PipelineFacts.

Import Store Server Parser Pipeline PipelineTerms TextFacts.
Local Open Scope list_scope.

(** *** Urgency *)

Lemma returns_inj {A} (a b : A) : Returns a = Returns b -> a = b.
Proof. intros H. now injection H. Qed.

Lemma calculateUrgency_bounds level msg sem u :
  calculateUrgency level msg sem = Returns u ->
  (u <= 10)%nat /\
  (level = "ERROR" -> (8 <= u)%nat) /\ (level = "WARN" -> (4 <= u)%nat).
Proof.
  unfold calculateUrgency. destruct msg as [| | |m| |]; try discriminate.
  intros H. apply returns_inj in H. subst u.
  split; [apply Nat.le_min_l|]. split; intros ->.
  - change (member "ERROR" levelScores) with (Some 8%nat). cbv iota. lia.
  - change (member "WARN" levelScores) with (Some 4%nat). cbv iota. lia.
Qed.

Lemma parse_urgency env l f parsed :
  parse env l f = Returns parsed ->
  exists u, ev_urgency parsed = Some u /\ (u <= 10)%nat /\
            (ev_level parsed = "ERROR" -> (8 <= u)%nat) /\
            (ev_level parsed = "WARN" -> (4 <= u)%nat).
Proof.
  unfold parse.
  destruct (extractSemantics _) as [sem|]; cbn [bindO]; [|discriminate].
  destruct (calculateUrgency _ _ _) as [u|] eqn:Eu; cbn [bindO]; [|discriminate].
  intros H. apply returns_inj in H. subst parsed. cbn [ev_urgency ev_level].
  exists u. split; [reflexivity|]. exact (calculateUrgency_bounds _ _ _ Eu).
Qed.

(** X21: the urgency threshold of [sendError] never holds an error back:
    a line that [parse] gives the level ERROR has an urgency of 8 to 10,
    and its frame is written whenever the socket is open. *)
Theorem error_lines_are_always_sent env c hostname stats a parsed :
  parse env (line a) (logFile a) = Returns parsed ->
  ev_level parsed = "ERROR" ->
  connected a = true ->
  exists report u,
    In (ErrorMessage report) (snd (processLogLine env c hostname stats a)) /\
    er_errorMessage report = ev_message parsed /\
    er_urgency report = Some u /\ (8 <= u <= 10)%nat.
Proof.
  intros Hparse Hlevel Hopen.
  destruct (parse_urgency _ _ _ Hparse) as (u & Hu & Hmax & Herr & _).
  specialize (Herr Hlevel).
  unfold processLogLine. rewrite Hparse, Hlevel.
  change ("ERROR" =? "ERROR") with true. cbv iota beta.
  unfold sendError, send. rewrite Hu, Hopen.
  destruct (Nat.ltb_spec u 5) as [L|L]; [lia|].
  eexists. exists u. cbn [snd]. split; [apply in_or_app; left; left; reflexivity|].
  cbn [er_errorMessage er_urgency]. repeat split; assumption.
Qed.

Lemma error_lines_are_always_sent_witness :
  exists report u,
    In (ErrorMessage report)
       (snd (processLogLine fallbackEnvironment everySecond "host-1" noStats
               (arrive "disk failure"))) /\
    er_errorMessage report = ev_message failureEvent /\
    er_urgency report = Some u /\ (8 <= u <= 10)%nat.
Proof.
  apply (@error_lines_are_always_sent fallbackEnvironment everySecond "host-1"
           noStats (arrive "disk failure") failureEvent);
    vm_compute; reflexivity.
Defined.

(** *** Counters *)

Lemma processLogLine_counts env c hostname stats a :
  let stats' := fst (processLogLine env c hostname stats a) in
  st_totalLines stats' = (st_totalLines stats + 1)%Z /\
  (st_errors stats' + st_warnings stats' + st_success stats'
   = st_errors stats + st_warnings stats + st_success stats
     + (if throws env a then 0 else 1))%Z.
Proof.
  unfold processLogLine, throws.
  destruct (parse env (line a) (logFile a)) as [parsed|]; cbn [fst].
  - destruct (ev_level parsed =? "ERROR"); [|destruct (ev_level parsed =? "WARN")];
      cbn [fst st_totalLines st_errors st_warnings st_success]; split; lia.
  - cbn [st_totalLines st_errors st_warnings st_success]. split; lia.
Qed.

Lemma processAll_counts env c hostname arrivals : forall stats,
  let stats' := fst (processAll env c hostname stats arrivals) in
  st_totalLines stats' = (st_totalLines stats + Z.of_nat (length arrivals))%Z /\
  (st_errors stats' + st_warnings stats' + st_success stats'
   + Z.of_nat (length (filter (throws env) arrivals))
   = st_errors stats + st_warnings stats + st_success stats
     + Z.of_nat (length arrivals))%Z.
Proof.
  induction arrivals as [|a rest IH]; intros stats; cbn [processAll].
  - cbn [fst length filter]. split; lia.
  - pose proof (processLogLine_counts env c hostname stats a) as H1.
    destruct (processLogLine env c hostname stats a) as [stats1 sent1].
    specialize (IH stats1).
    destruct (processAll env c hostname stats1 rest) as [stats2 sent2].
    cbn [fst] in *. destruct H1 as [H1 H1'], IH as [IH IH'].
    cbn [filter length]. destruct (throws env a); cbn [length]; split; lia.
Qed.

(** X22: every line handed over is counted in [totalLines], and in exactly
    one of [errors], [warnings] and [success] unless [parse] threw on it:
    the three classes add up to the lines on which [parse] returned. *)
Theorem every_line_is_counted env c hostname arrivals :
  let stats := fst (processAll env c hostname noStats arrivals) in
  st_totalLines stats = Z.of_nat (length arrivals) /\
  (st_errors stats + st_warnings stats + st_success stats
   + Z.of_nat (length (filter (throws env) arrivals))
   = st_totalLines stats)%Z.
Proof.
  destruct (processAll_counts env c hostname arrivals noStats) as [H1 H2].
  cbn [noStats st_totalLines st_errors st_warnings st_success] in *.
  split; lia.
Qed.

(** *** Frames *)

Lemma processLogLine_whileOpen env c hostname stats a :
  fst (processLogLine env c hostname stats (whileOpen a))
  = fst (processLogLine env c hostname stats a).
Proof.
  unfold processLogLine. cbn [whileOpen line logFile].
  destruct (parse env (line a) (logFile a)) as [parsed|]; [|reflexivity].
  destruct (ev_level parsed =? "ERROR"); [|destruct (ev_level parsed =? "WARN")];
    reflexivity.
Qed.

Lemma processLogLine_closed env c hostname stats a :
  connected a = false -> snd (processLogLine env c hostname stats a) = [].
Proof.
  intros Hc. unfold processLogLine.
  destruct (parse env (line a) (logFile a)) as [parsed|]; [|reflexivity].
  assert (Hs : forall s, sendStats env c hostname s a = [])
    by (intros s; unfold sendStats, send; now rewrite Hc).
  assert (He : sendError c hostname parsed a = []).
  { unfold sendError, send. rewrite Hc. now destruct (match ev_urgency parsed with
                                                      | Some u => (u <? 5)%nat
                                                      | None => false
                                                      end). }
  destruct (ev_level parsed =? "ERROR"); [|destruct (ev_level parsed =? "WARN")];
    cbn [snd]; rewrite ?He, ?Hs; now destruct (isDue _ _).
Qed.

(** X23: what is found while the socket is not open is never sent: no frame
    is written or kept for later, while the counters advance exactly as
    they do with an open socket. *)
Theorem nothing_is_queued env c hostname arrivals : forall stats,
  Forall (fun a => connected a = false) arrivals ->
  snd (processAll env c hostname stats arrivals) = [] /\
  fst (processAll env c hostname stats arrivals)
  = fst (processAll env c hostname stats (map whileOpen arrivals)).
Proof.
  induction arrivals as [|a rest IH]; intros stats Hall; cbn [processAll map].
  - split; reflexivity.
  - inversion Hall as [|x l Ha Hrest]; subst.
    pose proof (processLogLine_closed env c hostname stats a Ha) as Hsent.
    pose proof (processLogLine_whileOpen env c hostname stats a) as Hsame.
    destruct (processLogLine env c hostname stats a) as [stats1 sent1].
    destruct (processLogLine env c hostname stats (whileOpen a)) as [stats1' sent1'].
    cbn [fst snd] in *. subst stats1' sent1.
    destruct (IH stats1 Hrest) as [IH1 IH2].
    destruct (processAll env c hostname stats1 rest) as [stats2 sent2].
    destruct (processAll env c hostname stats1 (map whileOpen rest)) as [stats2' sent2'].
    cbn [fst snd] in *. now subst.
Qed.

Lemma nothing_is_queued_witness :
  snd (processAll fallbackEnvironment everySecond "host-1" noStats
         (map whileClosed fiveLines)) = [] /\
  fst (processAll fallbackEnvironment everySecond "host-1" noStats
         (map whileClosed fiveLines))
  = fst (processAll fallbackEnvironment everySecond "host-1" noStats
           (map whileOpen (map whileClosed fiveLines))).
Proof.
  apply (@nothing_is_queued fallbackEnvironment everySecond "host-1"
           (map whileClosed fiveLines) noStats).
  repeat constructor.
Defined.

(** *** Statistics frames *)

Lemma due_step t k :
  (((t + 1) / k - t / k)%nat
   = if isDue (Z.of_nat (t + 1)) k then 1 else 0)%nat.
Proof.
  destruct k as [|k]; [reflexivity|]. unfold isDue.
  set (n := S k).
  assert (Hn : (0 < n)%nat) by (subst n; lia).
  rewrite <- Nat2Z.inj_mod.
  pose proof (Nat.div_mod_eq t n) as Ht.
  pose proof (Nat.mod_upper_bound t n ltac:(lia)) as Hr.
  pose proof (Nat.div_mod_eq (t + 1) n) as Ht1.
  pose proof (Nat.mod_upper_bound (t + 1) n ltac:(lia)) as Hr1.
  destruct (Z.eqb_spec (Z.of_nat ((t + 1) mod n)) 0) as [E|E].
  - assert (E' : ((t + 1) mod n = 0)%nat) by lia. nia.
  - assert (E' : ((t + 1) mod n <> 0)%nat) by lia. nia.
Qed.

Lemma processLogLine_stats env c hostname stats a t :
  st_totalLines stats = Z.of_nat t ->
  (countStats (snd (processLogLine env c hostname stats a))
   <= (t + 1) / statsInterval c - t / statsInterval c)%nat /\
  (connected a = true -> throws env a = false ->
   countStats (snd (processLogLine env c hostname stats a))
   = ((t + 1) / statsInterval c - t / statsInterval c)%nat).
Proof.
  intros Ht. rewrite due_step. unfold processLogLine, throws.
  destruct (parse env (line a) (logFile a)) as [parsed|]; cbn [snd].
  - assert (He : countStats (sendError c hostname parsed a) = 0%nat).
    { unfold sendError, send.
      destruct (match ev_urgency parsed with
                | Some u => (u <? 5)%nat
                | None => false
                end); [reflexivity|].
      now destruct (connected a). }
    assert (Hcount : forall sent s,
              countStats sent = 0%nat ->
              (countStats (sent ++ if isDue (Z.of_nat (t + 1)) (statsInterval c)
                                   then sendStats env c hostname s a else [])
               <= if isDue (Z.of_nat (t + 1)) (statsInterval c) then 1 else 0)%nat /\
              (connected a = true ->
               countStats (sent ++ if isDue (Z.of_nat (t + 1)) (statsInterval c)
                                   then sendStats env c hostname s a else [])
               = if isDue (Z.of_nat (t + 1)) (statsInterval c) then 1 else 0)%nat).
    { intros sent s Hsent. unfold countStats in *.
      rewrite filter_app, length_app, Hsent.
      destruct (isDue (Z.of_nat (t + 1)) (statsInterval c)); [|split; reflexivity].
      unfold sendStats, send. destruct (connected a); cbn; split;
        (lia || discriminate || reflexivity). }
    replace (Z.of_nat (t + 1)) with (st_totalLines stats + 1)%Z in * by lia.
    destruct (ev_level parsed =? "ERROR"); [|destruct (ev_level parsed =? "WARN")];
      cbn [snd st_totalLines];
      match goal with
      | |- context [countStats (?sent ++ if _ then sendStats _ _ _ ?s _ else [])] =>
          destruct (Hcount sent s ltac:(assumption || reflexivity)) as [H1 H2]
      end; (split; [exact H1|intros Hc _; exact (H2 Hc)]).
  - split; [cbn; lia|discriminate].
Qed.

Lemma processAll_stats env c hostname arrivals : forall stats t,
  st_totalLines stats = Z.of_nat t ->
  (countStats (snd (processAll env c hostname stats arrivals))
   <= (t + length arrivals) / statsInterval c - t / statsInterval c)%nat /\
  (Forall (fun a => connected a = true /\ throws env a = false) arrivals ->
   countStats (snd (processAll env c hostname stats arrivals))
   = ((t + length arrivals) / statsInterval c - t / statsInterval c)%nat).
Proof.
  induction arrivals as [|a rest IH]; intros stats t Ht; cbn [processAll length].
  - rewrite Nat.add_0_r, Nat.sub_diag. split; reflexivity.
  - destruct (@processLogLine_stats env c hostname stats a t Ht) as [H1 H2].
    pose proof (processLogLine_counts env c hostname stats a) as [Hc _].
    destruct (processLogLine env c hostname stats a) as [stats1 sent1].
    cbn [fst snd] in *.
    assert (Ht1 : st_totalLines stats1 = Z.of_nat (t + 1)) by lia.
    destruct (IH stats1 (t + 1)%nat Ht1) as [IH1 IH2].
    destruct (processAll env c hostname stats1 rest) as [stats2 sent2].
    cbn [snd] in *. unfold countStats in *.
    rewrite filter_app, length_app.
    replace (t + S (length rest))%nat with (t + 1 + length rest)%nat by lia.
    assert (M1 : (t / statsInterval c <= (t + 1) / statsInterval c)%nat).
    { destruct (statsInterval c); [reflexivity|].
      apply Nat.Div0.div_le_mono. lia. }
    assert (M2 : ((t + 1) / statsInterval c
                  <= (t + 1 + length rest) / statsInterval c)%nat).
    { destruct (statsInterval c); [reflexivity|].
      apply Nat.Div0.div_le_mono. lia. }
    split; [lia|].
    intros Hall. inversion Hall as [|x l [Hx1 Hx2] Hl]; subst.
    rewrite (H2 Hx1 Hx2), (IH2 Hl). lia.
Qed.

(** X24: a statistics frame is written after every [statsInterval]-th
    line, so after [n] lines at most [n / statsInterval] of them were
    written, and exactly that many when the socket was open throughout
    and [parse] threw on no line; with [statsInterval] 0 none is ever
    written. *)
Theorem stats_frames_are_periodic env c hostname arrivals :
  let frames := snd (processAll env c hostname noStats arrivals) in
  (countStats frames <= length arrivals / statsInterval c)%nat /\
  (statsInterval c = 0%nat -> countStats frames = 0%nat) /\
  (Forall (fun a => connected a = true /\ throws env a = false) arrivals ->
   countStats frames = (length arrivals / statsInterval c)%nat).
Proof.
  destruct (@processAll_stats env c hostname arrivals noStats 0 eq_refl) as [H1 H2].
  cbn [Nat.add] in *.
  assert (H0 : (0 / statsInterval c = 0)%nat)
    by (destruct (statsInterval c); reflexivity).
  rewrite H0, Nat.sub_0_r in *.
  split; [exact H1|]. split; [|exact H2].
  intros Hk. rewrite Hk in H1. cbn in H1. lia.
Qed.

Lemma stats_frames_are_periodic_witness :
  countStats (snd (processAll fallbackEnvironment everySecond "host-1" noStats
                     fiveLines)) = 2%nat.
Proof.
  apply (proj2 (proj2 (@stats_frames_are_periodic fallbackEnvironment everySecond
                         "host-1" fiveLines))).
  repeat constructor.
Defined.

(** *** Log types *)

Lemma untilSlash_name name rest :
  Forall (fun ch => isChar "/" ch = false) name ->
  untilSlash (name ++ "/"%char :: rest) = name.
Proof.
  induction 1 as [|ch name Hch Hname IH]; cbn [app untilSlash].
  - reflexivity.
  - now rewrite Hch, IH.
Qed.

Lemma untilSlash_whole name :
  Forall (fun ch => isChar "/" ch = false) name -> untilSlash name = name.
Proof.
  induction 1 as [|ch name Hch Hname IH]; cbn [untilSlash]; [reflexivity|].
  now rewrite Hch, IH.
Qed.

Lemma dropSlashes_name name :
  Forall (fun ch => isChar "/" ch = false) name -> dropSlashes name = name.
Proof.
  destruct 1 as [|ch name Hch Hname]; cbn [dropSlashes]; [reflexivity|].
  now rewrite Hch.
Qed.

Lemma basename_of_path dir name :
  plainName name -> basename (dir ++ "/" ++ name) = name.
Proof.
  intros [Hne Hall]. unfold basename.
  rewrite !chars_append. change (chars "/") with ["/"%char].
  rewrite rev_app_distr. cbn [app rev]. rewrite <- app_assoc. cbn [app].
  assert (Hrev : Forall (fun ch => isChar "/" ch = false) (rev (chars name)))
    by now apply Forall_rev.
  destruct (rev (chars name)) as [|ch t] eqn:E.
  - exfalso. apply Hne. apply (f_equal (@rev ascii)) in E.
    rewrite rev_involutive in E. cbn in E.
    rewrite <- (text_of_chars name), E. reflexivity.
  - cbn [app dropSlashes]. inversion Hrev as [|x l Hch Ht]; subst.
    rewrite Hch. change (ch :: t ++ "/"%char :: rev (chars dir))
      with ((ch :: t) ++ "/"%char :: rev (chars dir)).
    rewrite untilSlash_name by exact Hrev.
    rewrite <- E, rev_involutive. apply text_of_chars.
Qed.

Lemma basename_of_name name : plainName name -> basename name = name.
Proof.
  intros [Hne Hall]. unfold basename.
  assert (Hrev : Forall (fun ch => isChar "/" ch = false) (rev (chars name)))
    by now apply Forall_rev.
  rewrite dropSlashes_name, untilSlash_whole by exact Hrev.
  rewrite rev_involutive. apply text_of_chars.
Qed.

(** X25: [detectLogType] reads the file name only: the directories of the
    path play no part, so a file gets the type its bare name would get. *)
Theorem detectLogType_ignores_directories dir name :
  plainName name ->
  detectLogType (dir ++ "/" ++ name) = detectLogType name.
Proof.
  intros Hname. unfold detectLogType.
  now rewrite basename_of_path, basename_of_name.
Qed.

Lemma detectLogType_ignores_directories_witness :
  detectLogType ("/var/log/nginx" ++ "/" ++ "error.log") = detectLogType "error.log".
Proof.
  apply (@detectLogType_ignores_directories "/var/log/nginx" "error.log").
  split; [discriminate|repeat constructor].
Defined.

(** X26: whatever files exist, [discoverLogFiles] gives the type [syslog]
    to [/var/log/syslog] and [/var/log/messages] and the type [auto] to
    every other file it finds: the error logs of nginx and Apache are not
    given the types [nginx] and [apache]. *)
Theorem discovered_files_are_syslog_or_auto existsSync :
  Forall (fun f => In (path f) commonPaths /\
                   existsSync (path f) = true /\
                   type f = if isSyslogPath (path f) then syslog else auto)
         (discoverLogFiles existsSync).
Proof.
  unfold discoverLogFiles, commonPaths. cbn [filter].
  destruct (existsSync "/var/log/syslog") eqn:E1;
  destruct (existsSync "/var/log/messages") eqn:E2;
  destruct (existsSync "/var/log/nginx/error.log") eqn:E3;
  destruct (existsSync "/var/log/apache2/error.log") eqn:E4;
  destruct (existsSync "/var/log/auth.log") eqn:E5;
  cbn [map];
  repeat (apply Forall_cons || apply Forall_nil);
  cbn [path type];
  (split; [cbn; tauto|split; [assumption|vm_compute; reflexivity]]).
Qed.

End PipelineFacts.

(** ** The parsers of the line formats *)

Module FormatsFacts.

Import Store Parser Pipeline Formats FormatsTerms TextFacts.
Local Open Scope list_scope.

(** *** Messages are strings *)

Lemma parseGeneric_message env line f :
  exists m, ev_message (Formats.parseGeneric env line f) = JStr m.
Proof.
  unfold Formats.parseGeneric.
  destruct (bracketedStampLine (chars line)) as [[[? ?] ?]|];
    [eexists; reflexivity|].
  destruct (isoStampLine (chars line)) as [[[? ?] ?]|]; [eexists; reflexivity|].
  destruct (levelLine (chars line)) as [[? ?]|]; eexists; reflexivity.
Qed.

Lemma format_message env t line f :
  t <> json -> t <> auto ->
  exists m, ev_message (parsers (withFormats env) t line f) = JStr m.
Proof.
  intros Hj Ha. destruct t; try congruence.
  - change (parsers (withFormats env) nginx) with (Formats.parseNginx env).
    unfold Formats.parseNginx.
    destruct (nginxLine (chars line)) as [[[? ?] ?]|];
      [eexists; reflexivity|apply parseGeneric_message].
  - change (parsers (withFormats env) apache) with (Formats.parseApache env).
    unfold Formats.parseApache.
    destruct (apacheLine (chars line)) as [[[? ?] ?]|];
      [eexists; reflexivity|apply parseGeneric_message].
  - change (parsers (withFormats env) syslog) with (Formats.parseSyslog env).
    unfold Formats.parseSyslog.
    destruct (syslogLine (chars line)) as [[[[? ?] ?] ?]|];
      [eexists; reflexivity|apply parseGeneric_message].
Qed.

Lemma parseJSON_rejected env line f :
  JSON_parse env line = None ->
  parseJSON (withFormats env) line f = Formats.parseGeneric env line f.
Proof.
  intros H. unfold parseJSON. cbn [withFormats JSON_parse]. now rewrite H.
Qed.

(** X27: with the parsers of the line formats, [parse] returns on every
    line unless it hands the line to [parseJSON] and [JSON.parse] accepts
    it: for a file of type nginx, apache or syslog, and for a file of type
    auto whose line does not begin with a brace, no line makes it throw. *)
Theorem parse_returns_unless_json env line f :
  (usesJSON line f = true -> JSON_parse env line = None) ->
  exists parsed, parse (withFormats env) line f = Returns parsed.
Proof.
  intros H.
  assert (Hm : exists m,
            ev_message (parsers (withFormats env) (type f) line f) = JStr m).
  { unfold usesJSON in H. destruct (type f) eqn:Et;
      try (apply format_message; discriminate).
    - cbn [parsers]. rewrite parseJSON_rejected by now apply H.
      apply parseGeneric_message.
    - cbn [parsers]. unfold parseAuto.
      destruct (startsWith (chars "{") (chars (trim line))).
      + rewrite parseJSON_rejected by now apply H. apply parseGeneric_message.
      + destruct (includes line "nginx");
          [apply (@format_message env nginx); discriminate|].
        destruct (includes line "apache");
          [apply (@format_message env apache); discriminate|].
        destruct (Parser.isSyslogFormat (withFormats env) line);
          [apply (@format_message env syslog); discriminate|].
        cbn [withFormats Parser.parseGeneric]. apply parseGeneric_message. }
  destruct Hm as [m Hm].
  destruct (ParserFacts.parse_returns_on_string_message _ _ _ Hm) as (e & He & _).
  now exists e.
Qed.

Lemma parse_returns_unless_json_witness :
  exists parsed,
    parse (withFormats ParserTerms.stubEnvironment)
      "2025/08/01 10:30:15 [error] 12345#0: *67890 connect() failed" nginxFile
    = Returns parsed.
Proof.
  apply parse_returns_unless_json. discriminate.
Defined.

(** *** What [parseGeneric] returns *)

Lemma upper_of_lower c :
  isLower (lowerChar c) = true -> upperChar c = upperChar (lowerChar c).
Proof. NormalizeTerms.each_char c. Qed.

Lemma upper_of_capital k : isUpper k = true -> upperChar (lowerChar k) = k.
Proof. NormalizeTerms.each_char k. Qed.

Lemma lower_of_capital k : isUpper k = true -> isLower (lowerChar k) = true.
Proof. NormalizeTerms.each_char k. Qed.

Lemma capitals_of_word (w k : list ascii) :
  forallb isUpper k = true -> lower w = lower k -> map upperChar w = k.
Proof.
  revert w. induction k as [|x k IH]; intros [|c w] Hk Hw; cbn in Hw;
    try discriminate; [reflexivity|].
  cbn [forallb] in Hk. apply andb_true_iff in Hk as [Hx Hk].
  injection Hw as Hc Hw. cbn [map]. f_equal; [|now apply IH].
  rewrite upper_of_lower by (rewrite Hc; now apply lower_of_capital).
  rewrite Hc. now apply upper_of_capital.
Qed.

Lemma startsWith_firstn p s :
  startsWith p s = true -> firstn (length p) s = p.
Proof.
  revert s. induction p as [|a p IH]; intros [|b s] H; cbn in *;
    try discriminate; [reflexivity|reflexivity|].
  apply andb_true_iff in H as [Hab H]. apply Ascii.eqb_eq in Hab. subst b.
  f_equal. now apply IH.
Qed.

Lemma levelWordAt_word words s w r :
  levelWordAt words s = Some (w, r) ->
  exists k, In k words /\ lower w = lower (chars k) /\ s = w ++ r.
Proof.
  induction words as [|k words IH]; cbn [levelWordAt]; [discriminate|].
  destruct (startsWith (lower (chars k)) (lower s)) eqn:E.
  - intros H. injection H as <- <-. exists k. split; [now left|].
    split; [|symmetry; apply firstn_skipn].
    apply startsWith_firstn in E. unfold lower in *.
    rewrite length_map in E. rewrite <- firstn_map.
    assert (Hlen : String.length k = length (chars k)).
    { clear. induction k as [|c k IH]; cbn; [reflexivity|now rewrite IH]. }
    now rewrite Hlen.
  - intros H. destruct (IH H) as (k' & Hin & Hrest). exists k'.
    split; [now right|exact Hrest].
Qed.

Lemma levelOf_word s w r :
  levelWordAt levelWords s = Some (w, r) ->
  In (levelOf w) ["ERROR"; "WARN"; "INFO"; "DEBUG"].
Proof.
  intros H. destruct (levelWordAt_word _ _ H) as (k & Hin & Hw & _).
  assert (Hup : toUpperCase (text w) = k /\ k <> "").
  { unfold toUpperCase. rewrite chars_of_text.
    cbn in Hin.
    destruct Hin as [<-|[<-|[<-|[<-|[<-|[<-|[]]]]]]];
      (split; [|discriminate]);
      (pose proof (fun Hk => @capitals_of_word w _ Hk Hw) as Hc;
       rewrite Hc by reflexivity; reflexivity). }
  destruct Hup as [Hup Hne].
  assert (Hw' : text w <> "").
  { intros E. apply Hne. rewrite <- Hup, E. reflexivity. }
  unfold levelOf, normalizeLevel. cbn [truthy].
  destruct (String.eqb_spec (text w) "") as [E|_]; [congruence|]. cbn [negb].
  rewrite Hup. cbn in Hin.
  destruct Hin as [<-|[<-|[<-|[<-|[<-|[<-|[]]]]]]]; cbn; tauto.
Qed.

Lemma trim_twice m : trim (trim m) = trim m.
Proof.
  unfold trim. rewrite chars_of_text. f_equal.
  apply NormalizeFacts.trimL_idempotent.
Qed.

(** X28: whatever the line, the event [parseGeneric] returns has one of
    the levels ERROR, WARN, INFO and DEBUG and a message that is a string
    without white space at either end; DEBUG is never the level of a line
    no expression matched. *)
Theorem generic_events_are_normal env line f :
  let e := Formats.parseGeneric env line f in
  In (ev_level e) ["ERROR"; "WARN"; "INFO"; "DEBUG"] /\
  (exists m, ev_message e = JStr m /\ trim m = m) /\
  ev_originalLine e = line /\
  (ev_parser e = "generic" \/
   ev_parser e = "fallback" /\ ev_level e <> "DEBUG" /\
   ev_message e = JStr (trim line)).
Proof.
  unfold Formats.parseGeneric.
  destruct (bracketedStampLine (chars line)) as [[[stamp w] g]|] eqn:E1.
  { unfold bracketedStampLine, andThen in E1.
    destruct (bracketed (chars line)) as [[s1 r]|]; [|discriminate].
    destruct (levelWordAt levelWords (trimStart r)) as [[w1 r1]|] eqn:Ew;
      [|discriminate].
    destruct (separated 1 r1); [|discriminate]. injection E1 as Ea Eb Ec; subst.
    cbn [event ev_level ev_message ev_originalLine ev_parser].
    split; [exact (levelOf_word _ Ew)|].
    split; [eexists; split; [reflexivity|apply trim_twice]|].
    split; [reflexivity|now left]. }
  destruct (isoStampLine (chars line)) as [[[stamp w] g]|] eqn:E2.
  { unfold isoStampLine, andThen in E2.
    destruct (isoStamp (chars line)) as [[s1 r]|]; [|discriminate].
    destruct (some isSpace r) as [[sp r0]|]; [|discriminate].
    destruct (levelWordAt levelWords r0) as [[w1 r1]|] eqn:Ew; [|discriminate].
    destruct (separated 0 r1); [|discriminate]. injection E2 as Ea Eb Ec; subst.
    cbn [event ev_level ev_message ev_originalLine ev_parser].
    split; [exact (levelOf_word _ Ew)|].
    split; [eexists; split; [reflexivity|apply trim_twice]|].
    split; [reflexivity|now left]. }
  destruct (levelLine (chars line)) as [[w g]|] eqn:E3.
  { unfold levelLine, andThen in E3.
    destruct (levelWordAt levelWords (chars line)) as [[w1 r1]|] eqn:Ew;
      [|discriminate].
    destruct (separated 1 r1); [|discriminate]. injection E3 as Ea Eb; subst.
    cbn [event ev_level ev_message ev_originalLine ev_parser].
    split; [exact (levelOf_word _ Ew)|].
    split; [eexists; split; [reflexivity|apply trim_twice]|].
    split; [reflexivity|now left]. }
  cbn [event ev_level ev_message ev_originalLine ev_parser].
  assert (Hl : detectLevelFromContent line = "ERROR" \/
               detectLevelFromContent line = "WARN" \/
               detectLevelFromContent line = "INFO").
  { unfold detectLevelFromContent.
    destruct (includesAny _ _); [now left|].
    destruct (includesAny _ _); [right; now left|right; now right]. }
  split; [cbn; destruct Hl as [-> | [-> | ->]]; tauto|].
  split; [eexists; split; [reflexivity|apply trim_twice]|].
  split; [reflexivity|]. right. split; [reflexivity|]. split; [|reflexivity].
  destruct Hl as [-> | [-> | ->]]; discriminate.
Qed.

(** *** Lines the expressions were written for *)

Lemma run_all p l r :
  Forall (fun c => p c = true) l ->
  match r with [] => True | c :: _ => p c = false end ->
  run p (l ++ r) = length l.
Proof.
  intros Hl Hr. induction Hl as [|c l Hc Hl IH]; cbn [app run length].
  - destruct r as [|c r]; [reflexivity|]. cbn [run]. now rewrite Hr.
  - now rewrite Hc, IH.
Qed.

Lemma some_all p l r :
  l <> [] -> Forall (fun c => p c = true) l ->
  match r with [] => True | c :: _ => p c = false end ->
  some p (l ++ r) = Some (l, r).
Proof.
  intros Hne Hl Hr. unfold some. rewrite (@run_all p l r Hl Hr).
  destruct l as [|c l]; [congruence|]. cbn [length].
  change (S (length l)) with (length (c :: l)).
  now rewrite firstn_app, firstn_all, Nat.sub_diag, skipn_app, skipn_all,
    Nat.sub_diag, app_nil_r.
Qed.

Lemma rest_all g :
  g <> [] -> Forall (fun c => notLineTerminator c = true) g -> rest g = Some g.
Proof.
  intros Hne Hg. unfold rest.
  rewrite <- (app_nil_r g) at 1. now rewrite some_all.
Qed.

Lemma expect_literal p r : expect p (chars p ++ r) = Some r.
Proof.
  unfold expect. rewrite startsWith_app.
  assert (Hlen : String.length p = length (chars p)).
  { clear. induction p as [|c p IH]; cbn; [reflexivity|now rewrite IH]. }
  now rewrite Hlen, skipn_app, skipn_all, Nat.sub_diag.
Qed.

Lemma levelWordAt_literal k r :
  In k levelWords -> levelWordAt levelWords (chars k ++ r) = Some (chars k, r).
Proof.
  intros Hin. cbn in Hin.
  destruct Hin as [<- | [<- | [<- | [<- | [<- | [<- | []]]]]]]; reflexivity.
Qed.

Lemma separated_message m :
  plainMessage m -> separated 1 (chars ": " ++ chars m) = Some (chars m).
Proof.
  intros ((c & t & Hm & Hc) & Hline & _). unfold separated.
  assert (Hrun : run isSeparator (chars ": " ++ chars m) = 2%nat).
  { rewrite Hm. cbn. now rewrite Hc. }
  rewrite Hrun. cbn [giveBack Nat.ltb Nat.leb]. cbn [chars list_ascii_of_string app skipn].
  rewrite rest_all; [reflexivity|rewrite Hm; discriminate|exact Hline].
Qed.

(** X29: a line [LEVEL: message], with one of the six level words and a
    message that begins with no separator, holds no line break and has no
    white space at its ends, is read back as it was written: the event
    has that message, the parser name [generic], the time of the clock,
    and the level the table of [normalizeLevel] gives the word (ERROR for
    FATAL and CRITICAL). *)
Theorem level_line_round_trip env word m f :
  In word levelWords -> plainMessage m ->
  Formats.parseGeneric env (word ++ ": " ++ m) f
  = event (clock env)
          (match member word levelMappings with
           | Some level => level
           | None => word
           end)
          m (word ++ ": " ++ m) "generic" [].
Proof.
  intros Hin Hm. unfold Formats.parseGeneric. rewrite !chars_append.
  assert (H1 : bracketedStampLine (chars word ++ chars ": " ++ chars m) = None).
  { cbn in Hin.
    destruct Hin as [<- | [<- | [<- | [<- | [<- | [<- | []]]]]]]; reflexivity. }
  assert (H2 : isoStampLine (chars word ++ chars ": " ++ chars m) = None).
  { cbn in Hin.
    destruct Hin as [<- | [<- | [<- | [<- | [<- | [<- | []]]]]]]; reflexivity. }
  rewrite H1, H2. unfold levelLine, andThen.
  rewrite levelWordAt_literal by exact Hin.
  rewrite separated_message by exact Hm.
  rewrite text_of_chars. destruct Hm as (_ & _ & ->).
  f_equal. cbn in Hin.
  destruct Hin as [<- | [<- | [<- | [<- | [<- | [<- | []]]]]]]; reflexivity.
Qed.

Lemma level_line_round_trip_witness :
  Formats.parseGeneric ParserTerms.stubEnvironment
    ("FATAL" ++ ": " ++ "disk failure on volume 1") ParserTerms.autoFile
  = event 0 "ERROR" "disk failure on volume 1"
          ("FATAL" ++ ": " ++ "disk failure on volume 1") "generic" [].
Proof.
  apply (@level_line_round_trip ParserTerms.stubEnvironment "FATAL"
           "disk failure on volume 1" ParserTerms.autoFile).
  - cbn. tauto.
  - split; [exists "d"%char; eexists; split; reflexivity|].
    split; [repeat constructor|reflexivity].
Defined.

Lemma matchClasses_app cs a r :
  matchClasses cs a = true -> matchClasses cs (a ++ r) = true.
Proof.
  revert a. induction cs as [|p cs IH]; intros [|c a] H; cbn in *;
    try discriminate; try reflexivity.
  apply andb_true_iff in H as [Hp H]. now rewrite Hp, IH.
Qed.

Lemma firstn_exact (a r : list ascii) n :
  length a = n -> firstn n (a ++ r) = a.
Proof.
  intros <-. now rewrite firstn_app, firstn_all, Nat.sub_diag, app_nil_r.
Qed.

Lemma skipn_exact (a r : list ascii) n :
  length a = n -> skipn n (a ++ r) = r.
Proof.
  intros <-. now rewrite skipn_app, skipn_all, Nat.sub_diag.
Qed.

Lemma madeOf_chars p s : madeOf p s -> chars s <> [].
Proof.
  intros [Hne _] E. apply Hne. rewrite <- (text_of_chars s), E. reflexivity.
Qed.

(** X30: a line as nginx writes it for an error on a connection is read
    back by [parseNginx]: the time stamp with its slashes turned into
    dashes, the level word as [normalizeLevel] maps it, and as message
    what follows the connection number, kept as it is. *)
Theorem nginx_line_round_trip env stamp word pid tid cid m f :
  nginxStamp stamp -> madeOf isWord word ->
  madeOf isDigit pid -> madeOf isDigit tid -> madeOf isDigit cid ->
  madeOf notLineTerminator m ->
  Formats.parseNginx env (nginxErrorLine stamp word pid tid cid m) f
  = event (parseTimestamp env (Some (JStr (text (dashes (chars stamp))))))
          (levelOf (chars word)) m (nginxErrorLine stamp word pid tid cid m)
          "nginx" [].
Proof.
  intros [Hstamp Hlen] Hword Hpid Htid Hcid Hm.
  unfold Formats.parseNginx.
  assert (Hline : nginxLine (chars (nginxErrorLine stamp word pid tid cid m))
                  = Some (chars stamp, chars word, chars m)).
  { unfold nginxErrorLine. rewrite !chars_append. unfold nginxLine.
    rewrite (matchClasses_app _ _ _ Hstamp).
    rewrite (firstn_exact _ _ Hlen), (skipn_exact _ _ Hlen). unfold andThen.
    rewrite expect_literal.
    rewrite some_all;
      [|exact (@madeOf_chars _ _ Hword)|exact (proj2 Hword)|reflexivity].
    rewrite expect_literal.
    rewrite some_all;
      [|exact (@madeOf_chars _ _ Hpid)|exact (proj2 Hpid)|reflexivity].
    rewrite expect_literal.
    rewrite some_all;
      [|exact (@madeOf_chars _ _ Htid)|exact (proj2 Htid)|reflexivity].
    change (chars ": *" ++ chars cid ++ chars " " ++ chars m)
      with (chars ": " ++ chars "*" ++ chars cid ++ chars " " ++ chars m).
    rewrite expect_literal. unfold connection, andThen.
    rewrite expect_literal.
    rewrite some_all;
      [|exact (@madeOf_chars _ _ Hcid)|exact (proj2 Hcid)|reflexivity].
    rewrite expect_literal.
    rewrite rest_all; [reflexivity|exact (@madeOf_chars _ _ Hm)|exact (proj2 Hm)]. }
  rewrite Hline. now rewrite text_of_chars.
Qed.

Lemma nginx_line_round_trip_witness :
  Formats.parseNginx ParserTerms.stubEnvironment
    (nginxErrorLine "2025/08/01 10:30:15" "emerg" "12345" "0" "67890"
       "connect() failed") nginxFile
  = event 0 "EMERG" "connect() failed"
          (nginxErrorLine "2025/08/01 10:30:15" "emerg" "12345" "0" "67890"
             "connect() failed") "nginx" [].
Proof.
  apply (@nginx_line_round_trip ParserTerms.stubEnvironment
           "2025/08/01 10:30:15" "emerg" "12345" "0" "67890"
           "connect() failed" nginxFile);
    (split; [reflexivity || discriminate|repeat constructor]).
Defined.

End FormatsFacts.
